(** * Tagcode: bit extraction engine and SGTIN codec

  A shallow embedding of the Go packages [bitextract] and [epc] and the
  properties stated about them.

  Conventions of the embedding:
  - a Go [int] is a [Z] in the 64-bit two's complement range; the arithmetic
    that can leave the range is written with [GoInt.wrap];
  - a Go [byte]/[uint8] is a [Z] in [0, 256); shifts that leave the range are
    cut back with [mod 256];
  - byte buffers that the code writes in place live in one flat store
    ([Mem.mem]); a Go slice is a window on that store, so that two slices
    may overlap exactly as they can in Go;
  - a panic is the [None] of an [option]; a Go [error] result is a value. *)

From Stdlib Require Import ZArith Lia Bool String Ascii.
From stdpp Require Import prelude strings pretty.

Local Open Scope Z_scope.

(* ================================================================== *)
(** * Part I. The embedding *)
(* ================================================================== *)

(** ** Go machine integers *)

Module GoInt.

Definition MaxInt : Z := 2 ^ 63 - 1.
Definition MinInt : Z := - 2 ^ 63.

(** The value of an [int] after an operation whose mathematical result is
    [z]: reduction modulo [2^64] into the signed range. *)
Definition wrap (z : Z) : Z := (z + 2 ^ 63) mod 2 ^ 64 - 2 ^ 63.

Definition add (a b : Z) : Z := wrap (a + b).
Definition sub (a b : Z) : Z := wrap (a - b).
Definition mul (a b : Z) : Z := wrap (a * b).
(** [a << k] for a non-negative shift count. *)
Definition shl (a k : Z) : Z := wrap (Z.shiftl a k).

Definition in_range (z : Z) : Prop := MinInt <= z <= MaxInt.

(** Conversions [uint8(x)] and [byte(x)]. *)
Definition uint8 (z : Z) : Z := z mod 256.

(** Conversion [int(x)] of a [uint64]. *)
Definition of_uint64 (z : Z) : Z := wrap z.

End GoInt.

(** ** The byte store and slices *)

Module Mem.

(** The store: one flat array of bytes, addressed by position. *)
Abbreviation mem := (list Z).

(** A slice header: address of element 0, length and capacity. *)
Record slice : Type := Slice { base : nat; len : Z; cap : Z }.

(** The address of element [i] of [s]. *)
Definition addr (s : slice) (i : Z) : nat := (base s + Z.to_nat i)%nat.

(** [s[i]] as an expression: panics when [i] is out of range. *)
Definition load (s : slice) (i : Z) (m : mem) : option Z :=
  if (0 <=? i) && (i <? len s) then m !! addr s i else None.

(** [s[i] = v]: panics when [i] is out of range. *)
Definition store (s : slice) (i : Z) (v : Z) (m : mem) : option mem :=
  if (0 <=? i) && (i <? len s) && (Z.of_nat (addr s i) <? Z.of_nat (length m))
  then Some (<[addr s i := v]> m) else None.

(** [s[lo:hi]]: panics unless [0 <= lo <= hi <= cap(s)]. *)
Definition reslice (s : slice) (lo hi : Z) : option slice :=
  if (0 <=? lo) && (lo <=? hi) && (hi <=? cap s)
  then Some (Slice (addr s lo) (hi - lo) (cap s - lo)) else None.

(** [s[lo:]], which is [s[lo:len(s)]]. *)
Definition resliceFrom (s : slice) (lo : Z) : option slice :=
  reslice s lo (len s).

(** The bytes a slice shows. *)
Definition bytes (s : slice) (m : mem) : list Z :=
  take (Z.to_nat (len s)) (drop (base s) m).

(** The builtin [copy(dst, src)]: moves [min(len(dst), len(src))] bytes, with
    the semantics of memmove (the source bytes are read before any is
    written). *)
Definition copy (dst src : slice) (m : mem) : mem :=
  let n := Z.to_nat (Z.min (len dst) (len src)) in
  list_inserts (base dst) (take n (drop (base src) m)) m.

(** [for i := i0; i < i0 + n; i++ { body }] over the state the body updates
    (the store, or the store with the local variables of the function); a
    panic in the body ends the loop. *)
Fixpoint forRange {A : Type} (n : nat) (i : Z) (body : Z -> A -> option A)
    (a : A) : option A :=
  match n with
  | O => Some a
  | S n' => a' ← body i a; forRange n' (i + 1) body a'
  end.

(** [a[i]] on an array or a slice held as a value: panics when [i] is out
    of range. *)
Definition index {A : Type} (a : list A) (i : Z) : option A :=
  if i <? 0 then None else a !! Z.to_nat i.

(** A slice lies inside the store. *)
Definition valid (s : slice) (m : mem) : Prop :=
  0 <= len s <= cap s /\ Z.of_nat (base s) + cap s <= Z.of_nat (length m).

End Mem.

(** ** Package bitextract: bitextract.go *)

Module Bitextract.
Import Mem.

Definition ByteSize : Z := 8.
Definition ByteMask : Z := Z.shiftl 1 ByteSize - 1.

(** [alignmentBias] is a [uint8]; the three constants take the values that
    [iota] has on their lines of the constant block (2, 3 and 4), so the zero
    value of the type is none of them. *)
Definition srcAligned : Z := 2.
Definition srcBiasPrev : Z := 3.
Definition srcBiasNext : Z := 4.

Record BitExtractor : Type := mkBitExtractor {
  bitStart : Z; byteStart : Z; srcLen : Z; dstLen : Z;
  bias : Z;
  rshift : Z; lshift : Z; mask : Z
}.

(** [BitExtractor{}] *)
Definition zeroBitExtractor : BitExtractor :=
  mkBitExtractor 0 0 0 0 0 0 0 0.

Definition ByteLength (be : BitExtractor) : Z := dstLen be.

Definition ifAligned (size ifYes ifNo : Z) : Z :=
  if Z.rem size ByteSize =? 0 then ifYes else ifNo.

(** [SetBounds]: every field of the receiver is assigned, a panic is
    [None]. *)
Definition SetBounds (be : BitExtractor) (start len : Z)
    : option BitExtractor :=
  if (start <? 0) || (len <? 1) then None
  else if GoInt.add start len <? 0 then None
  else
    let byteStart' := Z.quot start ByteSize in
    let dstLen' := GoInt.add (Z.quot len ByteSize) (ifAligned len 0 1) in
    let srcEndByte :=
      GoInt.sub (Z.quot (GoInt.add start len) ByteSize)
                (ifAligned (GoInt.add start len) 1 0) in
    let srcLen' := GoInt.add (GoInt.sub srcEndByte byteStart') 1 in
    let srcEndOffset :=
      Z.rem (GoInt.sub (GoInt.add start len) 1) ByteSize in
    let rshift' :=
      GoInt.uint8 (GoInt.sub (GoInt.sub ByteSize srcEndOffset) 1) in
    let lshift' := GoInt.uint8 (GoInt.add srcEndOffset 1) in
    let mask' :=
      GoInt.uint8
        (ifAligned len ByteMask
           (GoInt.sub (GoInt.shl 1 (Z.rem len ByteSize)) 1)) in
    let bias' :=
      if rshift' =? 0 then srcAligned
      else if srcLen' =? dstLen' then srcBiasPrev
      else srcBiasNext in
    Some {| bitStart := start; byteStart := byteStart';
            srcLen := srcLen'; dstLen := dstLen';
            bias := bias';
            rshift := rshift'; lshift := lshift'; mask := mask' |}.

Definition New (start len : Z) : option BitExtractor :=
  SetBounds zeroBitExtractor start len.

(** [b << k] on a [uint8]: the bits shifted out of the byte are lost. *)
Definition shl8 (b k : Z) : Z := Z.shiftl b k mod 256.

(** [b >> k] on a [uint8]. *)
Definition shr8 (b k : Z) : Z := Z.shiftr b k.

(** [ExtractTo(dest, src)] on the store [m]. *)
Definition ExtractTo (be : BitExtractor) (dest src : slice) (m : mem)
    : option mem :=
  if len src <? GoInt.add (srcLen be) (byteStart be) then None
  else if len dest <? dstLen be then None
  else
    m1 ←
      (if bias be =? srcAligned then
         s ← reslice src (byteStart be) (byteStart be + dstLen be);
         Some (copy dest s m)
       else if bias be =? srcBiasPrev then
         x ← load src (byteStart be) m;
         m0 ← store dest 0 (shr8 x (rshift be)) m;
         forRange (Z.to_nat (dstLen be - 1)) 1
           (fun i mi =>
              a ← load src (i + byteStart be - 1) mi;
              b ← load src (i + byteStart be) mi;
              store dest i
                (Z.lor (shl8 a (GoInt.uint8 (ByteSize - rshift be)))
                       (shr8 b (rshift be))) mi)
           m0
       else if bias be =? srcBiasNext then
         forRange (Z.to_nat (dstLen be)) 0
           (fun i mi =>
              a ← load src (i + byteStart be) mi;
              b ← load src (i + byteStart be + 1) mi;
              store dest i
                (Z.lor (shl8 a (GoInt.uint8 (ByteSize - rshift be)))
                       (shr8 b (rshift be))) mi)
           m
       else Some m);
    x ← load dest 0 m1;
    store dest 0 (Z.land x (mask be)) m1.

(** [binary.BigEndian.Uint64] of an 8-byte buffer. *)
Definition BigEndian_Uint64 (b : list Z) : Z :=
  foldl (fun acc x => acc * 256 + x) 0 b.

(** [Extract(src)]: the destination is a buffer allocated by the call, so it
    is laid out in a store of its own next to the bytes of [src]. *)
Definition Extract (be : BitExtractor) (src : list Z) : option (list Z) :=
  if ByteLength be <? 0 then None
  else
    let n := Z.to_nat (ByteLength be) in
    let m := replicate n 0 ++ src in
    let dest := Slice 0 (ByteLength be) (ByteLength be) in
    let srcS := Slice n (Z.of_nat (length src)) (Z.of_nat (length src)) in
    m' ← ExtractTo be dest srcS m;
    Some (take n m').

(** [ExtractUInt64(src)]: the 8-byte scratch buffer comes from the pool, is
    owned by the call and is zeroed before use. *)
Definition ExtractUInt64 (be : BitExtractor) (src : list Z) : option Z :=
  let m := replicate 8 0 ++ src in
  let buff := Slice 0 8 8 in
  let srcS := Slice 8 (Z.of_nat (length src)) (Z.of_nat (length src)) in
  d ← resliceFrom buff (8 - dstLen be);
  m' ← ExtractTo be d srcS m;
  Some (BigEndian_Uint64 (take 8 m')).

(** The arguments [SetBounds] accepts. *)
Definition valid_bounds (start len : Z) : Prop :=
  0 <= start /\ 1 <= len /\ start + len <= GoInt.MaxInt.

(** The extractor for [(start, len)] in closed form: what [SetBounds] computes
    on accepted arguments, without machine arithmetic. *)
Definition builtExtractor (start len : Z) : BitExtractor :=
  let e := (start + len - 1) mod 8 in
  {| bitStart := start;
     byteStart := start / 8;
     srcLen := (start + len - 1) / 8 - start / 8 + 1;
     dstLen := (len + 7) / 8;
     bias := if e =? 7 then srcAligned
             else if (start + len - 1) / 8 - start / 8 + 1 =? (len + 7) / 8
                  then srcBiasPrev else srcBiasNext;
     rshift := 7 - e;
     lshift := e + 1;
     mask := if len mod 8 =? 0 then 255 else 2 ^ (len mod 8) - 1 |}.


(** *** bitfields.go: BitExploder and BitReader *)

(** The errors the package returns; [io.EOF] and [io.ErrShortBuffer] are the
    two sentinel values of package [io]. *)
Inductive error : Type :=
  | ErrInvalidDataLength (have want : Z)
  | ErrNotEnoughBytes (want have : Z)
  | ErrWidthsEmpty
  | ErrWidthNotPositive (i w : Z)
  | EOF
  | ErrShortBuffer.

Record BitExploder : Type := mkBitExploder {
  bitLength : Z;
  expByteLen : Z;
  extractors : list BitExtractor
}.

(** [BitExploder{}] *)
Definition zeroBitExploder : BitExploder := mkBitExploder 0 0 [].

Definition NumFields (exp : BitExploder) : Z :=
  Z.of_nat (length (extractors exp)).

Definition ExplodedByteLength (exp : BitExploder) : Z := expByteLen exp.

(** The loop of [SetWidths], from index [i] on: the receiver is updated in
    place, so an error leaves the fields written so far. *)
Fixpoint SetWidths_loop (i : Z) (widths : list Z) (exp : BitExploder)
    : option (BitExploder * option error) :=
  match widths with
  | [] => Some (exp, None)
  | w :: rest =>
      if w <=? 0 then Some (exp, Some (ErrWidthNotPositive i w))
      else
        be ← New (bitLength exp) w;
        SetWidths_loop (i + 1) rest
          {| bitLength := GoInt.add (bitLength exp) w;
             expByteLen := GoInt.add (expByteLen exp) (ByteLength be);
             extractors := <[Z.to_nat i := be]> (extractors exp) |}
  end.

Definition SetWidths (exp : BitExploder) (widths : list Z)
    : option (BitExploder * option error) :=
  if Z.of_nat (length widths) =? 0 then Some (exp, Some ErrWidthsEmpty)
  else
    SetWidths_loop 0 widths
      {| bitLength := 0;
         expByteLen := expByteLen exp;
         extractors := replicate (length widths) zeroBitExtractor |}.

Definition NewBitExploder (widths : list Z)
    : option (BitExploder * option error) :=
  SetWidths zeroBitExploder widths.

Record BitReader : Type := mkBitReader {
  exp : BitExploder;
  field : Z;
  data : slice
}.

(** The nil slice. *)
Definition nilSlice : slice := Slice 0 0 0.

Definition Reset (r : BitReader) : BitReader :=
  {| exp := exp r; field := 0; data := data r |}.

Definition SetData (r : BitReader) (d : slice) : BitReader * option error :=
  if GoInt.mul (len d) 8 <? bitLength (exp r)
  then (r, Some (ErrNotEnoughBytes (expByteLen (exp r)) (len d)))
  else ({| exp := exp r; field := 0; data := d |}, None).

Definition NewBitReader (e : BitExploder) (d : slice)
    : BitReader * option error :=
  SetData {| exp := e; field := 0; data := nilSlice |} d.

(** [r.exp.extractors[i]]: panics when [i] is out of range. *)
Definition extractorAt (e : BitExploder) (i : Z) : option BitExtractor :=
  index (extractors e) i.

(** [Read(p)]: the new reader, the pair the call returns and the new
    store. *)
Definition Read (r : BitReader) (p : slice) (m : mem)
    : option (BitReader * (Z * option error) * mem) :=
  if field r >=? NumFields (exp r) then Some (r, (0, Some EOF), m)
  else
    ex ← extractorAt (exp r) (field r);
    if dstLen ex >? len p then Some (r, (0, Some ErrShortBuffer), m)
    else
      m1 ← forRange (Z.to_nat (len p - dstLen ex)) 0
              (fun i mi => store p i 0 mi) m;
      d ← resliceFrom p (len p - dstLen ex);
      m2 ← ExtractTo ex d (data r) m1;
      Some ({| exp := exp r; field := GoInt.add (field r) 1; data := data r |},
            (len p, None), m2).

(** Two slices share no address. *)
Definition apart (s t : slice) : Prop :=
  Z.of_nat (base s) + len s <= Z.of_nat (base t) \/
  Z.of_nat (base t) + len t <= Z.of_nat (base s).

(** The buffer [p] shares no address with the bytes of the data [d] that
    the extractor reads, [d[byteStart : byteStart+srcLen]]. *)
Definition bufferApartFromReads (ex : BitExtractor) (p d : slice) : Prop :=
  Z.of_nat (base p) + len p <= Z.of_nat (base d) + byteStart ex \/
  Z.of_nat (base d) + byteStart ex + srcLen ex <= Z.of_nat (base p).

(** *** The extraction, stated on values

    The definitions below describe what [ExtractTo] leaves in the destination
    as a function of the source bytes alone. They follow the description of
    the three alignment cases and are compared with the code in Part II. *)

(** Byte [i] of a byte sequence, [0] beyond its end. *)
Definition nthByte (l : list Z) (i : Z) : Z := default 0 (l !! Z.to_nat i).


(** What [SetBounds] guarantees about the fields [ExtractTo] relies on. *)
Definition wf_extractor (be : BitExtractor) : Prop :=
  0 <= byteStart be /\ 1 <= dstLen be /\ 0 <= rshift be <= 7 /\
  GoInt.in_range (srcLen be + byteStart be) /\
  ((bias be = srcAligned /\ srcLen be = dstLen be) \/
   (bias be = srcBiasPrev /\ srcLen be = dstLen be) \/
   (bias be = srcBiasNext /\ srcLen be = dstLen be + 1)).

(** The blend of two neighbouring source bytes. *)
Definition blend (be : BitExtractor) (a b : Z) : Z :=
  Z.lor (shl8 a (8 - rshift be)) (shr8 b (rshift be)).

(** Destination byte [i] before the mask is applied. *)
Definition rawByte (be : BitExtractor) (sb : list Z) (i : Z) : Z :=
  let b := byteStart be in
  if bias be =? srcAligned then nthByte sb (b + i)
  else if bias be =? srcBiasPrev then
    if i =? 0 then shr8 (nthByte sb b) (rshift be)
    else blend be (nthByte sb (i + b - 1)) (nthByte sb (i + b))
  else blend be (nthByte sb (i + b)) (nthByte sb (i + b + 1)).

(** Destination byte [i]: the mask cuts the first byte. *)
Definition fieldByte (be : BitExtractor) (sb : list Z) (i : Z) : Z :=
  if i =? 0 then Z.land (rawByte be sb 0) (mask be) else rawByte be sb i.

(** The extracted field: [dstLen] bytes, right-aligned. *)
Definition fieldBytes (be : BitExtractor) (sb : list Z) : list Z :=
  fieldByte be sb <$> seqZ 0 (dstLen be).

(** The bytes [ExtractTo] writes, [dest[0 : dstLen]], share no address with
    the bytes it reads, [src[byteStart : byteStart+srcLen]]. *)
Definition writesApartFromReads (be : BitExtractor) (dest src : slice) : Prop :=
  Z.of_nat (base dest) + dstLen be <= Z.of_nat (base src) + byteStart be \/
  Z.of_nat (base src) + byteStart be + srcLen be <= Z.of_nat (base dest).


(** The body shared by the two blending loops of [ExtractTo]:
    [dest[i] = f(src[i+c1], src[i+c2])]. *)
Definition blend_body (dest src : slice) (c1 c2 : Z) (f : Z -> Z -> Z)
    (i : Z) (mi : mem) : option mem :=
  a ← load src (i + c1) mi;
  b ← load src (i + c2) mi;
  store dest i (f a b) mi.


(** A field of an exploder whose widths sum to [bl] bits: an extractor that
    [New] built and whose bits end within the [bl] bits. *)
Definition field_ok (bl : Z) (ex : BitExtractor) : Prop :=
  exists s w, ex = builtExtractor s w /\ valid_bounds s w /\ s + w <= bl.

(** *** bitfields.go: Buffer, ExplodeTo and Explode *)

Definition BitLength (exp : BitExploder) : Z := bitLength exp.

(** [make([]byte, n)]: a fresh zeroed array, laid out after the bytes the
    store holds; a negative length panics. *)
Definition make (n : Z) (m : mem) : option (slice * mem) :=
  if n <? 0 then None
  else Some (Slice (length m) n n, m ++ replicate (Z.to_nat n) 0).

(** The loop of [Buffer]: [bt[idx] = bigBuff[:n]; bigBuff = bigBuff[n:]]
    with [n = be.ByteLength()]. The slices keep the capacity of what is left
    of [bigBuff]. *)
Fixpoint Buffer_loop (exts : list BitExtractor) (bigBuff : slice)
    : option (list slice) :=
  match exts with
  | [] => Some []
  | be :: rest =>
      s ← reslice bigBuff 0 (ByteLength be);
      bigBuff' ← resliceFrom bigBuff (ByteLength be);
      bt ← Buffer_loop rest bigBuff';
      Some (s :: bt)
  end.

(** [Buffer()]: the slices and the store with the new array. *)
Definition Buffer (exp : BitExploder) (m : mem) : option (list slice * mem) :=
  '(bigBuff, m1) ← make (expByteLen exp) m;
  bt ← Buffer_loop (extractors exp) bigBuff;
  Some (bt, m1).

(** The loop of [ExplodeTo], from index [idx] on. *)
Fixpoint ExplodeTo_loop (exts : list BitExtractor) (idx : Z)
    (dst : list slice) (data : slice) (m : mem) : option mem :=
  match exts with
  | [] => Some m
  | be :: rest =>
      d ← index dst idx;
      m1 ← ExtractTo be d data m;
      ExplodeTo_loop rest (idx + 1) dst data m1
  end.

Definition ExplodeTo (exp : BitExploder) (dst : list slice) (data : slice)
    (m : mem) : option mem :=
  if Z.of_nat (length dst) <? Z.of_nat (length (extractors exp)) then None
  else ExplodeTo_loop (extractors exp) 0 dst data m.

(** [Explode(data)]: the slices of the fields ([nil] with an error), the
    error and the store, which holds the new buffer. *)
Definition Explode (exp : BitExploder) (data : slice) (m : mem)
    : option (list slice * option error * mem) :=
  if GoInt.mul (len data) 8 <? bitLength exp
  then Some ([], Some (ErrInvalidDataLength (GoInt.mul (len data) 8)
                                            (bitLength exp)), m)
  else
    '(bt, m1) ← Buffer exp m;
    m2 ← ExplodeTo exp bt data m1;
    Some (bt, None, m2).

(** *** Fields as numbers

    Bit 0 is the most significant bit of byte 0, as in the package
    documentation; the definitions below say which number a run of bits
    spells, and which extractors a list of widths asks for. *)

Definition isByte (x : Z) : Prop := 0 <= x < 256.

(** The number a byte sequence spells, most significant byte first. *)
Definition bigEndian (b : list Z) : Z :=
  foldl (fun acc x => acc * 256 + x) 0 b.

(** The number the bits [start .. start + len - 1] of [src] spell. *)
Definition bitsValue (src : list Z) (start len : Z) : Z :=
  (bigEndian src / 2 ^ (8 * Z.of_nat (length src) - start - len))
  mod 2 ^ len.

(** Consecutive fields of the given widths, the first at bit [start]. *)
Fixpoint builtFields (start : Z) (widths : list Z) : list BitExtractor :=
  match widths with
  | [] => []
  | w :: rest => builtExtractor start w :: builtFields (start + w) rest
  end.

(** The sum of the widths, and of the byte lengths of their fields. *)
Definition sumZ (l : list Z) : Z := foldr Z.add 0 l.
Definition byteLens (widths : list Z) : list Z :=
  (fun w => (w + 7) / 8) <$> widths.

(** The bit at which field [i] starts. *)
Definition fieldStart (widths : list Z) (i : nat) : Z := sumZ (take i widths).

(** The slices [Buffer] cuts from a buffer of [c] bytes at address [b], in
    closed form: each field's slice starts where the one before ends. *)
Fixpoint bufferSlices (b : nat) (c : Z) (exts : list BitExtractor)
    : list slice :=
  match exts with
  | [] => []
  | be :: rest =>
      Slice b (dstLen be) c
      :: bufferSlices (b + Z.to_nat (dstLen be)) (c - dstLen be) rest
  end.

End Bitextract.

(** ** Package epc *)

Module Epc.
Import Mem Bitextract.

(** *** Strings, bytes and formatting *)

(** A Go string is a sequence of bytes; it is a [string], whose characters
    are 8 bits wide. *)
Definition charCode (c : ascii) : Z := Z.of_N (N_of_ascii c).
Definition codeChar (b : Z) : ascii := ascii_of_N (Z.to_N b).

(** [[]byte(s)] *)
Fixpoint bytesOf (s : string) : list Z :=
  match s with
  | EmptyString => []
  | String c t => charCode c :: bytesOf t
  end.

(** [string(b)] *)
Fixpoint stringOf (b : list Z) : string :=
  match b with
  | [] => EmptyString
  | x :: t => String (codeChar x) (stringOf t)
  end.

(** [len(s)] *)
Definition strlen (s : string) : Z := Z.of_nat (String.length s).

(** One hexadecimal digit, in either case. *)
Definition fromHexChar (c : Z) : option Z :=
  if (48 <=? c) && (c <=? 57) then Some (c - 48)
  else if (97 <=? c) && (c <=? 102) then Some (c - 97 + 10)
  else if (65 <=? c) && (c <=? 70) then Some (c - 65 + 10)
  else None.

(** [hex.DecodeString] on the bytes of the string: [None] is its error (an
    odd length or a byte that is no hexadecimal digit). *)
Fixpoint hexDecode (l : list Z) : option (list Z) :=
  match l with
  | [] => Some []
  | [_] => None
  | a :: b :: rest =>
      x ← fromHexChar a; y ← fromHexChar b; r ← hexDecode rest;
      Some (x * 16 + y :: r)
  end.

(** The verb [%d]. *)
Definition fmtD (n : Z) : string := pretty n.

(** [count] copies of a character. *)
Definition padding (c : ascii) (count : Z) : string :=
  stringOf (replicate (Z.to_nat count) (charCode c)).

(** The verb [%0*d] with the width [w] taken from the arguments: zeros are
    put between the sign and the digits up to a total of [w] characters; a
    negative width asks for [-w] characters, left-justified, padded with
    spaces; a width beyond a million in absolute value is refused. *)
Definition fmt0StarD (w n : Z) : string :=
  if (w >? 1000000) || (w <? -1000000) then "%!(BADWIDTH)" +:+ fmtD n
  else if w <? 0 then
    fmtD n +:+ padding " " (- w - strlen (fmtD n))
  else if n <? 0 then
    "-" +:+ padding "0" (w - 1 - strlen (fmtD (- n))) +:+ fmtD (- n)
  else padding "0" (w - strlen (fmtD n)) +:+ fmtD n.

(** *** ascii.go *)

(** A package-level [bitextract.New(start, len)]: the package would fail to
    initialise on a panic; none of the constants below makes [New] panic. *)
Definition mustNew (start len : Z) : BitExtractor :=
  default zeroBitExtractor (New start len).

Definition asciiExtracts : list BitExtractor :=
  [ mustNew 0 7; mustNew 7 7; mustNew 6 7; mustNew 5 7;
    mustNew 4 7; mustNew 3 7; mustNew 2 7; mustNew 1 7 ].

Definition nullASCII : Z := 0.

(** The replacement [gs1Escaper] makes for one byte. All the old strings of
    the replacer are single bytes, so it works byte by byte; the null byte is
    replaced by the empty string. *)
Definition escapeByte (b : Z) : string :=
  if b =? 34 then "%22"
  else if b =? 35 then "%23"
  else if b =? 37 then "%25"
  else if b =? 38 then "%26"
  else if b =? 47 then "%2F"
  else if b =? 60 then "%3C"
  else if b =? 62 then "%3E"
  else if b =? 63 then "%3F"
  else if b =? 0 then ""
  else String (codeChar b) "".

(** [gs1Escaper.Replace] *)
Fixpoint gs1Escaper_Replace (s : string) : string :=
  match s with
  | EmptyString => EmptyString
  | String c t => escapeByte (charCode c) +:+ gs1Escaper_Replace t
  end.

Definition EscapeGS1 (s : string) : string := gs1Escaper_Replace s.

(** The character of the escape sequence [%ab], for the eight sequences
    [gs1Unescaper] knows. *)
Definition unescapeCode (a b : Z) : option Z :=
  if (a =? 50) && (b =? 50) then Some 34
  else if (a =? 50) && (b =? 51) then Some 35
  else if (a =? 50) && (b =? 53) then Some 37
  else if (a =? 50) && (b =? 54) then Some 38
  else if (a =? 50) && (b =? 70) then Some 47
  else if (a =? 51) && (b =? 67) then Some 60
  else if (a =? 51) && (b =? 69) then Some 62
  else if (a =? 51) && (b =? 70) then Some 63
  else None.

(** [gs1Unescaper.Replace]: the old strings are three bytes long, so the
    replacer scans from the left, replaces a sequence where one starts and
    goes on after it, and copies the byte otherwise. *)
Fixpoint gs1Unescaper_Replace (s : string) : string :=
  match s with
  | EmptyString => EmptyString
  | String c t =>
      match t with
      | String a (String b rest) =>
          match (if charCode c =? 37
                 then unescapeCode (charCode a) (charCode b) else None) with
          | Some x => String (codeChar x) (gs1Unescaper_Replace rest)
          | None => String c (gs1Unescaper_Replace t)
          end
      | _ => String c (gs1Unescaper_Replace t)
      end
  end.

Definition UnescapeGS1 (s : string) : string := gs1Unescaper_Replace s.

(** The codes of the characters of GS1's AI encodable character set 82. *)
Definition gs1AIChars : list Z :=
  [33; 34; 37; 38; 39; 40; 41; 42; 43; 44; 45; 46; 47;
   58; 59; 60; 61; 62; 63; 95]
  ++ seqZ 48 10 ++ seqZ 65 26 ++ seqZ 97 26.

(** [gs1AICharSet], an array of 127 entries. *)
Definition gs1AICharSet : list Z :=
  (fun c => if bool_decide (c ∈ gs1AIChars) then 1 else 0) <$> seqZ 0 127.

(** [IsGS1AIEncodable]. The loop ranges over the string and looks at the byte
    at each position it visits; it returns at the first byte above 127, so it
    visits every byte before that one, and it is written on the bytes. The
    inner loop over the bytes after a null does not move the outer one. *)
Fixpoint IsGS1AIEncodable_bytes (l : list Z) : option bool :=
  match l with
  | [] => Some true
  | c :: rest =>
      if c =? nullASCII then
        if forallb (fun x => x =? nullASCII) rest
        then IsGS1AIEncodable_bytes rest else Some false
      else if c <=? 127 then
        t ← index gs1AICharSet (Z.land c 127);
        if t =? 1 then IsGS1AIEncodable_bytes rest else Some false
      else Some false
  end.

Definition IsGS1AIEncodable (s : string) : option bool :=
  IsGS1AIEncodable_bytes (bytesOf s).

(** The variables the loop of [DecodeASCIIAt] updates. *)
Record asciiState : Type := mkAsciiState {
  al_mem : mem; al_ext : Z; al_nullTerm : Z; al_extra : bool
}.

(** [DecodeASCIIAt(data, offset)]: [outdata] is allocated by the call, so it
    is laid out in a store of its own before the bytes of [data]. *)
Definition DecodeASCIIAt (data : list Z) (offset : Z)
    : option (string * Z * bool) :=
  if (offset <? 0) || (offset >? 7) then None
  else
    let L := Z.of_nat (length data) in
    let outbyteLen := Z.quot (GoInt.sub (GoInt.mul L 8) offset) 7 in
    if outbyteLen <=? 0 then
      Some (EmptyString, 0, (L =? 1) && negb (nthByte data 0 =? nullASCII))
    else
      let n := Z.to_nat outbyteLen in
      let outdata := Slice 0 outbyteLen outbyteLen in
      let dataS := Slice n L L in
      st ← forRange n 0
             (fun i st =>
                let inbyte :=
                  GoInt.sub i (Z.quot (GoInt.sub (GoInt.add i 7) offset) 8) in
                ex ← index asciiExtracts (Z.rem (al_ext st) 8);
                d ← resliceFrom outdata i;
                src ← resliceFrom dataS inbyte;
                m' ← ExtractTo ex d src (al_mem st);
                x ← load outdata i m';
                Some {| al_mem := m';
                        al_ext := GoInt.add (al_ext st) 1;
                        al_nullTerm :=
                          if (x =? nullASCII) && (al_nullTerm st =? -1)
                          then i else al_nullTerm st;
                        al_extra :=
                          if negb (x =? nullASCII)
                             && negb (al_nullTerm st =? -1)
                          then true else al_extra st |})
             {| al_mem := replicate n 0 ++ data;
                al_ext := Z.rem (8 - offset) 8;
                al_nullTerm := -1;
                al_extra := false |};
      let out := stringOf (take n (al_mem st)) in
      Some (out,
            if al_nullTerm st =? -1 then strlen out else al_nullTerm st,
            al_extra st).

(** A string without its null bytes. *)
Fixpoint removeNulls (s : string) : string :=
  match s with
  | EmptyString => EmptyString
  | String c t =>
      if charCode c =? 0 then removeNulls t else String c (removeNulls t)
  end.

(** *** sgtin.go *)

Definition SGTINPureURIPrefix : string := "urn:epc:id:sgtin".
Definition SGTIN96NumBytes : Z := 12.
Definition SGTIN198NumBytes : Z := 25.
Definition SGTIN96Header : Z := 48.
Definition SGTIN198Header : Z := 54.

(** [FilterValue] is an [int]. *)
Definition Other : Z := 0.
Definition POS : Z := 1.
Definition FullCase : Z := 2.
Definition reserved1 : Z := 3.
Definition InnerPack : Z := 4.
Definition reserved2 : Z := 5.
Definition UnitLoad : Z := 6.
Definition UnitPack : Z := 7.

Definition IsValid (fv : Z) : bool :=
  (fv >=? Other) && (fv <=? UnitPack)
  && negb ((fv =? reserved1) || (fv =? reserved2)).

Record SGTIN : Type := mkSGTIN {
  filter : Z;
  partition : Z;
  companyPrefix : Z;
  indicator : Z;
  itemRef : Z;
  serial : string
}.

(** [SGTIN{}] *)
Definition zeroSGTIN : SGTIN := mkSGTIN 0 0 0 0 0 EmptyString.

(** The errors of the package, one constructor for each place that makes
    one. *)
Inductive error : Type :=
  | ErrHex
  | ErrNoData
  | ErrSGTIN96Length (n : Z)
  | ErrSGTIN198Length (n : Z)
  | ErrHeader (b : Z)
  | ErrInvalidPartition (p : Z)
  | ErrIndicator (i : Z)
  | ErrFilter (f : Z)
  | ErrPartitionRange (p : Z)
  | ErrItemRef (p i : Z)
  | ErrCompanyPrefix (p c : Z)
  | ErrSerialEmpty
  | ErrSerialTooLong (n : Z)
  | ErrSerialChars.

Definition maxItems : list Z :=
  [1; 10; 100; 1000; 10000; 100000; 1000000].

Definition maxPrefix : list Z :=
  [999999999999; 99999999999; 9999999999; 999999999; 99999999; 9999999;
   999999].

(** [ValidateRanges]: [Some None] is the nil error; the call panics only
    inside [IsGS1AIEncodable]. *)
Definition ValidateRanges (s : SGTIN) : option (option error) :=
  if (indicator s <? 0) || (indicator s >? 9) then
    Some (Some (ErrIndicator (indicator s)))
  else if negb (IsValid (filter s)) then
    Some (Some (ErrFilter (filter s)))
  else if (partition s <? 0) || (partition s >? 6) then
    Some (Some (ErrPartitionRange (partition s)))
  else
    mi ← index maxItems (partition s);
    if (itemRef s <? 0) || (itemRef s >? GoInt.sub mi 1) then
      Some (Some (ErrItemRef (partition s) (itemRef s)))
    else
      mp ← index maxPrefix (partition s);
      if (companyPrefix s <? 0) || (companyPrefix s >? mp) then
        Some (Some (ErrCompanyPrefix (partition s) (companyPrefix s)))
      else if strlen (serial s) =? 0 then Some (Some ErrSerialEmpty)
      else if strlen (serial s) >? 20 then
        Some (Some (ErrSerialTooLong (strlen (serial s))))
      else
        ok ← IsGS1AIEncodable (serial s);
        if (ok : bool) then Some None else Some (Some ErrSerialChars).

(** The weight of a digit in [checkSum]: [(((d1 - i) & 1) << 1) | 1]. *)
Definition digitWeight (d1 i : Z) : Z :=
  Z.lor (GoInt.shl (Z.land (GoInt.sub d1 i) 1) 1) 1.

(** The loop of [checkSum]; [fuel] bounds the number of iterations. *)
Fixpoint checkSum_loop (fuel : nat) (n d1 i sum : Z) : Z :=
  match fuel with
  | O => sum
  | S fuel' =>
      if n >? 0 then
        checkSum_loop fuel' (Z.quot n 10) d1 (GoInt.add i 1)
          (GoInt.add sum (GoInt.mul (Z.rem n 10) (digitWeight d1 i)))
      else sum
  end.

(** [checkSum(n, d1)]. Each iteration divides [n] by 10, so there are no more
    iterations than [n] has bits; [checkSum_runs] in Part II shows that the
    loop always ends on its own condition. *)
Definition checkSum (n d1 : Z) : Z :=
  checkSum_loop (S (Z.to_nat (Z.log2 n))) n d1 0 0.

(** The loop of [checkSum] as a relation, without a bound: from the state
    [(n, i, sum)] it ends with the result [r]. *)
Inductive checkSum_steps (d1 : Z) : Z -> Z -> Z -> Z -> Prop :=
  | checkSum_exit n i sum :
      n <= 0 -> checkSum_steps d1 n i sum sum
  | checkSum_iter n i sum r :
      0 < n ->
      checkSum_steps d1 (Z.quot n 10) (GoInt.add i 1)
        (GoInt.add sum (GoInt.mul (Z.rem n 10) (digitWeight d1 i))) r ->
      checkSum_steps d1 n i sum r.

Definition checkDigit (s : SGTIN) : Z :=
  let sum :=
    GoInt.add
      (GoInt.add (checkSum (itemRef s) 1)
                 (checkSum (companyPrefix s) (GoInt.sub 13 (partition s))))
      (checkSum (indicator s) 13) in
  Z.rem (GoInt.sub 10 (Z.rem sum 10)) 10.

(** *** The check digit, stated on digits

    The two definitions below follow the description of the checksum: each
    component contributes the sum of its decimal digits, taken from the
    lowest one up, the digit at the 1-indexed position [p] of the 13-digit
    number weighted 3 when [p] is odd and 1 when it is even. *)

Definition positionWeight (p : Z) : Z := if Z.odd p then 3 else 1.

(** The weighted sum of the [k] lowest digits of [n], the lowest one at
    position [p]. *)
Fixpoint weightedDigits (k : nat) (n p : Z) : Z :=
  match k with
  | O => 0
  | S k' => (n mod 10) * positionWeight p + weightedDigits k' (n / 10) (p + 1)
  end.

(** The contribution of a component: an [int] has at most 19 digits. *)
Definition weightedDigitSum (n p : Z) : Z := weightedDigits 19 n p.

Definition GTIN (s : SGTIN) : string :=
  if partition s =? 0 then
    fmtD (indicator s) +:+ fmt0StarD 12 (companyPrefix s)
    +:+ fmtD (checkDigit s)
  else
    fmtD (indicator s)
    +:+ fmt0StarD (GoInt.sub 12 (partition s)) (companyPrefix s)
    +:+ fmt0StarD (partition s) (itemRef s)
    +:+ fmtD (checkDigit s).

Definition URI (s : SGTIN) : string :=
  if partition s =? 0 then
    SGTINPureURIPrefix +:+ ":"
    +:+ fmt0StarD (GoInt.sub 12 (partition s)) (companyPrefix s)
    +:+ "." +:+ fmtD (indicator s)
    +:+ "." +:+ gs1Escaper_Replace (serial s)
  else
    SGTINPureURIPrefix +:+ ":"
    +:+ fmt0StarD (GoInt.sub 12 (partition s)) (companyPrefix s)
    +:+ "." +:+ fmtD (indicator s) +:+ fmt0StarD (partition s) (itemRef s)
    +:+ "." +:+ gs1Escaper_Replace (serial s).

Definition headerLen : Z := 8.
Definition filterLen : Z := 3.
Definition partitionLen : Z := 3.
Definition prefixIIRLen : Z := 44.
Definition headerStartBit : Z := 0.
Definition filterStartBit : Z := headerStartBit + headerLen.
Definition partitionStartBit : Z := filterStartBit + filterLen.
Definition gcpStartBit : Z := partitionStartBit + partitionLen.
Definition serialStartBit : Z := gcpStartBit + prefixIIRLen.
Definition serial96Len : Z := 96 - serialStartBit.
Definition serial198Len : Z := 198 - serialStartBit.
Definition serialStartByte : Z := Z.quot serialStartBit 8.
Definition serialOffsetBit : Z := Z.rem serialStartBit 8.

Definition filterExt : BitExtractor := mustNew filterStartBit filterLen.
Definition partitionExt : BitExtractor :=
  mustNew partitionStartBit partitionLen.
Definition serial96Ext : BitExtractor := mustNew serialStartBit serial96Len.

Definition companyExt : list BitExtractor :=
  [ mustNew gcpStartBit 40; mustNew gcpStartBit 37; mustNew gcpStartBit 34;
    mustNew gcpStartBit 30; mustNew gcpStartBit 27; mustNew gcpStartBit 24;
    mustNew gcpStartBit 20 ].

Definition iirExt : list BitExtractor :=
  [ mustNew (serialStartBit - 4) 4; mustNew (serialStartBit - 7) 7;
    mustNew (serialStartBit - 10) 10; mustNew (serialStartBit - 14) 14;
    mustNew (serialStartBit - 17) 17; mustNew (serialStartBit - 20) 20;
    mustNew (serialStartBit - 24) 24 ].

(** [b[lo:]] on a slice held as a value. *)
Definition sliceFrom (b : list Z) (lo : Z) : option (list Z) :=
  if (0 <=? lo) && (lo <=? Z.of_nat (length b))
  then Some (drop (Z.to_nat lo) b) else None.

(** [s[:n]] on a string. *)
Definition strPrefix (s : string) (n : Z) : option string :=
  if (0 <=? n) && (n <=? strlen s)
  then Some (String.substring 0 (Z.to_nat n) s) else None.

(** The serial of [DecodeSGTIN]: the [switch] on the header byte. The result
    is the serial or the error the function returns. *)
Definition decodeSerial (b : list Z) : option (string + error) :=
  b0 ← index b 0;
  if b0 =? SGTIN96Header then
    if negb (Z.of_nat (length b) =? SGTIN96NumBytes) then
      Some (inr (ErrSGTIN96Length (Z.of_nat (length b))))
    else
      v ← ExtractUInt64 serial96Ext b;
      Some (inl (fmtD (GoInt.of_uint64 v)))
  else if b0 =? SGTIN198Header then
    if negb (Z.of_nat (length b) =? SGTIN198NumBytes) then
      Some (inr (ErrSGTIN198Length (Z.of_nat (length b))))
    else
      tail ← sliceFrom b serialStartByte;
      '(s, n, charAfterNull) ← DecodeASCIIAt tail serialOffsetBit;
      if (charAfterNull : bool) then Some (inl s)
      else s' ← strPrefix s n; Some (inl s')
  else Some (inr (ErrHeader b0)).

(** The part of [DecodeSGTIN] after the [switch]: the fields of the tag,
    with the serial the [switch] decoded. *)
Definition decodeFields (b : list Z) (serial' : string)
    : option (SGTIN * option error) :=
  f ← ExtractUInt64 filterExt b;
  let filter' := GoInt.of_uint64 f in
  p ← ExtractUInt64 partitionExt b;
  let partition' := GoInt.of_uint64 p in
  if (partition' <? 0) || (partition' >? 6) then
    Some (zeroSGTIN, Some (ErrInvalidPartition partition'))
  else
    ce ← index companyExt partition';
    c ← ExtractUInt64 ce b;
    let companyPrefix' := GoInt.of_uint64 c in
    ie ← index iirExt partition';
    v ← ExtractUInt64 ie b;
    let iir := GoInt.of_uint64 v in
    mi ← index maxItems partition';
    let indicator' := Z.quot iir mi in
    let itemRef' :=
      if partition' >? 0
      then GoInt.sub iir (GoInt.mul (GoInt.mul indicator' mi) 10)
      else 0 in
    Some ({| filter := filter'; partition := partition';
             companyPrefix := companyPrefix';
             indicator := indicator'; itemRef := itemRef';
             serial := serial' |}, None).

(** [DecodeSGTIN]: the pair the call returns, [None] for a panic. *)
Definition DecodeSGTIN (b : list Z) : option (SGTIN * option error) :=
  if Z.of_nat (length b) =? 0 then Some (zeroSGTIN, Some ErrNoData)
  else
    r ← decodeSerial b;
    match r with
    | inr e => Some (zeroSGTIN, Some e)
    | inl serial' => decodeFields b serial'
    end.

(** [DecodeSGTINString] *)
Definition DecodeSGTINString (epc : string) : option (SGTIN * option error) :=
  match hexDecode (bytesOf epc) with
  | None => Some (zeroSGTIN, Some ErrHex)
  | Some b => DecodeSGTIN b
  end.

(** *** The conditions of a failed decode, stated on the bytes *)

(** The partition field: bits 11 to 13 of the tag, [(b[1] >> 2) & 7]. *)
Definition partitionBits (b : list Z) : Z :=
  Z.land (Z.shiftr (nthByte b 1) 2) 7.

(** The inputs on which decoding is said to fail: no byte, a first byte that
    is neither header, a length that is not the one of the header's scheme, a
    partition above 6. *)
Definition decodeFails (b : list Z) : Prop :=
  length b = 0%nat \/
  (nthByte b 0 <> SGTIN96Header /\ nthByte b 0 <> SGTIN198Header) \/
  (nthByte b 0 = SGTIN96Header /\ Z.of_nat (length b) <> SGTIN96NumBytes) \/
  (nthByte b 0 = SGTIN198Header /\ Z.of_nat (length b) <> SGTIN198NumBytes) \/
  partitionBits b > 6.

(** *** ascii.go: the character set of Component and Parts *)

(** The codes of the characters GS1 allows in the AI for Component and
    Parts. *)
Definition gs1AICPChars : list Z :=
  [35; 45; 47] ++ seqZ 48 10 ++ seqZ 65 26.

(** [gs1AICPCharSet], an array of 127 entries. *)
Definition gs1AICPCharSet : list Z :=
  (fun c => if bool_decide (c ∈ gs1AICPChars) then 1 else 0) <$> seqZ 0 127.

(** [IsGS1CompPartEncodable]: the loop of [IsGS1AIEncodable] over the other
    table. *)
Fixpoint IsGS1CompPartEncodable_bytes (l : list Z) : option bool :=
  match l with
  | [] => Some true
  | c :: rest =>
      if c =? nullASCII then
        if forallb (fun x => x =? nullASCII) rest
        then IsGS1CompPartEncodable_bytes rest else Some false
      else if c <=? 127 then
        t ← index gs1AICPCharSet (Z.land c 127);
        if t =? 1 then IsGS1CompPartEncodable_bytes rest else Some false
      else Some false
  end.

Definition IsGS1CompPartEncodable (s : string) : option bool :=
  IsGS1CompPartEncodable_bytes (bytesOf s).

(** The strings the two predicates are meant to accept: characters of the
    set, then null bytes only. *)
Definition charsThenNulls (chars : list Z) (l : list Z) : Prop :=
  exists pre k, l = pre ++ replicate k 0 /\ Forall (fun c => c ∈ chars) pre.

(** The strings on which the table is indexed beyond its end: characters of
    the set, then the byte 127. *)
Definition charsThenDEL (chars : list Z) (l : list Z) : Prop :=
  exists pre rest, l = pre ++ 127 :: rest /\ Forall (fun c => c ∈ chars) pre.

(** *** The unpacked characters, stated on bits *)

(** Character [i] of a packed string whose first character starts at bit
    [offset]: the 7 bits from bit [offset + 7 i] on. *)
Definition packedChar (data : list Z) (offset i : Z) : Z :=
  bitsValue data (offset + 7 * i) 7.

(** The characters that fit the data. *)
Definition packedChars (data : list Z) (offset : Z) : list Z :=
  packedChar data offset
  <$> seqZ 0 ((8 * Z.of_nat (length data) - offset) / 7).

(** The position of the first null of a byte sequence; its length when it
    has none. *)
Fixpoint firstNull (l : list Z) : Z :=
  match l with
  | [] => 0
  | c :: rest => if c =? 0 then 0 else 1 + firstNull rest
  end.

(** A byte that is not null follows a null byte. *)
Fixpoint charAfterNull (l : list Z) : bool :=
  match l with
  | [] => false
  | c :: rest =>
      if c =? 0 then existsb (fun x => negb (x =? 0)) rest
      else charAfterNull rest
  end.

(** *** The fields of a tag, stated on bits *)

(** The width in bits of the company prefix for each partition: the lengths
    of the extractors of [companyExt]; the indicator and item reference take
    the rest of the 44 bits. *)
Definition companyBits : list Z := [40; 37; 34; 30; 27; 24; 20].
Definition companyWidth (p : Z) : Z := default 0 (companyBits !! Z.to_nat p).

(** The SGTIN [DecodeSGTIN] builds from the bits of a tag and the serial it
    decoded: the filter is bits 8-10, the partition bits 11-13, the company
    prefix starts at bit 14 and the indicator and item reference end at bit
    57. The item reference is computed as in the code. *)
Definition decodedFields (b : list Z) (serial' : string) : SGTIN :=
  let p := bitsValue b 11 3 in
  let cw := companyWidth p in
  let iir := bitsValue b (14 + cw) (44 - cw) in
  let ind := iir / 10 ^ p in
  {| filter := bitsValue b 8 3;
     partition := p;
     companyPrefix := bitsValue b 14 cw;
     indicator := ind;
     itemRef := if p >? 0 then iir - ind * 10 ^ p * 10 else 0;
     serial := serial' |}.

(** The 20 characters of the serial of an SGTIN-198 tag: 7 bits each, from
    bit 58 on. *)
Definition serial198Chars (b : list Z) : list Z :=
  (fun i => bitsValue b (58 + 7 * i) 7) <$> seqZ 0 20.

(** *** sgtin.go: the constructors and conversions around [ValidateRanges] *)

Definition NewSGTIN (filter' partition' indicator' companyPrefix' itemRef' : Z)
    (serial' : string) : option (SGTIN * option error) :=
  let s := {| filter := filter'; partition := partition';
              companyPrefix := companyPrefix'; indicator := indicator';
              itemRef := itemRef'; serial := serial' |} in
  e ← ValidateRanges s;
  Some (s, e).

Definition SGTINToGTIN14 (epc : string) : option (string * option error) :=
  r ← DecodeSGTINString epc;
  match r.2 with
  | Some e => Some (EmptyString, Some e)
  | None =>
      v ← ValidateRanges r.1;
      match v with
      | Some e => Some (EmptyString, Some e)
      | None => Some (GTIN r.1, None)
      end
  end.

Definition SGTINToPureURI (epc : string) : option (string * option error) :=
  r ← DecodeSGTINString epc;
  match r.2 with
  | Some e => Some (EmptyString, Some e)
  | None =>
      v ← ValidateRanges r.1;
      match v with
      | Some e => Some (EmptyString, Some e)
      | None => Some (URI r.1, None)
      end
  end.

(** *** Decimal digits and the check of a GTIN-14 *)

(** The [k] lowest decimal digits of [n], the highest first, as character
    codes. *)
Fixpoint digits (k : nat) (n : Z) : list Z :=
  match k with
  | O => []
  | S k' => digits k' (n / 10) ++ [48 + n mod 10]
  end.

Definition isDigit (c : Z) : Prop := 48 <= c <= 57.

(** The number a sequence of digit characters spells. *)
Definition decimalValue (l : list Z) : Z :=
  foldl (fun acc c => acc * 10 + (c - 48)) 0 l.

(** A well-formed GTIN-14: 14 digits whose sum, the last digit weighted 1,
    the one before 3, and so on alternately, is a multiple of 10. *)
Definition wellFormedGTIN14 (g : string) : Prop :=
  length (bytesOf g) = 14%nat /\ Forall isDigit (bytesOf g) /\
  weightedDigits 14 (decimalValue (bytesOf g)) 0 mod 10 = 0.

(** The ranges [ValidateRanges] asks of the numeric fields and of the length
    of the serial. *)
Definition rangesOK (s : SGTIN) : Prop :=
  0 <= indicator s <= 9 /\ IsValid (filter s) = true /\
  0 <= partition s <= 6 /\
  0 <= itemRef s < 10 ^ partition s /\
  0 <= companyPrefix s < 10 ^ (12 - partition s) /\
  1 <= strlen (serial s) <= 20.

(** The serial [DecodeSGTIN] gives an SGTIN-198 tag: all 20 characters when
    a character that is not null follows a null one, the characters before
    the first null otherwise. *)
Definition serial198 (b : list Z) : list Z :=
  if charAfterNull (serial198Chars b) then serial198Chars b
  else take (Z.to_nat (firstNull (serial198Chars b))) (serial198Chars b).

(** The bytes [gs1Escaper] rewrites: the null byte and the eight reserved
    characters; all of them but the percent sign are absent from what it
    writes. *)
Definition gs1Special : list Z := [0; 34; 35; 37; 38; 47; 60; 62; 63].
Definition gs1Unsafe : list Z := [0; 34; 35; 38; 47; 60; 62; 63].

(** The errors of [strconv.ParseUint]. *)
Inductive parseError : Type :=
  | ErrSyntax
  | ErrRange.

(** The loop of [strconv.ParseUint] in base 10 over the bytes of the text,
    on [uint64]: a byte that is not a digit of the base is a syntax error;
    the number is checked against the cutoff before it is multiplied, and
    the sum against the wrap-around and the largest value of the size. *)
Fixpoint ParseUint_loop (maxVal : Z) (l : list Z) (n : Z)
    : Z + parseError :=
  match l with
  | [] => inl n
  | c :: t =>
      if (48 <=? c) && (c <=? 57) then
        if n >=? (2 ^ 64 - 1) / 10 + 1 then inr ErrRange
        else
          let n10 := (n * 10) mod 2 ^ 64 in
          let n1 := (n10 + (c - 48)) mod 2 ^ 64 in
          if (n1 <? n10) || (n1 >? maxVal) then inr ErrRange
          else ParseUint_loop maxVal t n1
      else inr ErrSyntax
  end.

(** [strconv.ParseUint(s, 10, bitSize)] for a size from 1 to 64. *)
Definition ParseUint (s : string) (bitSize : Z) : Z + parseError :=
  match bytesOf s with
  | [] => inr ErrSyntax
  | l => ParseUint_loop (2 ^ bitSize - 1) l 0
  end.

(** The errors of [CanSGTIN96]. *)
Inductive serial96Error : Type :=
  | ErrSerial96Empty
  | ErrSerial96Numeric (e : parseError)
  | ErrSerial96LeadingZero.

(** [CanSGTIN96()]: the error, [None] for nil. *)
Definition CanSGTIN96 (s : SGTIN) : option serial96Error :=
  match bytesOf (serial s) with
  | [] => Some ErrSerial96Empty
  | c0 :: _ =>
      match ParseUint (serial s) 38 with
      | inr e => Some (ErrSerial96Numeric e)
      | inl _ =>
          if (c0 =? 48) && negb (String.eqb (serial s) "0")
          then Some ErrSerial96LeadingZero
          else None
      end
  end.

End Epc.

(** ** Package bittag *)

Module Bittag.
Import Mem Bitextract.

(** A field of a tag is an [interface{}] that holds a [uint64] or, for a
    field of more than 8 bytes, a [*big.Int]; [make] fills the slice of
    fields with nil interfaces. *)
Inductive fieldValue : Type :=
  | NilField
  | U64 (v : Z)
  | Big (v : Z).

Record BitTag : Type := mkBitTag {
  uriPrefix : string;
  fields : list fieldValue
}.

(** [BitTag{}] *)
Definition zeroBitTag : BitTag := mkBitTag EmptyString [].

(** [Decoder]: the prefix and the embedded [BitExploder]. *)
Record Decoder : Type := mkDecoder {
  decoderPrefix : string;
  decoderExploder : BitExploder
}.

(** The errors [Decode] returns: its own, and the one of [Explode]. *)
Inductive error : Type :=
  | ErrDataLength (have want : Z)
  | ErrExplode (e : Bitextract.error).

(** The verb [%d] on a field; a nil interface prints as a bad verb. *)
Definition fmtField (f : fieldValue) : string :=
  match f with
  | NilField => "%!d(<nil>)"
  | U64 v => Epc.fmtD v
  | Big v => Epc.fmtD v
  end.

Definition NumFields (bt : BitTag) : Z := Z.of_nat (length (fields bt)).

(** [String()]: the builder receives every field but the last followed by a
    period, then the last one. *)
Definition String (bt : BitTag) : option string :=
  if Z.of_nat (length (fields bt)) =? 0 then Some EmptyString
  else
    b ← forRange (Z.to_nat (GoInt.sub (Z.of_nat (length (fields bt))) 1)) 0
          (fun i b => f ← index (fields bt) i;
                      Some (b +:+ fmtField f +:+ "."))
          EmptyString;
    f ← index (fields bt) (GoInt.sub (Z.of_nat (length (fields bt))) 1);
    Some (b +:+ fmtField f).

(** [URI()]: the verbs [%s:%s] on the prefix and the tag. *)
Definition URI (bt : BitTag) : option string :=
  s ← String bt;
  Some (uriPrefix bt +:+ ":" +:+ s).

(** [binary.BigEndian.PutUint64(b, v)]: the bounds check on [b[7]], then the
    eight bytes. *)
Definition PutUint64 (b : slice) (v : Z) (m : mem) : option mem :=
  if len b <? 8 then None
  else forRange 8 0
         (fun i mi => store b i (Z.shiftr v (8 * (7 - i)) mod 256) mi) m.

(** [binary.BigEndian.Uint64(b)] *)
Definition Uint64 (b : slice) (m : mem) : option Z :=
  if len b <? 8 then None
  else
    l ← mapM (fun i => load b i m) (seqZ 0 8);
    Some (bigEndian l).

(** [fields[i] = v] on the slice of interfaces. *)
Definition setField (l : list fieldValue) (i : Z) (v : fieldValue)
    : option (list fieldValue) :=
  if (0 <=? i) && (i <? Z.of_nat (length l))
  then Some (<[Z.to_nat i := v]> l) else None.

(** The loop of [Decode] over the slices [Explode] returned. *)
Fixpoint Decode_loop (fs : list slice) (fieldIdx : Z) (buff : slice)
    (out : list fieldValue) (m : mem) : option (list fieldValue * mem) :=
  match fs with
  | [] => Some (out, m)
  | field :: rest =>
      if len field <=? 8 then
        m1 ← PutUint64 buff 0 m;
        d ← resliceFrom buff (GoInt.sub 8 (len field));
        let m2 := copy d field m1 in
        v ← Uint64 buff m2;
        out' ← setField out fieldIdx (U64 v);
        Decode_loop rest (fieldIdx + 1) buff out' m2
      else
        out' ← setField out fieldIdx (Big (bigEndian (bytes field m)));
        Decode_loop rest (fieldIdx + 1) buff out' m
  end.

(** [Decode(data)]: the tag, the error and the store. *)
Definition Decode (btd : Decoder) (data : slice) (m : mem)
    : option (BitTag * option error * mem) :=
  if GoInt.mul (len data) 8 <? BitLength (decoderExploder btd) then
    Some (zeroBitTag,
          Some (ErrDataLength (GoInt.mul (len data) 8)
                              (BitLength (decoderExploder btd))), m)
  else
    r ← Explode (decoderExploder btd) data m;
    match r.1.2 with
    | Some e => Some (zeroBitTag, Some (ErrExplode e), r.2)
    | None =>
        a ← make 8 r.2;
        o ← Decode_loop r.1.1 0 a.1
               (replicate (Z.to_nat (Bitextract.NumFields
                                       (decoderExploder btd))) NilField)
               a.2;
        Some (mkBitTag (decoderPrefix btd) o.1, None, o.2)
    end.

(** The value [Decode] stores for a field of [w] bits. *)
Definition fieldOf (w v : Z) : fieldValue :=
  if (w + 7) / 8 <=? 8 then U64 v else Big v.

(** The fields of a tag, stated on bits. *)
Definition decodedTagFields (widths : list Z) (data : list Z)
    : list fieldValue :=
  imap (fun i w => fieldOf w (bitsValue data (fieldStart widths i) w)) widths.

(** The errors of [Fields] and [Field]. *)
Inductive uriError : Type :=
  | ErrPrefix (want : string)
  | ErrMissing (k : Z)
  | ErrInvalidField (i : Z)
  | ErrNotEnough (idx : Z).

(** [strings.HasPrefix(s, prefix)] *)
Fixpoint HasPrefix (s prefix : string) {struct prefix} : bool :=
  match prefix with
  | EmptyString => true
  | String.String p ps =>
      match s with
      | EmptyString => false
      | String.String c t => bool_decide (c = p) && HasPrefix t ps
      end
  end.

Fixpoint dropString (n : nat) (s : string) : string :=
  match n, s with
  | S n', String.String _ t => dropString n' t
  | _, _ => s
  end.

(** [s[i:]] on a string: panics when [i] is out of range. *)
Definition sliceFrom (s : string) (i : Z) : option string :=
  if (0 <=? i) && (i <=? Epc.strlen s)
  then Some (dropString (Z.to_nat i) s) else None.

(** [m := strings.Index(s, sep)] for a separator of one byte, as the two
    parts [s[:m]] and [s[m+1:]] the loop of [SplitN] goes on with. *)
Fixpoint cutSep (sep : Z) (s : string) : option (string * string) :=
  match s with
  | EmptyString => None
  | String.String c t =>
      if Epc.charCode c =? sep then Some (EmptyString, t)
      else match cutSep sep t with
           | Some (a, b) => Some (String.String c a, b)
           | None => None
           end
  end.

(** [strings.Count(s, sep)] for a separator of one byte. *)
Fixpoint Count (sep : Z) (s : string) : Z :=
  match s with
  | EmptyString => 0
  | String.String c t =>
      (if Epc.charCode c =? sep then 1 else 0) + Count sep t
  end.

(** The loop of [genSplit] with [k] cuts left to make. *)
Fixpoint genSplit_loop (sep : Z) (k : nat) (s : string) : list string :=
  match k with
  | O => [s]
  | S k' =>
      match cutSep sep s with
      | None => [s]
      | Some (a, b) => a :: genSplit_loop sep k' b
      end
  end.

(** [strings.SplitN(s, sep, n)] for a separator of one byte: nothing for
    [n = 0], every part for a negative [n], and at most [n] parts, the last
    one the unsplit rest, otherwise. *)
Definition SplitN (s : string) (sep : Z) (n : Z) : list string :=
  if n =? 0 then []
  else
    let n1 := if n <? 0 then Count sep s + 1 else n in
    let n2 := if n1 >? Epc.strlen s + 1 then Epc.strlen s + 1 else n1 in
    genSplit_loop sep (Z.to_nat (n2 - 1)) s.

Definition isDigitb (c : Z) : bool := (48 <=? c) && (c <=? 57).

(** [fieldsRegex.MatchString(s)]: the expression asks for one digit at the
    start of the text and then digits only, up to its end. *)
Definition fieldsRegex_MatchString (s : string) : bool :=
  match Epc.bytesOf s with
  | [] => false
  | c :: t => isDigitb c && forallb isDigitb t
  end.

(** The loop of [Fields] over the parts: the index of the first one the
    expression does not match. *)
Fixpoint firstInvalid (fs : list string) (i : Z) : option Z :=
  match fs with
  | [] => None
  | f :: rest =>
      if fieldsRegex_MatchString f then firstInvalid rest (i + 1)
      else Some i
  end.

(** [Fields(uri)]: the parts and the error. *)
Definition Fields (btd : Decoder) (uri : string)
    : option (list string * option uriError) :=
  if negb (HasPrefix uri (decoderPrefix btd +:+ ":")) then
    Some ([], Some (ErrPrefix (decoderPrefix btd)))
  else
    rest ← sliceFrom uri (GoInt.add (Epc.strlen (decoderPrefix btd)) 1);
    let parts :=
      SplitN rest 46 (Bitextract.NumFields (decoderExploder btd)) in
    if Z.of_nat (length parts) <? Bitextract.NumFields (decoderExploder btd)
    then Some ([], Some (ErrMissing
                 (GoInt.sub (Bitextract.NumFields (decoderExploder btd))
                            (Z.of_nat (length parts)))))
    else
      match firstInvalid parts 0 with
      | Some i => Some ([], Some (ErrInvalidField i))
      | None => Some (parts, None)
      end.

(** [Field(URI, idx)]: the test is [idx > len(fields)], so the index
    [len(fields)] reaches [fields[idx]]. *)
Definition Field (btd : Decoder) (uri : string) (idx : Z)
    : option (string * option uriError) :=
  r ← Fields btd uri;
  match r.2 with
  | Some e => Some (EmptyString, Some e)
  | None =>
      if idx >? Z.of_nat (length r.1)
      then Some (EmptyString, Some (ErrNotEnough idx))
      else f ← index r.1 idx; Some (f, None)
  end.

(** A field as [Fields] accepts it: not empty, and digits only. *)
Definition numeric (f : string) : Prop :=
  f <> EmptyString /\ Forall Epc.isDigit (Epc.bytesOf f).

(** A field that holds a number, as every field [Decode] sets does. *)
Definition valued (f : fieldValue) : Prop :=
  match f with
  | NilField => False
  | U64 v | Big v => 0 <= v
  end.

End Bittag.

(* ================================================================== *)
(** * Part II. Properties *)
(* ================================================================== *)

(** Linear arithmetic with the equations of the divisions in sight. *)
Ltac zdm :=
  unfold GoInt.in_range, GoInt.MinInt, GoInt.MaxInt in *;
  Z.to_euclidean_division_equations; lia.

(** ** Machine integers *)

Section GoIntFacts.
Import GoInt.

Lemma wrap_id z : in_range z -> wrap z = z.
Proof.
  unfold in_range, MinInt, MaxInt, wrap. intros H.
  rewrite Z.mod_small; lia.
Qed.

Lemma add_id a b : in_range (a + b) -> add a b = a + b.
Proof. apply wrap_id. Qed.

Lemma sub_id a b : in_range (a - b) -> sub a b = a - b.
Proof. apply wrap_id. Qed.

Lemma mul_id a b : in_range (a * b) -> mul a b = a * b.
Proof. apply wrap_id. Qed.

Lemma wrap_in_range z : in_range (wrap z).
Proof.
  unfold in_range, MinInt, MaxInt, wrap.
  pose proof (Z.mod_pos_bound (z + 2 ^ 63) (2 ^ 64) ltac:(lia)). lia.
Qed.

(** Wrapping changes a value by a multiple of [2^64], so it keeps its
    parity. *)
Lemma wrap_parity z : wrap z mod 2 = z mod 2.
Proof.
  unfold wrap.
  pose proof (Z.div_mod (z + 2 ^ 63) (2 ^ 64) ltac:(lia)) as H.
  replace ((z + 2 ^ 63) mod 2 ^ 64 - 2 ^ 63)
    with (z + (- (2 ^ 63 * ((z + 2 ^ 63) / 2 ^ 64))) * 2) by lia.
  apply Z.mod_add. lia.
Qed.

End GoIntFacts.

(** ** SetBounds *)

Section SetBoundsFacts.
Import GoInt Mem Bitextract.

Lemma pow2_small k : 0 <= k < 8 -> 1 <= 2 ^ k <= 128.
Proof.
  intros H.
  assert (k = 0 \/ k = 1 \/ k = 2 \/ k = 3 \/ k = 4 \/ k = 5 \/ k = 6 \/ k = 7)
    as Hk by lia.
  destruct Hk as [->|[->|[->|[->|[->|[->|[->| ->]]]]]]]; cbn; lia.
Qed.

Lemma SetBounds_built be start len :
  valid_bounds start len ->
  SetBounds be start len = Some (builtExtractor start len).
Proof.
  intros (Hs & Hl & Hsum). unfold MaxInt in Hsum.
  unfold SetBounds.
  destruct (Z.ltb_spec start 0); [lia|].
  destruct (Z.ltb_spec len 1); [lia|]. cbn [orb].
  rewrite (add_id start len) by (unfold in_range, MinInt, MaxInt; lia).
  destruct (Z.ltb_spec (start + len) 0); [lia|].
  unfold ifAligned, ByteMask, ByteSize.
  rewrite (sub_id (start + len) 1) by zdm.
  rewrite !Z.quot_div_nonneg, !Z.rem_mod_nonneg by lia.
  remember ((start + len - 1) mod 8) as e eqn:Ee.
  assert (He : 0 <= e < 8) by (subst e; apply Z.mod_pos_bound; lia).
  assert (Hsrc : add (sub (sub ((start + len) / 8)
                     (if (start + len) mod 8 =? 0 then 1 else 0))
                     (start / 8)) 1
                 = (start + len - 1) / 8 - start / 8 + 1).
  { destruct (Z.eqb_spec ((start + len) mod 8) 0).
    - rewrite (sub_id ((start + len) / 8) 1) by zdm.
      rewrite (sub_id _ (start / 8)) by zdm.
      rewrite add_id by zdm. zdm.
    - rewrite (sub_id ((start + len) / 8) 0) by zdm.
      rewrite (sub_id _ (start / 8)) by zdm.
      rewrite add_id by zdm. zdm. }
  assert (Hdst : add (len / 8) (if len mod 8 =? 0 then 0 else 1)
                 = (len + 7) / 8).
  { destruct (Z.eqb_spec (len mod 8) 0); rewrite add_id; zdm. }
  assert (Hr : uint8 (sub (sub 8 e) 1) = 7 - e).
  { rewrite (sub_id 8 e) by zdm. rewrite sub_id by zdm.
    unfold uint8. rewrite Z.mod_small; lia. }
  assert (Hl' : uint8 (add e 1) = e + 1).
  { rewrite add_id by zdm. unfold uint8. rewrite Z.mod_small; lia. }
  assert (Hm : uint8 (if len mod 8 =? 0 then Z.shiftl 1 8 - 1
                      else sub (shl 1 (len mod 8)) 1)
               = if len mod 8 =? 0 then 255 else 2 ^ (len mod 8) - 1).
  { destruct (Z.eqb_spec (len mod 8) 0); [reflexivity|].
    assert (0 <= len mod 8 < 8) as Hk by (apply Z.mod_pos_bound; lia).
    pose proof (pow2_small _ Hk).
    unfold shl. rewrite Z.shiftl_1_l.
    rewrite wrap_id by (unfold in_range, MinInt, MaxInt; lia).
    rewrite sub_id by (unfold in_range, MinInt, MaxInt; lia).
    unfold uint8. rewrite Z.mod_small; lia. }
  rewrite Hsrc, Hdst, Hr, Hl', Hm.
  unfold builtExtractor. rewrite <- Ee.
  replace (7 - e =? 0) with (e =? 7)
    by (destruct (Z.eqb_spec e 7), (Z.eqb_spec (7 - e) 0); lia).
  reflexivity.
Qed.

Lemma New_built start len :
  valid_bounds start len -> New start len = Some (builtExtractor start len).
Proof. apply SetBounds_built. Qed.

(** A sum of two non-negative ints that is still non-negative after
    wrapping did not overflow. *)
Lemma add_nonneg_exact a b :
  in_range a -> in_range b -> 0 <= a -> 0 <= b -> 0 <= add a b ->
  a + b <= MaxInt.
Proof.
  unfold add, wrap, in_range, MinInt, MaxInt. intros Ha Hb Ha0 Hb0 Hsum.
  destruct (Z_le_gt_dec (a + b) (2 ^ 63 - 1)) as [|Hgt]; [assumption|].
  exfalso.
  replace (a + b + 2 ^ 63) with (a + b - 2 ^ 63 + 1 * 2 ^ 64) in Hsum by lia.
  rewrite Z.mod_add, Z.mod_small in Hsum by lia. lia.
Qed.

Lemma New_inv start len be :
  in_range start -> in_range len ->
  New start len = Some be ->
  valid_bounds start len /\ be = builtExtractor start len.
Proof.
  intros Hrs Hrl H. assert (valid_bounds start len) as Hv.
  { assert (0 <= start /\ 1 <= len /\ 0 <= add start len) as (H1 & H2 & H3).
    { unfold New, SetBounds in H.
      destruct (Z.ltb_spec start 0); [discriminate|].
      destruct (Z.ltb_spec len 1); [discriminate|]. cbn [orb] in H.
      destruct (Z.ltb_spec (add start len) 0); [discriminate|]. lia. }
    clear H. split; [assumption|]. split; [assumption|].
    apply add_nonneg_exact; assumption || lia. }
  split; [assumption|]. rewrite New_built in H by assumption. congruence.
Qed.

End SetBoundsFacts.

(** ** The store, the loops and ExtractTo *)

Section StoreFacts.
Import GoInt Mem Bitextract.


Lemma store_valid s i v m :
  valid s m -> 0 <= i < len s -> store s i v m = Some (<[addr s i := v]> m).
Proof.
  intros [Hl Hc] Hi. unfold store.
  destruct (Z.leb_spec 0 i); [|lia]. destruct (Z.ltb_spec i (len s)); [|lia].
  destruct (Z.ltb_spec (Z.of_nat (addr s i)) (Z.of_nat (length m))); [done|].
  unfold addr in *. lia.
Qed.

Lemma valid_same_length s m m' :
  length m' = length m -> valid s m -> valid s m'.
Proof. unfold valid. intros ->. done. Qed.

Lemma forRange_inv {A : Type} (P : Z -> A -> Prop) n i body (m : A) :
  P i m ->
  (forall j mj, i <= j < i + Z.of_nat n -> P j mj ->
     exists m', body j mj = Some m' /\ P (j + 1) m') ->
  exists m', forRange n i body m = Some m' /\ P (i + Z.of_nat n) m'.
Proof.
  revert i m. induction n as [|n IH]; intros i m HP Hbody.
  - exists m. split; [done|]. by replace (i + Z.of_nat 0) with i by lia.
  - destruct (Hbody i m ltac:(lia) HP) as (m1 & Hb & HP1).
    destruct (IH (i + 1) m1 HP1) as (m' & Hr & HP').
    { intros j mj Hj. apply Hbody. lia. }
    exists m'. split.
    + cbn. rewrite Hb. cbn. done.
    + by replace (i + Z.of_nat (S n)) with (i + 1 + Z.of_nat n) by lia.
Qed.


Lemma lookup_default_total (m : mem) a :
  (a < length m)%nat -> m !! a = Some (default 0 (m !! a)).
Proof.
  intros H. destruct (lookup_lt_is_Some_2 m a H) as [x ->]. done.
Qed.

Lemma load_valid s i m :
  valid s m -> 0 <= i < len s -> load s i m = Some (default 0 (m !! addr s i)).
Proof.
  intros [Hl Hc] Hi. unfold load.
  destruct (Z.leb_spec 0 i); [|lia]. destruct (Z.ltb_spec i (len s)); [|lia].
  cbn [andb]. apply lookup_default_total. unfold addr. lia.
Qed.

Lemma blend_loop_spec dest src c1 c2 f n i0 m :
  valid dest m -> valid src m ->
  0 <= i0 -> i0 + Z.of_nat n <= len dest ->
  (forall i, i0 <= i < i0 + Z.of_nat n ->
     0 <= i + c1 < len src /\ 0 <= i + c2 < len src) ->
  exists m',
    forRange n i0 (blend_body dest src c1 c2 f) m = Some m' /\
    length m' = length m /\
    (forall a : nat,
       (a < addr dest i0 \/ addr dest (i0 + Z.of_nat n) <= a)%nat ->
       m' !! a = m !! a) /\
    ((forall i j, i0 <= i < i0 + Z.of_nat n -> i0 <= j < i0 + Z.of_nat n ->
        addr dest i <> addr src (j + c1) /\ addr dest i <> addr src (j + c2)) ->
     forall i, i0 <= i < i0 + Z.of_nat n ->
       m' !! addr dest i =
       Some (f (default 0 (m !! addr src (i + c1)))
               (default 0 (m !! addr src (i + c2))))).
Proof.
  intros Hd Hs Hi0 Hn Hidx.
  pose (P := fun (j : Z) (mj : mem) =>
    length mj = length m /\
    (forall a : nat, (a < addr dest i0 \/ addr dest j <= a)%nat ->
       mj !! a = m !! a) /\
    ((forall i j, i0 <= i < i0 + Z.of_nat n -> i0 <= j < i0 + Z.of_nat n ->
        addr dest i <> addr src (j + c1) /\ addr dest i <> addr src (j + c2)) ->
     forall i, i0 <= i < j ->
       mj !! addr dest i =
       Some (f (default 0 (m !! addr src (i + c1)))
               (default 0 (m !! addr src (i + c2)))))).
  destruct (forRange_inv P n i0 (blend_body dest src c1 c2 f) m)
    as (m' & Hr & HP).
  - split; [done|]. split; [done|]. intros _ i Hi. lia.
  - intros j mj Hj (Hlen & Hout & Hin).
    assert (valid dest mj) as Hdj by (by apply (valid_same_length _ m)).
    assert (valid src mj) as Hsj by (by apply (valid_same_length _ m)).
    destruct (Hidx j Hj) as [H1 H2].
    unfold blend_body.
    rewrite (load_valid src (j + c1) mj), (load_valid src (j + c2) mj) by done.
    cbn. rewrite store_valid by (done || lia).
    eexists. split; [done|]. repeat split.
    + by rewrite length_insert.
    + intros a Ha. rewrite list_lookup_insert_ne by (unfold addr in *; lia).
      apply Hout. unfold addr in *. lia.
    + intros Hdis i Hi.
      destruct (Z.eq_dec i j) as [->|Hne].
      * rewrite list_lookup_insert_eq
          by (rewrite Hlen; destruct Hd; unfold addr; lia).
        destruct (Hdis j j Hj Hj) as [Hd1 Hd2].
        assert (forall c, 0 <= j + c < len src ->
                  addr dest j <> addr src (j + c) ->
                  (forall i, i0 <= i < i0 + Z.of_nat n ->
                     addr dest i <> addr src (j + c)) ->
                  mj !! addr src (j + c) = m !! addr src (j + c)) as Hsame.
        { intros c Hc Hne Hall. apply Hout.
          destruct (Nat.lt_ge_cases (addr src (j + c)) (addr dest i0)); [lia|].
          destruct (Nat.lt_ge_cases (addr src (j + c)) (addr dest j)); [|lia].
          exfalso.
          apply (Hall (Z.of_nat (addr src (j + c)) - Z.of_nat (base dest)));
            unfold addr in *; lia. }
        rewrite (Hsame c1), (Hsame c2); try done.
        -- intros i Hi'. by destruct (Hdis i j Hi' Hj).
        -- intros i Hi'. by destruct (Hdis i j Hi' Hj).
      * rewrite list_lookup_insert_ne by (unfold addr in *; lia).
        apply Hin; [done | lia].
  - exists m'. split; [done|]. destruct HP as (Hlen & Hout & Hin).
    repeat split; [done| |]; intros; [apply Hout | apply Hin]; done || lia.
Qed.


Lemma forRange_ext {A : Type} n i (body1 body2 : Z -> A -> option A) m :
  (forall j mj, body1 j mj = body2 j mj) ->
  forRange n i body1 m = forRange n i body2 m.
Proof.
  intros H. revert i m. induction n as [|n IH]; intros i m; [done|].
  cbn. rewrite H. destruct (body2 i m); cbn; [apply IH | done].
Qed.

Lemma nthByte_bytes s m k :
  valid s m -> 0 <= k < len s ->
  nthByte (bytes s m) k = default 0 (m !! addr s k).
Proof.
  intros [Hl Hc] Hk. unfold nthByte, bytes, addr.
  rewrite lookup_take_lt by lia. by rewrite lookup_drop.
Qed.


Lemma mask_step dest m1 mk :
  valid dest m1 -> 1 <= len dest ->
  (x ← load dest 0 m1; store dest 0 (Z.land x mk) m1) =
  Some (<[base dest := Z.land (default 0 (m1 !! base dest)) mk]> m1).
Proof.
  intros Hd Hl. rewrite load_valid by (done || lia). cbn.
  rewrite store_valid by (done || lia). unfold addr. cbn.
  by rewrite Nat.add_0_r.
Qed.

Lemma ExtractTo_spec be dest src m :
  wf_extractor be -> valid dest m -> valid src m ->
  srcLen be + byteStart be <= len src -> dstLen be <= len dest ->
  exists m',
    ExtractTo be dest src m = Some m' /\
    length m' = length m /\
    (forall a : nat,
       (a < base dest \/ base dest + Z.to_nat (dstLen be) <= a)%nat ->
       m' !! a = m !! a) /\
    (writesApartFromReads be dest src ->
     forall i, 0 <= i < dstLen be ->
       m' !! addr dest i = Some (fieldByte be (bytes src m) i)).
Proof.
  intros (Hbs & Hdl & Hr & Hrng & Hbias) Hd Hs Hsrc Hdst.
  unfold ExtractTo. rewrite add_id by done.
  destruct (Z.ltb_spec (len src) (srcLen be + byteStart be)); [lia|].
  destruct (Z.ltb_spec (len dest) (dstLen be)); [lia|].
  destruct Hbias as [[Hb Hsl]|[[Hb Hsl]|[Hb Hsl]]]; rewrite Hb;
    unfold srcAligned, srcBiasPrev, srcBiasNext; cbn [Z.eqb Pos.eqb].
  - (* aligned *)
    unfold reslice.
    destruct (Z.leb_spec 0 (byteStart be)); [|lia].
    destruct (Z.leb_spec (byteStart be) (byteStart be + dstLen be)); [|lia].
    destruct (Z.leb_spec (byteStart be + dstLen be) (cap src));
      [|destruct Hs; lia].
    cbn [andb mbind option_bind]. unfold copy. cbn [len base].
    replace (byteStart be + dstLen be - byteStart be) with (dstLen be) by lia.
    rewrite Z.min_r by lia.
    set (k := take (Z.to_nat (dstLen be)) (drop (addr src (byteStart be)) m)).
    assert (length k = Z.to_nat (dstLen be)) as Hk.
    { unfold k. rewrite length_take, length_drop. destruct Hs.
      unfold addr. lia. }
    set (m1 := list_inserts (base dest) k m).
    assert (length m1 = length m) as Hm1 by apply length_inserts.
    rewrite mask_step by (by apply (valid_same_length _ m) || lia).
    eexists. split; [done|]. split; [by rewrite length_insert|]. split.
    + intros a Ha. rewrite list_lookup_insert_ne by lia.
      unfold m1. destruct Ha.
      * by apply list_lookup_inserts_lt.
      * apply list_lookup_inserts_ge. lia.
    + intros _ i Hi.
      assert (forall j, 0 <= j < dstLen be ->
                m1 !! addr dest j = m !! addr src (byteStart be + j)) as Hm1j.
      { intros j Hj. unfold m1. rewrite list_lookup_inserts
          by (destruct Hd; unfold addr; lia).
        unfold k. rewrite lookup_take_lt by (unfold addr; lia).
        rewrite lookup_drop. f_equal. unfold addr. lia. }
      unfold fieldByte, rawByte. rewrite Hb.
      unfold srcAligned, srcBiasPrev, srcBiasNext; cbn [Z.eqb Pos.eqb].
      destruct (Z.eqb_spec i 0) as [->|Hne].
      * unfold addr at 1. cbn. rewrite Nat.add_0_r.
        rewrite list_lookup_insert_eq by (rewrite Hm1; destruct Hd; lia).
        replace (base dest) with (addr dest 0) by (unfold addr; cbn; lia).
        rewrite (Hm1j 0) by lia.
        rewrite nthByte_bytes by (done || lia). done.
      * rewrite list_lookup_insert_ne by (unfold addr; lia).
        rewrite Hm1j by done.
        rewrite nthByte_bytes by (done || lia).
        apply lookup_default_total. destruct Hs. unfold addr. lia.
  - (* biased to the previous byte *)
    rewrite load_valid by (done || lia). cbn [mbind option_bind].
    rewrite store_valid by (done || lia).
    cbn [mbind option_bind].
    set (x := default 0 (m !! addr src (byteStart be))).
    set (m0 := <[addr dest 0 := shr8 x (rshift be)]> m).
    assert (length m0 = length m) as Hm0 by apply length_insert.
    rewrite (forRange_ext _ _ _
               (blend_body dest src (byteStart be - 1) (byteStart be)
                  (blend be))).
    2:{ intros j mj. unfold blend_body, blend, uint8, ByteSize.
        rewrite (Z.mod_small (8 - rshift be)) by lia.
        by replace (j + byteStart be - 1) with (j + (byteStart be - 1))
          by lia. }
    destruct (blend_loop_spec dest src (byteStart be - 1) (byteStart be)
                (blend be) (Z.to_nat (dstLen be - 1)) 1 m0)
      as (m1 & Hloop & Hm1 & Hout & Hin);
      [by apply (valid_same_length _ m) | by apply (valid_same_length _ m)
      | lia | lia | intros; lia |].
    rewrite Hloop. cbn [mbind option_bind].
    rewrite mask_step
      by first [apply (valid_same_length _ m); [lia | done] | lia].
    assert (m1 !! base dest = Some (shr8 x (rshift be))) as Hhead.
    { rewrite Hout by (unfold addr; lia). unfold m0, addr. cbn.
      rewrite Nat.add_0_r. apply list_lookup_insert_eq. destruct Hd. lia. }
    eexists. split; [done|]. split; [rewrite length_insert; lia|]. split.
    + intros a Ha. rewrite list_lookup_insert_ne by lia.
      rewrite Hout by (unfold addr; lia).
      unfold m0. apply list_lookup_insert_ne. unfold addr. lia.
    + intros Hdis i Hi. unfold writesApartFromReads in Hdis.
      unfold fieldByte, rawByte. rewrite Hb.
      unfold srcAligned, srcBiasPrev, srcBiasNext; cbn [Z.eqb Pos.eqb].
      destruct (Z.eqb_spec i 0) as [->|Hne].
      * unfold addr at 1. cbn. rewrite Nat.add_0_r.
        rewrite list_lookup_insert_eq by (destruct Hd; lia).
        rewrite Hhead. cbn.
        rewrite nthByte_bytes by (done || lia). done.
      * rewrite list_lookup_insert_ne by (unfold addr; lia).
        rewrite Hin; [| intros; unfold addr; lia | lia].
        rewrite !nthByte_bytes by (done || lia).
        unfold m0.
        rewrite !list_lookup_insert_ne by (unfold addr; lia).
        by replace (i + byteStart be - 1) with (i + (byteStart be - 1)) by lia.
  - (* biased to the next byte *)
    rewrite (forRange_ext _ _ _
               (blend_body dest src (byteStart be) (byteStart be + 1)
                  (blend be))).
    2:{ intros j mj. unfold blend_body, blend, uint8, ByteSize.
        rewrite (Z.mod_small (8 - rshift be)) by lia.
        by replace (j + byteStart be + 1) with (j + (byteStart be + 1))
          by lia. }
    destruct (blend_loop_spec dest src (byteStart be) (byteStart be + 1)
                (blend be) (Z.to_nat (dstLen be)) 0 m)
      as (m1 & Hloop & Hm1 & Hout & Hin);
      [done | done | lia | lia | intros; lia |].
    rewrite Hloop. cbn [mbind option_bind].
    rewrite mask_step
      by first [apply (valid_same_length _ m); [lia | done] | lia].
    eexists. split; [done|]. split; [rewrite length_insert; lia|]. split.
    + intros a Ha. rewrite list_lookup_insert_ne by lia.
      apply Hout. unfold addr. lia.
    + intros Hdis i Hi. unfold writesApartFromReads in Hdis.
      unfold fieldByte, rawByte. rewrite Hb.
      unfold srcAligned, srcBiasPrev, srcBiasNext; cbn [Z.eqb Pos.eqb].
      assert (m1 !! addr dest i =
              Some (blend be (nthByte (bytes src m) (i + byteStart be))
                             (nthByte (bytes src m) (i + byteStart be + 1))))
        as Hi1.
      { rewrite Hin; [| intros; unfold addr; lia | lia].
        rewrite !nthByte_bytes by (done || lia).
        by replace (i + byteStart be + 1) with (i + (byteStart be + 1))
          by lia. }
      destruct (Z.eqb_spec i 0) as [->|Hne].
      * unfold addr at 1. cbn. rewrite Nat.add_0_r.
        rewrite list_lookup_insert_eq by (destruct Hd; lia).
        replace (base dest) with (addr dest 0) by (unfold addr; cbn; lia).
        by rewrite Hi1.
      * rewrite list_lookup_insert_ne by (unfold addr; lia). done.
Qed.


End StoreFacts.

(** ** Extractors built by New: bounds and frame *)

Section ExtractorFacts.
Import GoInt Mem Bitextract.


Lemma built_wf start len :
  valid_bounds start len -> wf_extractor (builtExtractor start len).
Proof.
  intros (Hs & Hl & Hsum). unfold MaxInt in Hsum.
  unfold wf_extractor, builtExtractor. cbn.
  remember ((start + len - 1) mod 8) as e eqn:Ee.
  assert (0 <= e < 8) as He by (subst e; apply Z.mod_pos_bound; lia).
  split; [zdm|]. split; [zdm|]. split; [lia|]. split; [zdm|].
  destruct (Z.eqb_spec e 7) as [E7|E7].
  - left. split; [done|]. zdm.
  - destruct (Z.eqb_spec ((start + len - 1) / 8 - start / 8 + 1)
                         ((len + 7) / 8)).
    + right; left. done.
    + right; right. split; [done|]. zdm.
Qed.

Lemma New_wf start len be :
  in_range start -> in_range len -> New start len = Some be -> wf_extractor be.
Proof.
  intros Hs Hl H. destruct (New_inv _ _ _ Hs Hl H) as [Hv ->].
  by apply built_wf.
Qed.


Lemma bytes_unchanged s (m m' : mem) :
  (forall a : nat, (base s <= a < base s + Z.to_nat (len s))%nat ->
     m' !! a = m !! a) ->
  bytes s m' = bytes s m.
Proof.
  intros H. apply list_eq. intros i. unfold bytes.
  destruct (decide (i < Z.to_nat (len s))%nat).
  - rewrite !lookup_take_lt, !lookup_drop by done. apply H. lia.
  - rewrite !lookup_take_ge by lia. done.
Qed.

(** C6 (amended). For every start >= 0 and length >= 1 such that
    start+length+8 does not overflow, [New start length] and
    [New start (length+8)] both build an extractor; the second has a
    destination byte length one greater than the first and the same
    byteStart, rshift, lshift and mask. *)
Theorem SetBounds_length_plus_8 start width :
  0 <= start -> 1 <= width -> start + width + 8 <= MaxInt ->
  exists be be2,
    New start width = Some be /\
    New start (GoInt.add width 8) = Some be2 /\
    ByteLength be2 = ByteLength be + 1 /\
    byteStart be2 = byteStart be /\
    rshift be2 = rshift be /\
    lshift be2 = lshift be /\
    mask be2 = mask be.
Proof.
  intros Hs Hl Hsum. unfold MaxInt in Hsum.
  exists (builtExtractor start width), (builtExtractor start (width + 8)).
  rewrite add_id by zdm.
  rewrite !New_built by (unfold valid_bounds, MaxInt; lia).
  split; [done|]. split; [done|].
  unfold ByteLength, builtExtractor. cbn.
  replace (start + (width + 8) - 1) with (start + width - 1 + 1 * 8) by lia.
  replace (width + 8 + 7) with (width + 7 + 1 * 8) by lia.
  replace ((width + 8) mod 8) with (width mod 8)
    by (replace (width + 8) with (width + 1 * 8) by lia;
        by rewrite Z.mod_add by lia).
  rewrite Z.mod_add, Z.div_add by lia. done.
Qed.

Lemma SetBounds_length_plus_8_witness :
  exists be be2,
    New 3 10 = Some be /\ New 3 (GoInt.add 10 8) = Some be2 /\
    ByteLength be2 = ByteLength be + 1 /\
    byteStart be2 = byteStart be /\ rshift be2 = rshift be /\
    lshift be2 = lshift be /\ mask be2 = mask be.
Proof.
  apply (SetBounds_length_plus_8 3 10); unfold MaxInt; lia.
Defined.

(** C6, as stated, fails: start = 2^63-9 and length = 1 are accepted and
    start+length does not overflow, but [New start (length+8)] panics, because
    start+length+8 overflows. *)
Lemma SetBounds_length_plus_8_overflow :
  let start := 2 ^ 63 - 9 in
  let width := 1 in
  0 <= start /\ 1 <= width /\ start + width <= MaxInt /\
  is_Some (New start width) /\
  New start (GoInt.add width 8) = None.
Proof.
  cbv zeta. repeat split; try (unfold MaxInt; lia).
  - vm_compute. eauto.
Qed.

(** C10 (amended). For an extractor built by [New] and buffers that satisfy
    the preconditions of [ExtractTo], the call succeeds and writes only the
    first ByteLength() bytes of dest: every other byte of the store keeps its
    value, so the bytes of dest at index >= ByteLength() are unchanged, and
    src is unchanged when it does not overlap the first ByteLength() bytes of
    dest. *)
Theorem ExtractTo_frame start width be dest src m :
  in_range start -> in_range width -> New start width = Some be ->
  valid dest m -> valid src m ->
  srcLen be + byteStart be <= len src -> ByteLength be <= len dest ->
  exists m',
    ExtractTo be dest src m = Some m' /\
    length m' = length m /\
    (forall a : nat,
       (a < base dest \/ base dest + Z.to_nat (ByteLength be) <= a)%nat ->
       m' !! a = m !! a) /\
    (forall i, ByteLength be <= i < len dest ->
       m' !! addr dest i = m !! addr dest i) /\
    (Z.of_nat (base dest) + ByteLength be <= Z.of_nat (base src) \/
     Z.of_nat (base src) + len src <= Z.of_nat (base dest) ->
     bytes src m' = bytes src m).
Proof.
  intros Hs Hl Hnew Hd Hsv Hsrc Hdst.
  pose proof (New_wf _ _ _ Hs Hl Hnew) as Hwf.
  destruct (ExtractTo_spec be dest src m Hwf Hd Hsv Hsrc Hdst)
    as (m' & Hex & Hlen & Hout & _).
  destruct Hwf as (_ & Hdl & _).
  exists m'. unfold ByteLength in *. repeat split; try done.
  - intros i Hi. apply Hout. unfold addr. lia.
  - intros Hdis. apply bytes_unchanged. intros a Ha. apply Hout.
    destruct Hsv. lia.
Qed.

Lemma ExtractTo_frame_witness :
  let be := builtExtractor 4 4 in
  let dest := Slice 0 1 1 in
  let src := Slice 1 1 1 in
  let m := [0; 255] in
  exists m',
    ExtractTo be dest src m = Some m' /\
    length m' = length m /\
    (forall a : nat,
       (a < base dest \/ base dest + Z.to_nat (ByteLength be) <= a)%nat ->
       m' !! a = m !! a) /\
    (forall i, ByteLength be <= i < len dest ->
       m' !! addr dest i = m !! addr dest i) /\
    (Z.of_nat (base dest) + ByteLength be <= Z.of_nat (base src) \/
     Z.of_nat (base src) + len src <= Z.of_nat (base dest) ->
     bytes src m' = bytes src m).
Proof.
  cbv zeta. apply (ExtractTo_frame 4 4).
  - unfold in_range, MinInt, MaxInt; lia.
  - unfold in_range, MinInt, MaxInt; lia.
  - reflexivity.
  - unfold valid; cbn; lia.
  - unfold valid; cbn; lia.
  - by vm_compute.
  - by vm_compute.
Defined.

(** C10, as stated, fails in two ways. When src and dest are the same
    buffer, the extractor for bits 4..7 masks the byte in place, so src is
    changed. And the zero value [BitExtractor{}], whose bias is none of the
    three cases and whose mask is 0, passes both precondition checks with
    ByteLength() = 0, and [dest[0] &= mask] then clears dest[0], a byte at
    an index >= ByteLength(), with a src apart from dest; on an empty dest
    the same statement panics. *)
Lemma ExtractTo_frame_fails :
  (exists be m',
     New 4 4 = Some be /\
     let m := [255] in
     let buf := Slice 0 1 1 in
     valid buf m /\
     srcLen be + byteStart be <= len buf /\ ByteLength be <= len buf /\
     ExtractTo be buf buf m = Some m' /\
     bytes buf m' <> bytes buf m) /\
  (let be := zeroBitExtractor in
   let m := [255; 7; 1] in
   let dest := Slice 0 2 2 in
   let src := Slice 2 1 1 in
   valid dest m /\ valid src m /\ apart dest src /\
   srcLen be + byteStart be <= len src /\ ByteLength be <= len dest /\
   ByteLength be = 0 /\
   ExtractTo be dest src m = Some [0; 7; 1] /\
   [0; 7; 1] !! addr dest 0 <> m !! addr dest 0) /\
  (let be := zeroBitExtractor in
   let m := [1] in
   let dest := Slice 0 0 0 in
   let src := Slice 0 1 1 in
   valid dest m /\ valid src m /\
   srcLen be + byteStart be <= len src /\ ByteLength be <= len dest /\
   ExtractTo be dest src m = None).
Proof.
  split; [|split].
  - exists (builtExtractor 4 4), [15]. split; [reflexivity|]. cbv zeta.
    split; [unfold valid; cbn; lia|].
    split; [by vm_compute|]. split; [by vm_compute|].
    split; [reflexivity|]. by vm_compute.
  - cbv zeta. split; [unfold valid; cbn; lia|].
    split; [unfold valid; cbn; lia|]. split; [unfold apart; cbn; lia|].
    split; [by vm_compute|]. split; [by vm_compute|].
    split; [reflexivity|]. split; [vm_compute; reflexivity|]. by vm_compute.
  - cbv zeta. split; [unfold valid; cbn; lia|].
    split; [unfold valid; cbn; lia|].
    split; [by vm_compute|]. split; [by vm_compute|].
    vm_compute; reflexivity.
Qed.

End ExtractorFacts.

(** ** BitExploder and BitReader *)

Section ReaderFacts.
Import GoInt Mem Bitextract.


Lemma SetWidths_loop_fields widths : forall i e e',
  Forall in_range widths ->
  0 <= i -> 0 <= bitLength e -> in_range (bitLength e) ->
  (Z.to_nat i + length widths = length (extractors e))%nat ->
  (forall j ex, (j < Z.to_nat i)%nat -> extractors e !! j = Some ex ->
     field_ok (bitLength e) ex) ->
  i <= bitLength e ->
  SetWidths_loop i widths e = Some (e', None) ->
  (forall j ex, extractors e' !! j = Some ex -> field_ok (bitLength e') ex) /\
  NumFields e' <= bitLength e' <= MaxInt.
Proof.
  induction widths as [|w rest IH];
    intros i e e' Hall Hi Hb Hbr Hlen Hpre Hcnt Hrun.
  - cbn in Hrun. injection Hrun as <-. cbn in Hlen. split.
    + intros j ex Hj. apply (Hpre j); [|done].
      apply lookup_lt_Some in Hj. lia.
    + unfold NumFields, in_range in *. lia.
  - change (length (w :: rest)) with (S (length rest)) in Hlen.
    cbn in Hrun. destruct (Z.leb_spec w 0); [discriminate|].
    destruct (New (bitLength e) w) as [be|] eqn:Hnew; [|discriminate].
    cbn in Hrun. inversion Hall as [|? ? Hw Hrest]; subst.
    destruct (New_inv _ _ _ Hbr Hw Hnew) as [Hv ->].
    pose proof Hv as (_ & _ & Hsum).
    rewrite add_id in Hrun by (unfold in_range, MinInt, MaxInt in *; lia).
    refine (IH (i + 1) _ e' Hrest _ _ _ _ _ _ Hrun); [| | | | |cbn; lia].
    + lia.
    + cbn. lia.
    + cbn. unfold in_range, MinInt, MaxInt in *. lia.
    + cbn. rewrite length_insert. lia.
    + cbn. intros j ex Hj Hex.
      destruct (decide (j = Z.to_nat i)) as [->|Hne].
      * rewrite list_lookup_insert_eq in Hex by lia.
        injection Hex as <-. exists (bitLength e), w.
        split; [done|]. split; [done|]. cbn. lia.
      * rewrite list_lookup_insert_ne in Hex by done.
        destruct (Hpre j ex ltac:(lia) Hex) as (s & w' & -> & Hv' & Hle).
        exists s, w'. split; [done|]. split; [done|]. cbn. lia.
Qed.

Lemma NewBitExploder_fields widths e :
  Forall in_range widths ->
  NewBitExploder widths = Some (e, None) ->
  (forall j ex, extractors e !! j = Some ex -> field_ok (bitLength e) ex) /\
  NumFields e <= bitLength e <= MaxInt.
Proof.
  intros Hall Hnew. unfold NewBitExploder, SetWidths in Hnew.
  destruct (Z.eqb_spec (Z.of_nat (length widths)) 0); [discriminate|].
  refine (SetWidths_loop_fields widths 0 _ e Hall _ _ _ _ _ _ Hnew);
    [| | | | |cbn; lia].
  - lia.
  - cbn. lia.
  - cbn. unfold in_range, MinInt, MaxInt. lia.
  - cbn. rewrite length_replicate. lia.
  - intros j ex Hj. lia.
Qed.

Lemma field_ok_fits bl ex n :
  field_ok bl ex -> bl <= n * 8 -> srcLen ex + byteStart ex <= n.
Proof.
  intros (s & w & -> & (Hs & Hw & Hsum) & Hle) Hn. cbn. zdm.
Qed.

Lemma zero_fill p n (m : mem) :
  valid p m -> Z.of_nat n <= len p ->
  exists m1,
    forRange n 0 (fun i mi => store p i 0 mi) m = Some m1 /\
    length m1 = length m /\
    (forall i, 0 <= i < Z.of_nat n -> m1 !! addr p i = Some 0) /\
    (forall a : nat, (a < base p \/ base p + n <= a)%nat -> m1 !! a = m !! a).
Proof.
  intros Hp Hn.
  pose (P := fun (j : Z) (mj : mem) =>
    length mj = length m /\
    (forall i, 0 <= i < j -> mj !! addr p i = Some 0) /\
    (forall a : nat, (a < base p \/ addr p j <= a)%nat -> mj !! a = m !! a)).
  destruct (forRange_inv P n 0 (fun i mi => store p i 0 mi) m)
    as (m1 & Hr & Hlen & Hz & Hout).
  - split; [done|]. split; [intros; lia | done].
  - intros j mj Hj (Hlen & Hz & Hout).
    rewrite store_valid by (by apply (valid_same_length _ m) || lia).
    eexists. split; [done|]. split; [by rewrite length_insert|]. split.
    + intros i Hi. destruct (Z.eq_dec i j) as [->|Hne].
      * apply list_lookup_insert_eq. destruct Hp. unfold addr. lia.
      * rewrite list_lookup_insert_ne by (unfold addr; lia). apply Hz. lia.
    + intros a Ha. rewrite list_lookup_insert_ne by (unfold addr in *; lia).
      apply Hout. unfold addr in *. lia.
  - exists m1. split; [done|]. split; [done|]. split.
    + intros i Hi. apply Hz. lia.
    + intros a Ha. apply Hout. unfold addr. lia.
Qed.


(** A destination byte is a function of the source bytes the extractor
    reads, [src[byteStart : byteStart+srcLen]]. *)
Lemma fieldByte_ext ex (s1 s2 : list Z) i :
  wf_extractor ex -> 0 <= i < dstLen ex ->
  (forall j, byteStart ex <= j < byteStart ex + srcLen ex ->
     nthByte s1 j = nthByte s2 j) ->
  fieldByte ex s1 i = fieldByte ex s2 i.
Proof.
  intros (Hbs & Hdl & _ & _ & Hbias) Hi Hagree.
  assert (forall k, 0 <= k < dstLen ex -> rawByte ex s1 k = rawByte ex s2 k)
    as Hraw.
  { intros k Hk. unfold rawByte. cbv zeta.
    destruct Hbias as [[Hb Hsl]|[[Hb Hsl]|[Hb Hsl]]]; rewrite Hb;
      unfold srcAligned, srcBiasPrev, srcBiasNext; cbn [Z.eqb Pos.eqb].
    - apply Hagree. lia.
    - destruct (Z.eqb_spec k 0) as [->|Hk0].
      + rewrite (Hagree (byteStart ex)) by lia. done.
      + rewrite (Hagree (k + byteStart ex - 1)), (Hagree (k + byteStart ex))
          by lia. done.
    - rewrite (Hagree (k + byteStart ex)), (Hagree (k + byteStart ex + 1))
        by lia. done. }
  unfold fieldByte. destruct (Z.eqb_spec i 0) as [->|Hi0].
  - rewrite (Hraw 0) by lia. done.
  - by apply Hraw.
Qed.

(** A buffer that shares no address with the data shares none with the
    bytes the field is read from. *)
Lemma apart_bufferApartFromReads ex p d :
  0 <= byteStart ex -> 0 <= srcLen ex ->
  srcLen ex + byteStart ex <= len d ->
  apart p d -> bufferApartFromReads ex p d.
Proof. unfold apart, bufferApartFromReads. lia. Qed.

(** C7 (amended). A reader with its cursor on a field (Reading state): a
    [Read] with a buffer shorter than the field's destination byte length
    returns [(0, io.ErrShortBuffer)] and changes neither the reader nor any
    byte of the store. When the exploder was built by [NewBitExploder]
    without error and the data is data that [NewBitReader] accepted, a
    [Read] from that same state with a buffer that is large enough returns
    [(len(buf), nil)], advances the cursor by one, leaves zeros in the
    leading bytes of the buffer and writes nothing outside the buffer; the
    trailing bytes hold the field of the bound data when the buffer shares
    no address with the bytes of the data the field is read from, which is
    the case when it shares none with the data. *)
Theorem Read_short_buffer_then_retry e d k ex p p' (m : mem) :
  extractorAt e k = Some ex ->
  len p < ByteLength ex ->
  let rk := {| exp := e; field := k; data := d |} in
  Read rk p m = Some (rk, (0, Some ErrShortBuffer), m) /\
  forall widths,
    Forall in_range widths ->
    NewBitExploder widths = Some (e, None) ->
    valid d m -> len d * 8 <= MaxInt ->
    snd (NewBitReader e d) = None ->
    valid p' m -> ByteLength ex <= len p' ->
    exists m',
      Read rk p' m =
        Some ({| exp := e; field := k + 1; data := d |}, (len p', None), m') /\
      length m' = length m /\
      (forall i, 0 <= i < len p' - ByteLength ex -> m' !! addr p' i = Some 0) /\
      (forall a : nat,
         (a < base p' \/ base p' + Z.to_nat (len p') <= a)%nat ->
         m' !! a = m !! a) /\
      (bufferApartFromReads ex p' d ->
       forall i, 0 <= i < ByteLength ex ->
         m' !! addr p' (len p' - ByteLength ex + i)
         = Some (fieldByte ex (bytes d m) i)) /\
      (apart p' d -> bufferApartFromReads ex p' d).
Proof.
  intros Hat Hshort rk.
  assert (0 <= k < NumFields e) as Hk.
  { unfold extractorAt, index in Hat.
    destruct (Z.ltb_spec k 0); [discriminate|].
    apply lookup_lt_Some in Hat. unfold NumFields. lia. }
  assert (Hge : (field rk >=? NumFields (exp rk)) = false).
  { cbn. destruct (Z.geb_spec k (NumFields e)); [lia | done]. }
  unfold ByteLength in *. split.
  { unfold Read. rewrite Hge. cbn [exp field rk]. rewrite Hat. cbn.
    destruct (Z.gtb_spec (dstLen ex) (len p)); [done | lia]. }
  intros widths Hall Hexp Hd Hdmax Hset Hp' Hbig.
  destruct (NewBitExploder_fields _ _ Hall Hexp) as [Hfields Hcount].
  assert (field_ok (bitLength e) ex) as Hok.
  { unfold extractorAt, index in Hat.
    destruct (Z.ltb_spec k 0); [discriminate|].
    by apply (Hfields (Z.to_nat k)). }
  assert (bitLength e <= len d * 8) as Hfit.
  { unfold NewBitReader, SetData in Hset. cbn in Hset.
    rewrite mul_id in Hset
      by (destruct Hd; unfold in_range, MinInt, MaxInt in *; lia).
    destruct (Z.ltb_spec (len d * 8) (bitLength e)); [discriminate | done]. }
  assert (wf_extractor ex) as Hwf.
  { destruct Hok as (s & w & -> & Hv & _). by apply built_wf. }
  pose proof (field_ok_fits _ _ _ Hok Hfit) as Hsrc.
  unfold Read. rewrite Hge. cbn [exp field data rk]. rewrite Hat.
  cbn [mbind option_bind].
  destruct (Z.gtb_spec (dstLen ex) (len p')); [lia|].
  pose proof Hwf as (Hbs & Hdl & _ & _ & Hbias).
  assert (0 <= srcLen ex) as Hsl0 by (destruct Hbias as [[_ ?]|[[_ ?]|[_ ?]]]; lia).
  destruct (zero_fill p' (Z.to_nat (len p' - dstLen ex)) m Hp' ltac:(lia))
    as (m1 & Hfill & Hlen1 & Hz1 & Hout1).
  rewrite Hfill. cbn [mbind option_bind].
  unfold resliceFrom, reslice.
  destruct (Z.leb_spec 0 (len p' - dstLen ex)); [|lia].
  destruct (Z.leb_spec (len p' - dstLen ex) (len p')); [|lia].
  destruct (Z.leb_spec (len p') (cap p')); [|destruct Hp'; lia].
  cbn [andb mbind option_bind].
  replace (len p' - (len p' - dstLen ex)) with (dstLen ex) by lia.
  set (d' := Slice (addr p' (len p' - dstLen ex)) (dstLen ex)
                   (cap p' - (len p' - dstLen ex))).
  assert (valid d' m1) as Hd'.
  { destruct Hp'. unfold valid, d', addr. cbn. lia. }
  assert (valid d m1) as Hd1 by (by apply (valid_same_length _ m)).
  destruct (ExtractTo_spec ex d' d m1) as (m2 & Hex & Hlen2 & Hout2 & Hin2);
    [done | done | done | done | cbn; lia |].
  rewrite Hex. cbn [mbind option_bind].
  rewrite add_id by (unfold in_range, MinInt, MaxInt in *; lia).
  exists m2. split; [done|]. split; [lia|]. split; [|split; [|split]].
  - intros i Hi. rewrite Hout2 by (unfold d', addr; cbn; lia).
    apply Hz1. lia.
  - intros a Ha. rewrite Hout2 by (destruct Hp'; unfold d', addr; cbn; lia).
    apply Hout1. lia.
  - intros Hap i Hi. unfold bufferApartFromReads in Hap.
    replace (addr p' (len p' - dstLen ex + i)) with (addr d' i)
      by (unfold d', addr; cbn; lia).
    rewrite Hin2; [| unfold writesApartFromReads, d', addr; cbn; lia | done].
    f_equal. apply fieldByte_ext; [done|done|].
    intros j Hj. rewrite !nthByte_bytes by (done || lia).
    f_equal. apply Hout1. unfold addr. lia.
  - by apply apart_bufferApartFromReads.
Qed.

Lemma Read_short_buffer_then_retry_witness :
  let widths := [1; 8; 16; 2; 9; 17] in
  let m := [211; 108; 222; 210; 56; 238; 240; 9; 9; 9; 9] in
  let d := Slice 0 7 7 in
  let p := Slice 7 1 4 in
  let p' := Slice 7 4 4 in
  exists e ex,
    NewBitExploder widths = Some (e, None) /\
    extractorAt e 2 = Some ex /\
    let rk := {| exp := e; field := 2; data := d |} in
    Read rk p m = Some (rk, (0, Some ErrShortBuffer), m) /\
    exists m',
      Read rk p' m =
        Some ({| exp := e; field := 2 + 1; data := d |}, (len p', None), m') /\
      length m' = length m /\
      (forall i, 0 <= i < len p' - ByteLength ex -> m' !! addr p' i = Some 0) /\
      (forall a : nat,
         (a < base p' \/ base p' + Z.to_nat (len p') <= a)%nat ->
         m' !! a = m !! a) /\
      (bufferApartFromReads ex p' d ->
       forall i, 0 <= i < ByteLength ex ->
         m' !! addr p' (len p' - ByteLength ex + i)
         = Some (fieldByte ex (bytes d m) i)) /\
      (apart p' d -> bufferApartFromReads ex p' d).
Proof.
  cbv zeta. eexists _, _.
  split; [vm_compute; reflexivity|]. split; [vm_compute; reflexivity|].
  refine ((fun H => conj (proj1 H)
             (proj2 H [1; 8; 16; 2; 9; 17] _ _ _ _ _ _ _))
          (Read_short_buffer_then_retry _ (Slice 0 7 7) 2 _ (Slice 7 1 4)
             (Slice 7 4 4) [211; 108; 222; 210; 56; 238; 240; 9; 9; 9; 9]
             _ _)).
  - repeat constructor; by vm_compute.
  - vm_compute; reflexivity.
  - unfold valid; cbn; lia.
  - by vm_compute.
  - vm_compute; reflexivity.
  - unfold valid; cbn; lia.
  - by vm_compute.
  - vm_compute; reflexivity.
  - by vm_compute.
Defined.

(** C7, as stated, fails in three ways. The retry buffer may share memory
    with the bound data: for one field of 16 bits over the first two bytes
    of a 4-byte buffer, the short read fails as claimed and the retry
    returns [(4, nil)], but the zero-fill has erased the data before it is
    read, and the buffer holds four zeros, not the field 171, 205. The
    reader that [NewBitReader] returns along with its error is in the
    Reading state with nil data: its retry panics. And the exploder that
    [NewBitExploder] returns along with its error for the widths 8, 0 has a
    zero-value extractor for field 1: a reader over it reads field 0, is
    still in the Reading state, and panics on the next [Read], with an
    empty buffer as with one of two bytes. *)
Lemma Read_retry_fails :
  (exists e ex m',
     NewBitExploder [16] = Some (e, None) /\
     extractorAt e 0 = Some ex /\
     let m := [171; 205; 9; 9] in
     let d := Slice 0 2 4 in
     let p := Slice 0 1 4 in
     let p' := Slice 0 4 4 in
     let rk := {| exp := e; field := 0; data := d |} in
     NewBitReader e d = (rk, None) /\
     valid d m /\ valid p m /\ valid p' m /\
     len p < ByteLength ex <= len p' /\
     Read rk p m = Some (rk, (0, Some ErrShortBuffer), m) /\
     Read rk p' m =
       Some ({| exp := e; field := 1; data := d |}, (len p', None), m') /\
     fieldBytes ex (bytes d m) = [171; 205] /\
     bytes p' m' = [0; 0; 0; 0]) /\
  (exists e r err,
     NewBitExploder [16] = Some (e, None) /\
     let m := [171; 9; 9] in
     NewBitReader e (Slice 0 1 1) = (r, Some err) /\
     0 <= field r < NumFields (exp r) /\
     Read r (Slice 1 1 2) m = Some (r, (0, Some ErrShortBuffer), m) /\
     Read r (Slice 1 2 2) m = None) /\
  (exists e err r r1 m1,
     NewBitExploder [8; 0] = Some (e, Some err) /\
     NewBitReader e (Slice 0 1 1) = (r, None) /\
     Read r (Slice 1 1 2) [171; 9; 9] = Some (r1, (1, None), m1) /\
     0 <= field r1 < NumFields (exp r1) /\
     extractorAt (exp r1) (field r1) = Some zeroBitExtractor /\
     Read r1 (Slice 1 0 2) m1 = None /\
     Read r1 (Slice 1 2 2) m1 = None).
Proof.
  split; [|split].
  - eexists _, _, _. split; [vm_compute; reflexivity|].
    split; [vm_compute; reflexivity|]. cbv zeta.
    split; [vm_compute; reflexivity|].
    split; [unfold valid; cbn; lia|]. split; [unfold valid; cbn; lia|].
    split; [unfold valid; cbn; lia|]. split; [by vm_compute|].
    split; [vm_compute; reflexivity|]. split; [vm_compute; reflexivity|].
    split; vm_compute; reflexivity.
  - eexists _, _, _. split; [vm_compute; reflexivity|]. cbv zeta.
    split; [vm_compute; reflexivity|]. split; [by vm_compute|].
    split; vm_compute; reflexivity.
  - eexists _, _, _, _, _. split; [vm_compute; reflexivity|].
    split; [vm_compute; reflexivity|]. split; [vm_compute; reflexivity|].
    split; [by vm_compute|]. split; [vm_compute; reflexivity|].
    split; vm_compute; reflexivity.
Qed.

(** The reader of the package's own test: field 2 of widths 1, 8, 16, 2, 9, 17
    over d36cded238eef0 is 55741 = 0xD9BD, right-aligned in a 4-byte buffer. *)
Example Read_field_2 :
  (x ← NewBitExploder [1; 8; 16; 2; 9; 17];
   r ← Read {| exp := x.1; field := 2; data := Slice 0 7 7 |} (Slice 7 4 4)
          [211; 108; 222; 210; 56; 238; 240; 9; 9; 9; 9];
   Some (field r.1.1, r.1.2, r.2))
  = Some (3, (4, None), [211; 108; 222; 210; 56; 238; 240; 0; 0; 217; 189]).
Proof. vm_compute. reflexivity. Qed.

End ReaderFacts.

(** ** The codec on concrete tags; undersized ASCII input; filter values *)

Section SgtinScenarios.
Import GoInt Mem Bitextract Epc.

(** C5. Decoding the hex-encoded EPC 300000000000044000000001 succeeds; the
    GTIN of the result is 10000000000014 and its URI is
    urn:epc:id:sgtin:000000000001.1.1. *)
Theorem decode_partition0_scenario :
  exists s,
    DecodeSGTINString "300000000000044000000001" = Some (s, None) /\
    GTIN s = "10000000000014" /\
    URI s = "urn:epc:id:sgtin:000000000001.1.1".
Proof.
  eexists. split; [vm_compute; reflexivity|].
  split; vm_compute; reflexivity.
Qed.

(** C1, at the input where the code departs from it. The EPC
    300400000000028000000001 has partition 1 and the 7-bit
    indicator/item-reference field holds iir = 10. The decoded indicator is
    iir / 10 = 1, but the decoded item-reference is
    iir - indicator * 10 * 10 = -90, not iir mod 10 = 0. *)
Theorem DecodeSGTIN_itemRef_slip :
  exists b s ie iir,
    hexDecode (bytesOf "300400000000028000000001") = Some b /\
    DecodeSGTIN b = Some (s, None) /\
    partition s = 1 /\
    index iirExt (partition s) = Some ie /\
    ExtractUInt64 ie b = Some iir /\
    iir = 10 /\
    indicator s = iir / 10 ^ partition s /\
    itemRef s = -90 /\
    iir mod 10 ^ partition s = 0.
Proof.
  eexists _, _, _, _.
  split; [vm_compute; reflexivity|].
  split; [vm_compute; reflexivity|].
  split; [vm_compute; reflexivity|].
  split; [vm_compute; reflexivity|].
  split; [vm_compute; reflexivity|].
  repeat split; vm_compute; reflexivity.
Qed.

End SgtinScenarios.

Section AsciiFacts.
Import GoInt Mem Bitextract Epc.

(** C3 (amended). For an offset in [0,7] and data with
    len(data)*8 - offset < 7, [DecodeASCIIAt] returns the empty string and the
    null-terminator index 0, and the flag is set exactly when data is a single
    byte whose value is not zero. *)
Theorem DecodeASCIIAt_undersized data offset :
  0 <= offset <= 7 ->
  Z.of_nat (length data) * 8 - offset < 7 ->
  exists extra,
    DecodeASCIIAt data offset = Some (EmptyString, 0, extra) /\
    (extra = true <-> exists b, data = [b] /\ b <> 0).
Proof.
  intros Hoff Hsmall. unfold DecodeASCIIAt.
  destruct (Z.ltb_spec offset 0); [lia|].
  destruct (Z.gtb_spec offset 7); [lia|]. cbn [orb].
  rewrite mul_id by zdm. rewrite sub_id by zdm.
  destruct (Z.leb_spec (Z.quot (Z.of_nat (length data) * 8 - offset) 7) 0);
    [|zdm].
  eexists. split; [reflexivity|].
  destruct data as [|b [|b' rest]].
  - cbn. split; [discriminate | intros (b & Hb & _); discriminate].
  - change ((Z.of_nat (length [b]) =? 1) && negb (nthByte [b] 0 =? nullASCII))
      with (negb (b =? 0)).
    destruct (Z.eqb_spec b 0) as [->|Hb]; cbn [negb].
    + split; [discriminate | intros (b & Heq & Hb); injection Heq as <-; lia].
    + split; [intros _; by exists b | done].
  - exfalso. cbn [length] in Hsmall. lia.
Qed.

Lemma DecodeASCIIAt_undersized_witness :
  exists extra,
    DecodeASCIIAt [5] 3 = Some (EmptyString, 0, extra) /\
    (extra = true <-> exists b, [5] = [b] /\ b <> 0).
Proof.
  apply (DecodeASCIIAt_undersized [5] 3).
  - lia.
  - cbn. lia.
Defined.

(** C3, as stated, fails: for the single byte 0x01 at offset 2 the flag is
    set although the byte is not all zero, and for the single all-zero byte
    the flag is not set. *)
Lemma DecodeASCIIAt_flag_nonzero_byte :
  DecodeASCIIAt [1] 2 = Some (EmptyString, 0, true) /\
  DecodeASCIIAt [0] 2 = Some (EmptyString, 0, false) /\
  Z.of_nat (length [1]) * 8 - 2 < 7.
Proof. repeat split. Qed.

End AsciiFacts.

Section ValidateFacts.
Import GoInt Mem Bitextract Epc.

Lemma IsValid_spec fv : IsValid fv = true <-> fv ∈ [0; 1; 2; 4; 6; 7].
Proof.
  unfold IsValid, Other, UnitPack, reserved1, reserved2.
  rewrite !elem_of_cons, elem_of_nil.
  rewrite !andb_true_iff, negb_true_iff, orb_false_iff, Z.geb_le, Z.leb_le,
    !Z.eqb_neq.
  lia.
Qed.

(** C4 (amended). [ValidateRanges] returns a non-nil error on an SGTIN whose
    filter value is outside the set {0, 1, 2, 4, 6, 7}, and never returns the
    filter error when the filter value is in that set; of the eight values of
    the 3-bit field exactly two, 3 and 5, are reserved and rejected. *)
Theorem ValidateRanges_filter s :
  (filter s ∉ [0; 1; 2; 4; 6; 7] ->
     exists e, ValidateRanges s = Some (Some e)) /\
  (filter s ∈ [0; 1; 2; 4; 6; 7] ->
     forall f, ValidateRanges s <> Some (Some (ErrFilter f))) /\
  (forall fv, 0 <= fv <= 7 -> (IsValid fv = false <-> fv = 3 \/ fv = 5)).
Proof.
  split; [|split].
  - intros Hout. unfold ValidateRanges.
    destruct ((indicator s <? 0) || (indicator s >? 9)); [eauto|].
    destruct (IsValid (filter s)) eqn:Hv; [|cbn; eauto].
    apply IsValid_spec in Hv. done.
  - intros Hin f. apply IsValid_spec in Hin. unfold ValidateRanges.
    rewrite Hin. cbn [negb].
    repeat (case_match; try discriminate);
      destruct (index maxItems (partition s)); cbn; try discriminate;
      repeat (case_match; try discriminate);
      destruct (index maxPrefix (partition s)); cbn; try discriminate;
      repeat (case_match; try discriminate);
      destruct (IsGS1AIEncodable (serial s)) as [[|]|]; cbn; discriminate.
  - intros fv Hfv. rewrite <- not_true_iff_false, IsValid_spec.
    rewrite !elem_of_cons, elem_of_nil. lia.
Qed.

Lemma ValidateRanges_filter_witness :
  (exists e, ValidateRanges (mkSGTIN 3 0 1 1 0 "1") = Some (Some e)) /\
  ValidateRanges (mkSGTIN 2 0 1 1 0 "1") <> Some (Some (ErrFilter 2)).
Proof.
  split.
  - apply (ValidateRanges_filter (mkSGTIN 3 0 1 1 0 "1")).
    cbn. rewrite !elem_of_cons, elem_of_nil. lia.
  - apply (ValidateRanges_filter (mkSGTIN 2 0 1 1 0 "1")).
    cbn. rewrite !elem_of_cons, elem_of_nil. lia.
Defined.

(** C4, as stated, fails: the filter values 8 and 9 are in the set the claim
    gives, and [ValidateRanges] rejects an SGTIN for them, all its other
    fields being in range. *)
Lemma ValidateRanges_rejects_filter_8_9 :
  ValidateRanges (mkSGTIN 8 0 1 1 0 "1") = Some (Some (ErrFilter 8)) /\
  ValidateRanges (mkSGTIN 9 0 1 1 0 "1") = Some (Some (ErrFilter 9)) /\
  ValidateRanges (mkSGTIN 7 0 1 1 0 "1") = Some None.
Proof. repeat split; vm_compute; reflexivity. Qed.

End ValidateFacts.

(** ** GS1 escaping *)

Section EscapeFacts.
Import GoInt Mem Bitextract Epc.

Lemma codeChar_charCode c : codeChar (charCode c) = c.
Proof. unfold codeChar, charCode. rewrite N2Z.id. apply ascii_N_embedding. Qed.

Lemma charCode_inj_code c k : charCode c = k -> c = codeChar k.
Proof. intros <-. symmetry. apply codeChar_charCode. Qed.

Lemma unescape_cons_other c r :
  charCode c <> 37 ->
  gs1Unescaper_Replace (String c r) = String c (gs1Unescaper_Replace r).
Proof.
  intros Hc. destruct r as [|a [|b rest]]; cbn; try done.
  destruct (Z.eqb_spec (charCode c) 37); done.
Qed.

(** Unescaping what the escaper wrote for one byte gives the byte back,
    whatever follows. *)
Lemma unescape_escapeByte c r :
  charCode c <> 0 ->
  gs1Unescaper_Replace (escapeByte (charCode c) +:+ r)
  = String c (gs1Unescaper_Replace r).
Proof.
  intros Hnz. unfold escapeByte.
  repeat match goal with
  | |- context [charCode c =? ?k] =>
      let Hk := fresh "Hk" in
      destruct (Z.eqb_spec (charCode c) k) as [Hk|Hk];
      [try lia; apply charCode_inj_code in Hk; subst c; reflexivity|]
  end.
  rewrite codeChar_charCode. cbn [String.append].
  by apply unescape_cons_other.
Qed.

Lemma unescape_escape s :
  gs1Unescaper_Replace (gs1Escaper_Replace s) = removeNulls s.
Proof.
  induction s as [|c t IH]; [done|]. cbn [gs1Escaper_Replace removeNulls].
  destruct (Z.eqb_spec (charCode c) 0) as [H0|H0].
  - rewrite H0. cbn. done.
  - rewrite unescape_escapeByte by done. by rewrite IH.
Qed.

Lemma escape_removeNulls s :
  gs1Escaper_Replace (removeNulls s) = gs1Escaper_Replace s.
Proof.
  induction s as [|c t IH]; [done|]. cbn [gs1Escaper_Replace removeNulls].
  destruct (Z.eqb_spec (charCode c) 0) as [H0|H0].
  - rewrite H0. cbn. done.
  - cbn [gs1Escaper_Replace]. by rewrite IH.
Qed.

Lemma removeNulls_id s :
  Forall (fun b => b <> 0) (bytesOf s) -> removeNulls s = s.
Proof.
  induction s as [|c t IH]; [done|]. cbn [bytesOf removeNulls].
  intros H. inversion H as [|? ? Hc Ht]; subst.
  destruct (Z.eqb_spec (charCode c) 0); [done|]. by rewrite IH.
Qed.

(** C8. [UnescapeGS1 (EscapeGS1 s) = s] for every string without a null
    byte, its reserved characters being unescaped; [EscapeGS1 (UnescapeGS1 s)
    = s] fails for some strings, and holds exactly for the properly escaped
    ones, those [EscapeGS1] produces. *)
Theorem GS1_escape_roundtrip :
  (forall s, Forall (fun b => b <> 0) (bytesOf s) ->
     UnescapeGS1 (EscapeGS1 s) = s) /\
  (exists s, EscapeGS1 (UnescapeGS1 s) <> s) /\
  (forall s, EscapeGS1 (UnescapeGS1 s) = s <-> exists t, s = EscapeGS1 t).
Proof.
  unfold UnescapeGS1, EscapeGS1. split; [|split].
  - intros s Hs. rewrite unescape_escape. by apply removeNulls_id.
  - exists "%". vm_compute. discriminate.
  - intros s. split.
    + intros H. by exists (gs1Unescaper_Replace s).
    + intros [t ->]. rewrite unescape_escape. apply escape_removeNulls.
Qed.

Lemma GS1_escape_roundtrip_witness :
  UnescapeGS1 (EscapeGS1 "lorem_% ipsum/?") = "lorem_% ipsum/?".
Proof.
  apply GS1_escape_roundtrip.
  repeat constructor; by vm_compute.
Defined.

End EscapeFacts.

(** ** The check digit *)

Section CheckDigitFacts.
Import GoInt Mem Bitextract Epc.

Lemma positionWeight_parity p q :
  p mod 2 = q mod 2 -> positionWeight p = positionWeight q.
Proof.
  unfold positionWeight. rewrite !Zmod_odd.
  destruct (Z.odd p), (Z.odd q); done.
Qed.

Lemma positionWeight_bounds p : 1 <= positionWeight p <= 3.
Proof. unfold positionWeight. destruct (Z.odd p); lia. Qed.

(** The weight the code computes is the weight of the position. *)
Lemma digitWeight_position d1 i : digitWeight d1 i = positionWeight (d1 + i).
Proof.
  unfold digitWeight, sub.
  change 1 with (Z.ones 1) at 1. rewrite Z.land_ones by lia.
  change (2 ^ 1) with 2. rewrite wrap_parity.
  replace (d1 + i) with (d1 - i + i * 2) by lia.
  unfold positionWeight. rewrite <- (Z.mod_add (d1 - i) i 2) by lia.
  rewrite Zmod_odd. destruct (Z.odd (d1 - i + i * 2)); reflexivity.
Qed.

Lemma weightedDigits_zero k p : weightedDigits k 0 p = 0.
Proof.
  revert p. induction k as [|k IH]; intros p; [done|].
  cbn [weightedDigits]. rewrite Z.mod_0_l, Z.div_0_l by lia.
  rewrite IH. lia.
Qed.

Lemma weightedDigits_bounds k n p :
  0 <= weightedDigits k n p <= 27 * Z.of_nat k.
Proof.
  revert n p. induction k as [|k IH]; intros n p; [cbn; lia|].
  cbn [weightedDigits].
  pose proof (IH (n / 10) (p + 1)).
  pose proof (Z.mod_pos_bound n 10 ltac:(lia)).
  pose proof (positionWeight_bounds p). nia.
Qed.

Lemma weightedDigits_parity k n p q :
  p mod 2 = q mod 2 -> weightedDigits k n p = weightedDigits k n q.
Proof.
  revert n p q. induction k as [|k IH]; intros n p q H; [done|].
  cbn [weightedDigits]. rewrite (positionWeight_parity p q) by done.
  rewrite (IH (n / 10) (p + 1) (q + 1)); [done|].
  rewrite <- (Zplus_mod_idemp_l p), <- (Zplus_mod_idemp_l q). by rewrite H.
Qed.

(** The loop adds the weighted digits of [n] to [sum]; the fuel is enough
    whenever [n] has no more bits than it. *)
Lemma checkSum_loop_digits d1 fuel : forall n i sum k,
  0 <= n < 2 ^ Z.of_nat fuel -> n < 10 ^ Z.of_nat k ->
  0 <= i -> i + Z.of_nat k <= 1000 ->
  0 <= sum -> sum + 27 * Z.of_nat k <= 100000 ->
  checkSum_loop fuel n d1 i sum = sum + weightedDigits k n (d1 + i).
Proof.
  induction fuel as [|fuel IH]; intros n i sum k Hn Hk Hi Hik Hs Hsk.
  - assert (n = 0) as -> by (cbn in Hn; lia).
    rewrite weightedDigits_zero. cbn. lia.
  - cbn [checkSum_loop]. destruct (Z.gtb_spec n 0) as [Hpos|Hz].
    + destruct k as [|k]; [cbn in Hk; lia|].
      rewrite Nat2Z.inj_succ, Z.pow_succ_r in Hn, Hk by lia.
      rewrite Z.quot_div_nonneg, Z.rem_mod_nonneg by lia.
      rewrite digitWeight_position.
      pose proof (Z.mod_pos_bound n 10 ltac:(lia)).
      pose proof (positionWeight_bounds (d1 + i)).
      rewrite (add_id i 1) by zdm.
      rewrite mul_id by (unfold in_range, MinInt, MaxInt; nia).
      rewrite add_id by (unfold in_range, MinInt, MaxInt; nia).
      rewrite (IH (n / 10) (i + 1) _ k); try (zdm || nia).
      cbn [weightedDigits]. replace (d1 + (i + 1)) with (d1 + i + 1) by lia.
      lia.
    + assert (n = 0) as -> by lia. rewrite weightedDigits_zero. lia.
Qed.

Lemma checkSum_digits n d1 :
  0 <= n <= MaxInt -> checkSum n d1 = weightedDigitSum n d1.
Proof.
  intros Hn. unfold checkSum, weightedDigitSum, MaxInt in *.
  rewrite (checkSum_loop_digits d1 _ n 0 0 19%nat); try lia.
  - by rewrite Z.add_0_r.
  - split; [lia|]. rewrite Nat2Z.inj_succ, Z2Nat.id by apply Z.log2_nonneg.
    destruct (Z.eq_dec n 0) as [->|Hne]; [cbn; lia|].
    apply Z.log2_spec. lia.
Qed.

(** The loop of [checkSum] ends on its own condition: the function computes
    the result of the unbounded loop, for every [n]. *)
Lemma checkSum_loop_runs d1 fuel : forall n i sum,
  n < 2 ^ Z.of_nat fuel ->
  checkSum_steps d1 n i sum (checkSum_loop fuel n d1 i sum).
Proof.
  induction fuel as [|fuel IH]; intros n i sum Hn.
  - cbn. apply checkSum_exit. cbn in Hn. lia.
  - cbn [checkSum_loop]. destruct (Z.gtb_spec n 0) as [Hpos|Hz].
    + apply checkSum_iter; [lia|]. apply IH.
      rewrite Nat2Z.inj_succ, Z.pow_succ_r in Hn by lia.
      rewrite Z.quot_div_nonneg by lia. zdm.
    + by apply checkSum_exit.
Qed.

Lemma checkSum_runs n d1 : checkSum_steps d1 n 0 0 (checkSum n d1).
Proof.
  apply checkSum_loop_runs.
  rewrite Nat2Z.inj_succ, Z2Nat.id by apply Z.log2_nonneg.
  destruct (Z_le_gt_dec n 0) as [Hle|Hgt].
  - pose proof (Z.pow_pos_nonneg 2 (Z.succ (Z.log2 n)) ltac:(lia)
                  ltac:(pose proof (Z.log2_nonneg n); lia)). lia.
  - apply Z.log2_spec. lia.
Qed.

(** C9. For an SGTIN whose itemRef, companyPrefix and indicator are
    non-negative ints, checkDigit is (10 - (totalSum mod 10)) mod 10, where
    totalSum is the sum of the weighted digit sums of the three components,
    anchored at positions 1 (itemRef), 13-partition (companyPrefix) and 13
    (indicator), and it lies in [0,9]. *)
Theorem checkDigit_formula_and_range s :
  0 <= itemRef s <= MaxInt ->
  0 <= companyPrefix s <= MaxInt ->
  0 <= indicator s <= MaxInt ->
  let totalSum :=
    weightedDigitSum (itemRef s) 1
    + weightedDigitSum (companyPrefix s) (13 - partition s)
    + weightedDigitSum (indicator s) 13 in
  checkDigit s = (10 - totalSum mod 10) mod 10 /\
  0 <= checkDigit s <= 9.
Proof.
  intros Hi Hc Hd totalSum. unfold checkDigit.
  rewrite !checkSum_digits by done.
  assert (weightedDigitSum (companyPrefix s) (sub 13 (partition s))
          = weightedDigitSum (companyPrefix s) (13 - partition s)) as ->.
  { apply weightedDigits_parity, wrap_parity. }
  pose proof (weightedDigits_bounds 19 (itemRef s) 1) as B1.
  pose proof (weightedDigits_bounds 19 (companyPrefix s) (13 - partition s))
    as B2.
  pose proof (weightedDigits_bounds 19 (indicator s) 13) as B3.
  fold (weightedDigitSum (itemRef s) 1) in B1.
  fold (weightedDigitSum (companyPrefix s) (13 - partition s)) in B2.
  fold (weightedDigitSum (indicator s) 13) in B3.
  rewrite (add_id (weightedDigitSum (itemRef s) 1))
    by (unfold in_range, MinInt, MaxInt; lia).
  rewrite add_id by (unfold in_range, MinInt, MaxInt; lia).
  fold totalSum. assert (0 <= totalSum) as Ht by (unfold totalSum; lia).
  rewrite (Z.rem_mod_nonneg totalSum) by lia.
  pose proof (Z.mod_pos_bound totalSum 10 ltac:(lia)).
  rewrite sub_id by (unfold in_range, MinInt, MaxInt; lia).
  rewrite Z.rem_mod_nonneg by lia.
  split; [done|]. pose proof (Z.mod_pos_bound (10 - totalSum mod 10) 10). lia.
Qed.

Lemma checkDigit_formula_and_range_witness :
  let s := mkSGTIN 0 5 888446 0 67142 "193853396487" in
  let totalSum :=
    weightedDigitSum (itemRef s) 1
    + weightedDigitSum (companyPrefix s) (13 - partition s)
    + weightedDigitSum (indicator s) 13 in
  checkDigit s = (10 - totalSum mod 10) mod 10 /\
  0 <= checkDigit s <= 9.
Proof.
  cbv zeta. apply checkDigit_formula_and_range; cbn; unfold MaxInt; lia.
Defined.

(** The check digit of the repository's test GTIN 0088844667142 is 4. *)
Example checkDigit_00888446671424 :
  checkDigit (mkSGTIN 0 5 888446 0 67142 "193853396487") = 4.
Proof. vm_compute. reflexivity. Qed.

End CheckDigitFacts.

(** ** Extraction into integers; DecodeASCIIAt returns *)

Section ValueExtraction.
Import GoInt Mem Bitextract.

Lemma bytes_of_fresh_layout (pre src : list Z) :
  bytes (Slice (length pre) (Z.of_nat (length src)) (Z.of_nat (length src)))
        (pre ++ src) = src.
Proof.
  unfold bytes. cbn [base len]. rewrite drop_app_length.
  rewrite Nat2Z.id. apply firstn_all.
Qed.

(** [ExtractUInt64] on a source that is long enough: the scratch buffer ends
    with the field, after zeros. *)
Lemma ExtractUInt64_value be src :
  wf_extractor be -> dstLen be <= 8 ->
  srcLen be + byteStart be <= Z.of_nat (length src) ->
  ExtractUInt64 be src
  = Some (BigEndian_Uint64
            (replicate (Z.to_nat (8 - dstLen be)) 0 ++ fieldBytes be src)).
Proof.
  intros Hwf Hd8 Hsrc. pose proof Hwf as (Hbs & Hdl & _).
  unfold ExtractUInt64, resliceFrom, reslice. cbn [len cap].
  destruct (Z.leb_spec 0 (8 - dstLen be)); [|lia].
  destruct (Z.leb_spec (8 - dstLen be) 8); [|lia].
  cbn [andb Z.leb mbind option_bind].
  replace (8 - (8 - dstLen be)) with (dstLen be) by lia.
  set (d := Slice (addr (Slice 0 8 8) (8 - dstLen be)) (dstLen be) (dstLen be)).
  set (s := Slice 8 (Z.of_nat (length src)) (Z.of_nat (length src))).
  set (m := replicate 8 0 ++ src).
  assert (length m = (8 + length src)%nat) as Hm
    by (unfold m; rewrite length_app, length_replicate; lia).
  assert (valid d m) as Hvd by (unfold valid, d, addr; cbn; lia).
  assert (valid s m) as Hvs by (unfold valid, s; cbn; lia).
  assert (srcLen be + byteStart be <= len s) as Hs1 by (unfold s; cbn; lia).
  assert (dstLen be <= len d) as Hd1 by (unfold d; cbn; lia).
  destruct (ExtractTo_spec be d s m Hwf Hvd Hvs Hs1 Hd1)
    as (m' & Hex & Hlen & Hout & Hin).
  change (8 <=? 8) with true. cbn [mbind option_bind].
  rewrite Hex. cbn [mbind option_bind]. do 2 f_equal.
  apply list_eq. intros j.
  destruct (decide (j < 8)%nat) as [Hj|Hj].
  2:{ rewrite lookup_take_ge by lia. symmetry. apply lookup_ge_None.
      rewrite length_app, length_replicate. unfold fieldBytes.
      rewrite length_fmap, length_seqZ. lia. }
  rewrite lookup_take_lt by done.
  destruct (decide (j < Z.to_nat (8 - dstLen be))%nat) as [Hz|Hz].
  - rewrite Hout by (unfold d, addr; cbn; lia).
    rewrite lookup_app_l by (rewrite length_replicate; lia).
    unfold m. rewrite lookup_app_l by (rewrite length_replicate; lia).
    rewrite !lookup_replicate_2 by lia. done.
  - rewrite lookup_app_r by (rewrite length_replicate; lia).
    rewrite length_replicate. unfold fieldBytes.
    rewrite list_lookup_fmap.
    rewrite (lookup_seqZ_lt _ _ (j - Z.to_nat (8 - dstLen be))) by lia.
    cbn [fmap option_fmap option_map].
    replace j with (addr d (0 + Z.of_nat (j - Z.to_nat (8 - dstLen be))))
      at 1 by (unfold d, addr; cbn; lia).
    rewrite Hin; [| unfold writesApartFromReads, d, s, addr; cbn; lia | lia].
    do 2 f_equal. apply (bytes_of_fresh_layout (replicate 8 0) src).
Qed.

End ValueExtraction.

Section AsciiTotal.
Import GoInt Mem Bitextract Epc.

Lemma asciiExtracts_at k :
  0 <= k <= 7 ->
  index asciiExtracts k = Some (builtExtractor ((8 - k) mod 8) 7).
Proof.
  intros Hk.
  assert (k = 0 \/ k = 1 \/ k = 2 \/ k = 3 \/ k = 4 \/ k = 5 \/ k = 6 \/ k = 7)
    as Hc by lia.
  destruct Hc as [->|[->|[->|[->|[->|[->|[->| ->]]]]]]]; reflexivity.
Qed.

Lemma strlen_stringOf l : strlen (stringOf l) = Z.of_nat (length l).
Proof.
  unfold strlen. f_equal. induction l as [|x l IH]; [done|].
  cbn. by rewrite IH.
Qed.

(** [DecodeASCIIAt] has no invalid input: for an offset in [0,7] it returns,
    and the null-terminator index it returns is a position of the string or
    its length. *)
Lemma DecodeASCIIAt_total data offset :
  0 <= offset <= 7 ->
  Z.of_nat (length data) * 8 <= MaxInt ->
  exists s nt extra,
    DecodeASCIIAt data offset = Some (s, nt, extra) /\ 0 <= nt <= strlen s.
Proof.
  intros Hoff Hlen8. unfold MaxInt in Hlen8. unfold DecodeASCIIAt.
  destruct (Z.ltb_spec offset 0); [lia|].
  destruct (Z.gtb_spec offset 7); [lia|]. cbn [orb].
  rewrite mul_id by zdm. rewrite sub_id by zdm.
  set (L := Z.of_nat (length data)) in *.
  remember (Z.quot (L * 8 - offset) 7) as n eqn:En.
  destruct (Z.leb_spec n 0) as [Hn|Hn].
  { eexists _, _, _. split; [reflexivity|]. by vm_compute. }
  assert (n * 7 <= L * 8 - offset /\ 0 <= L * 8 - offset) as [Hn7 HL].
  { subst n. zdm. }
  remember (Z.rem (8 - offset) 8) as ext0 eqn:Eext.
  assert (0 <= ext0 <= 7 /\ (ext0 + offset) mod 8 = 0) as [Hext0 Hext0'].
  { subst ext0. rewrite Z.rem_mod_nonneg by lia. zdm. }
  pose (P := fun (j : Z) (st : asciiState) =>
    length (al_mem st) = (Z.to_nat n + length data)%nat /\
    al_ext st = ext0 + j /\
    (al_nullTerm st = -1 \/ 0 <= al_nullTerm st < j)).
  match goal with
  | |- context [forRange ?k 0 ?body ?init] =>
      destruct (forRange_inv P k 0 body init) as (st & Hrun & HP)
  end.
  - unfold P. cbn. rewrite length_app, length_replicate. lia.
  - intros j st Hj (Hmem & Hext & Hnt).
    rewrite Hext.
    rewrite (add_id j 7), (sub_id (j + 7) offset) by zdm.
    rewrite Z.quot_div_nonneg by lia.
    rewrite sub_id by zdm.
    rewrite Z.rem_mod_nonneg by lia.
    rewrite asciiExtracts_at
      by (pose proof (Z.mod_pos_bound (ext0 + j) 8); lia).
    cbn [mbind option_bind].
    set (k := (ext0 + j) mod 8).
    set (start := (8 - k) mod 8).
    set (inbyte := j - (j + 7 - offset) / 8).
    assert (0 <= start < 8 /\ 8 * inbyte + start = offset + 7 * j)
      as [Hst Habs].
    { unfold start, inbyte, k. zdm. }
    assert (valid_bounds start 7) as Hvb
      by (unfold valid_bounds, MaxInt; lia).
    pose proof (built_wf _ _ Hvb) as Hwf.
    unfold resliceFrom, reslice. cbn [len cap].
    destruct (Z.leb_spec 0 j); [|lia].
    destruct (Z.leb_spec j n); [|lia].
    destruct (Z.leb_spec n n); [|lia].
    cbn [andb mbind option_bind].
    destruct (Z.leb_spec 0 inbyte); [|lia].
    destruct (Z.leb_spec inbyte L); [|lia].
    destruct (Z.leb_spec L L); [|lia].
    cbn [andb mbind option_bind].
    match goal with
    | |- context [ExtractTo ?be ?d ?s ?m] =>
        destruct (ExtractTo_spec be d s m) as (m' & Hex & Hlen' & _ & _)
    end; try done.
    + unfold valid, addr. cbn. lia.
    + unfold valid, addr. cbn. lia.
    + cbn. zdm.
    + cbn. zdm.
    + rewrite Hex. cbn [mbind option_bind].
      rewrite load_valid by (unfold valid; cbn; lia).
      cbn [mbind option_bind]. eexists. split; [reflexivity|].
      unfold P. cbn [al_mem al_ext al_nullTerm].
      split; [lia|]. split; [rewrite add_id by zdm; lia|].
      destruct Hnt as [->|Hnt].
      * cbn [Z.eqb Pos.eqb]. rewrite andb_true_r.
        destruct (_ =? nullASCII); lia.
      * destruct (Z.eqb_spec (al_nullTerm st) (-1)); [lia|].
        rewrite andb_false_r. lia.
  - destruct HP as (Hmem & _ & Hnt). rewrite Hrun. cbn [mbind option_bind].
    eexists _, _, _. split; [reflexivity|].
    rewrite strlen_stringOf, length_take. 
    destruct (Z.eqb_spec (al_nullTerm st) (-1)); lia.
Qed.

End AsciiTotal.

(** ** DecodeSGTIN: when it fails *)

Section DecodeFacts.
Import GoInt Mem Bitextract Epc.

Lemma ExtractUInt64_built st w src :
  valid_bounds st w -> w <= 64 -> st + w <= 8 * Z.of_nat (length src) ->
  exists v, ExtractUInt64 (builtExtractor st w) src = Some v.
Proof.
  intros Hv Hw Hfit. eexists. apply ExtractUInt64_value.
  - by apply built_wf.
  - cbn. zdm.
  - destruct Hv as (? & ? & ?). cbn. zdm.
Qed.

Lemma partitionBits_range b : 0 <= partitionBits b <= 7.
Proof.
  unfold partitionBits.
  pose proof (Z.land_ones (Z.shiftr (nthByte b 1) 2) 3 ltac:(lia)) as H.
  change (Z.ones 3) with 7 in H. change (2 ^ 3) with 8 in H. rewrite H.
  pose proof (Z.mod_pos_bound (Z.shiftr (nthByte b 1) 2) 8). lia.
Qed.

Lemma ExtractUInt64_partition b :
  (2 <= length b)%nat ->
  ExtractUInt64 partitionExt b = Some (partitionBits b).
Proof.
  intros Hb. change partitionExt with (builtExtractor 11 3).
  rewrite ExtractUInt64_value.
  - f_equal.
  - apply built_wf. unfold valid_bounds, MaxInt. lia.
  - by vm_compute.
  - change (srcLen (builtExtractor 11 3) + byteStart (builtExtractor 11 3))
      with 2. lia.
Qed.


Lemma companyExt_at p :
  0 <= p <= 6 ->
  exists w, index companyExt p = Some (builtExtractor 14 w) /\ 1 <= w <= 40.
Proof.
  intros Hp.
  assert (p = 0 \/ p = 1 \/ p = 2 \/ p = 3 \/ p = 4 \/ p = 5 \/ p = 6)
    as Hc by lia.
  destruct Hc as [->|[->|[->|[->|[->|[->| ->]]]]]];
    [exists 40 | exists 37 | exists 34 | exists 30 | exists 27 | exists 24
    | exists 20]; (split; [reflexivity | lia]).
Qed.

Lemma iirExt_at p :
  0 <= p <= 6 ->
  exists w, index iirExt p = Some (builtExtractor (58 - w) w) /\ 1 <= w <= 24.
Proof.
  intros Hp.
  assert (p = 0 \/ p = 1 \/ p = 2 \/ p = 3 \/ p = 4 \/ p = 5 \/ p = 6)
    as Hc by lia.
  destruct Hc as [->|[->|[->|[->|[->|[->| ->]]]]]];
    [exists 4 | exists 7 | exists 10 | exists 14 | exists 17 | exists 20
    | exists 24]; (split; [reflexivity | lia]).
Qed.

Lemma maxItems_at p :
  0 <= p <= 6 -> exists mi, index maxItems p = Some mi.
Proof.
  intros Hp. unfold index. destruct (Z.ltb_spec p 0); [lia|].
  apply lookup_lt_is_Some. cbn. lia.
Qed.

(** With the 12 bytes of the shorter scheme in hand, the fields are all
    extracted, and the only error is a partition above 6. *)
Lemma decodeFields_result b serial' :
  (12 <= length b)%nat ->
  exists s err,
    decodeFields b serial' = Some (s, err) /\
    (err <> None <-> partitionBits b > 6).
Proof.
  intros Hb. unfold decodeFields.
  destruct (ExtractUInt64_built 8 3 b) as [f Hf];
    [unfold valid_bounds, MaxInt; lia | lia | lia |].
  change (builtExtractor 8 3) with filterExt in Hf. rewrite Hf.
  cbn [mbind option_bind].
  rewrite ExtractUInt64_partition by lia. cbn [mbind option_bind].
  pose proof (partitionBits_range b) as Hp.
  assert (of_uint64 (partitionBits b) = partitionBits b) as Hpp
    by (apply wrap_id; unfold in_range, MinInt, MaxInt; lia).
  rewrite !Hpp.
  destruct (Z.ltb_spec (partitionBits b) 0); [lia|].
  destruct (Z.gtb_spec (partitionBits b) 6) as [Hbad|Hok]; cbn [orb].
  { eexists _, _. split; [reflexivity|].
    split; [intros _; lia | discriminate]. }
  destruct (companyExt_at (partitionBits b)) as (wc & -> & Hwc); [lia|].
  cbn [mbind option_bind].
  destruct (ExtractUInt64_built 14 wc b) as [c ->];
    [unfold valid_bounds, MaxInt; lia | lia | lia |].
  cbn [mbind option_bind].
  destruct (iirExt_at (partitionBits b)) as (wi & -> & Hwi); [lia|].
  cbn [mbind option_bind].
  destruct (ExtractUInt64_built (58 - wi) wi b) as [v ->];
    [unfold valid_bounds, MaxInt; lia | lia | lia |].
  cbn [mbind option_bind].
  destruct (maxItems_at (partitionBits b)) as (mi & ->); [lia|].
  cbn [mbind option_bind].
  eexists _, _. split; [reflexivity|]. split; [done | intros; lia].
Qed.


(** C2. [DecodeSGTIN] returns, and it returns an error exactly when the
    input is empty, or its first byte is neither 0x30 nor 0x36, or the first
    byte is 0x30 and the length is not 12, or the first byte is 0x36 and the
    length is not 25, or the 3-bit partition value is greater than 6; on
    every other input it returns an SGTIN and no error. *)
Theorem DecodeSGTIN_error_iff b :
  exists s err,
    DecodeSGTIN b = Some (s, err) /\ (err <> None <-> decodeFails b).
Proof.
  destruct b as [|b0 rest].
  { exists zeroSGTIN, (Some ErrNoData). split; [reflexivity|].
    split; [by left | discriminate]. }
  set (b := b0 :: rest).
  assert (nthByte b 0 = b0) as Hb0 by reflexivity.
  assert (length b <> 0%nat) as Hne by (unfold b; cbn [length]; lia).
  unfold DecodeSGTIN, decodeFails. rewrite Hb0.
  destruct (Z.eqb_spec (Z.of_nat (length b)) 0); [lia|].
  unfold decodeSerial.
  change (index b 0) with (Some b0). cbn [mbind option_bind].
  unfold SGTIN96Header, SGTIN198Header, SGTIN96NumBytes, SGTIN198NumBytes.
  destruct (Z.eqb_spec b0 48) as [H96|H96].
  - destruct (Z.eqb_spec (Z.of_nat (length b)) 12) as [Hl|Hl]; cbn [negb].
    + change serial96Ext with (builtExtractor 58 38).
      destruct (ExtractUInt64_built 58 38 b) as [v ->];
        [unfold valid_bounds, MaxInt; lia | lia | lia |].
      cbn [mbind option_bind].
      destruct (decodeFields_result b (fmtD (of_uint64 v)))
        as (s & err & -> & Hiff); [lia|].
      exists s, err. split; [done|]. rewrite Hiff. split; [tauto|].
      intros [?|[?|[?|[?|?]]]]; done || lia.
    + eexists _, _. split; [reflexivity|].
      split; [intros _; right; right; left; done | discriminate].
  - destruct (Z.eqb_spec b0 54) as [H198|H198].
    + destruct (Z.eqb_spec (Z.of_nat (length b)) 25) as [Hl|Hl]; cbn [negb].
      * unfold sliceFrom.
        change (0 <=? serialStartByte) with true.
        change serialStartByte with 7. change serialOffsetBit with 2.
        destruct (Z.leb_spec 7 (Z.of_nat (length b))); [|lia].
        cbn [andb mbind option_bind].
        destruct (DecodeASCIIAt_total (drop (Z.to_nat 7) b) 2)
          as (str & nt & extra & -> & Hnt);
          [lia | rewrite length_drop; unfold MaxInt; lia |].
        cbn [mbind option_bind].
        destruct extra.
        -- cbn [mbind option_bind].
           destruct (decodeFields_result b str)
             as (s & err & -> & Hiff); [lia|].
           exists s, err. split; [done|]. rewrite Hiff. split; [tauto|].
           intros [?|[?|[?|[?|?]]]]; done || lia.
        -- unfold strPrefix.
           destruct (Z.leb_spec 0 nt); [|lia].
           destruct (Z.leb_spec nt (strlen str)); [|lia].
           cbn [andb mbind option_bind].
           destruct (decodeFields_result b (substring 0 (Z.to_nat nt) str))
             as (s & err & -> & Hiff); [lia|].
           exists s, err. split; [done|]. rewrite Hiff. split; [tauto|].
           intros [?|[?|[?|[?|?]]]]; done || lia.
      * eexists _, _. split; [reflexivity|].
        split; [intros _; right; right; right; left; done | discriminate].
    + eexists _, _. split; [reflexivity|].
      split; [intros _; right; left; done | discriminate].
Qed.

End DecodeFacts.

(** ** The vectors of the repository's tests *)

Section RepositoryTests.
Import GoInt Mem Bitextract Epc.

(** TestBitExtractor: the fields of a few extractors. *)
Example New_3_10 :
  New 3 10 = Some (mkBitExtractor 3 0 2 2 srcBiasPrev 3 5 3).
Proof. reflexivity. Qed.

Example New_4_4 :
  New 4 4 = Some (mkBitExtractor 4 0 1 1 srcAligned 0 8 15).
Proof. reflexivity. Qed.

(** TestBitExtractor_panic *)
Example New_panics :
  New (-1) 0 = None /\ New 1 0 = None /\ New 1 (-1) = None /\
  New (-1) 1 = None /\ New (2 ^ 63 - 1) (2 ^ 63 - 1) = None.
Proof. repeat split. Qed.

(** TestBitExtractor_Extract, on the data 00FF and FCDF. *)
Example Extract_vectors :
  (be ← New 0 12; Extract be [0; 255]) = Some [0; 15] /\
  (be ← New 2 12; Extract be [0; 255]) = Some [0; 63] /\
  (be ← New 5 9; Extract be [0; 255]) = Some [0; 63] /\
  (be ← New 5 9; Extract be [252; 223]) = Some [1; 55] /\
  (be ← New 5 2; Extract be [252; 223]) = Some [2] /\
  (be ← New 5 1; Extract be [252; 223]) = Some [1] /\
  (be ← New 11 2; Extract be [252; 223]) = Some [3] /\
  (be ← New 5 9; Extract be [223]) = None.
Proof. repeat split; vm_compute; reflexivity. Qed.

(** TestDecodeSGTIN: a UPC-A tag in both schemes, and the three tags that
    must fail to decode. *)
Example decode_UPC_A :
  (r ← DecodeSGTINString "30143639F84191AD22901607";
   Some (GTIN r.1, URI r.1, ValidateRanges r.1, r.2))
  = Some ("00888446671424", "urn:epc:id:sgtin:0888446.067142.193853396487",
          Some None, None).
Proof. vm_compute. reflexivity. Qed.

Example decode_SGTIN198_alpha :
  (r ← DecodeSGTINString
         "36143639F84191A465D9B37A176C5EB1769D72E557D52E5CBC";
   Some (GTIN r.1, URI r.1, ValidateRanges r.1, r.2))
  = Some ("00888446671424",
          "urn:epc:id:sgtin:0888446.067142.Hello!;1=1;'..*_*..%2F",
          Some None, None).
Proof. vm_compute. reflexivity. Qed.

Example decode_failures :
  snd <$> DecodeSGTINString "E2801160600002054CC2096F"
    = Some (Some (ErrHeader 226)) /\
  snd <$> DecodeSGTINString "30180000400000400000000011"
    = Some (Some (ErrSGTIN96Length 13)) /\
  snd <$> DecodeSGTINString "301C00004000004000000001"
    = Some (Some (ErrInvalidPartition 7)).
Proof. repeat split; vm_compute; reflexivity. Qed.

(** TestEscapeGS1 and TestUnescapeGS1 *)
Example escape_vectors :
  EscapeGS1 "lorem_% ipsum" = "lorem_%25 ipsum" /\
  EscapeGS1 "hello world" = "hello world" /\
  UnescapeGS1 "hello%22world%10" = stringOf
    [104; 101; 108; 108; 111; 34; 119; 111; 114; 108; 100; 37; 49; 48] /\
  UnescapeGS1 "%10" = "%10".
Proof. repeat split; vm_compute; reflexivity. Qed.

(** TestDecodeNulls: a character after a null sets the flag. *)
Example DecodeASCIIAt_char_after_null :
  DecodeASCIIAt [1; 132] 0 = Some (stringOf [0; 97], 0, true) /\
  DecodeASCIIAt [194; 0] 0 = Some (stringOf [97; 0], 1, false).
Proof. repeat split; vm_compute; reflexivity. Qed.

End RepositoryTests.

Section BitFacts.
Import GoInt Mem Bitextract.

Lemma bigEndian_snoc l x : bigEndian (l ++ [x]) = bigEndian l * 256 + x.
Proof. unfold bigEndian. by rewrite foldl_app. Qed.

Lemma testbit_byte_high x k : isByte x -> 8 <= k -> Z.testbit x k = false.
Proof.
  intros [H0 H1] Hk. destruct (Z.eq_dec x 0) as [->|Hx]; [apply Z.bits_0|].
  apply Z.bits_above_log2; [lia|].
  assert (Z.log2 x < 8); [|lia]. apply Z.log2_lt_pow2; lia.
Qed.

Lemma isByte_bits x :
  0 <= x -> (forall k, 8 <= k -> Z.testbit x k = false) -> isByte x.
Proof.
  intros H0 Hb. split; [done|].
  destruct (Z.eq_dec x 0) as [->|Hx]; [lia|].
  change 256 with (2 ^ 8). apply Z.log2_lt_pow2; [lia|].
  destruct (Z_lt_ge_dec (Z.log2 x) 8) as [|Hge]; [done|].
  pose proof (Z.bit_log2 x ltac:(lia)) as Hl. rewrite Hb in Hl by lia. done.
Qed.

(** Bit [k] of [a * 256 + x] for a byte [x]. *)
Lemma testbit_shift_byte a x k :
  isByte x -> 0 <= k ->
  Z.testbit (a * 256 + x) k
  = if k <? 8 then Z.testbit x k else Z.testbit a (k - 8).
Proof.
  intros Hx Hk. destruct (Z.ltb_spec k 8).
  - rewrite <- (Z.mod_pow2_bits_low (a * 256 + x) 8 k) by lia.
    change (2 ^ 8) with 256. rewrite Z.add_comm, Z.mod_add by lia.
    rewrite Z.mod_small by (unfold isByte in Hx; lia). done.
  - replace k with (k - 8 + 8) at 1 by lia.
    rewrite <- Z.div_pow2_bits by lia. change (2 ^ 8) with 256.
    rewrite Z.add_comm, Z.div_add by lia.
    rewrite Z.div_small by (unfold isByte in Hx; lia). done.
Qed.

Lemma bigEndian_nonneg l : Forall isByte l -> 0 <= bigEndian l.
Proof.
  induction l as [|x l IH] using rev_ind; [done|].
  intros H. apply Forall_app in H as [Hl Hx].
  apply Forall_inv in Hx. rewrite bigEndian_snoc.
  specialize (IH Hl). unfold isByte in Hx. lia.
Qed.

(** Bit [k] of a big-endian number is bit [k mod 8] of byte [k / 8] from the
    end. *)
Lemma bigEndian_testbit l k :
  Forall isByte l -> 0 <= k ->
  Z.testbit (bigEndian l) k
  = if k / 8 <? Z.of_nat (length l)
    then Z.testbit (nthByte l (Z.of_nat (length l) - 1 - k / 8)) (k mod 8)
    else false.
Proof.
  revert k. induction l as [|x l IH] using rev_ind; intros k Hl Hk.
  { unfold bigEndian, nthByte. cbn [foldl length]. rewrite lookup_nil. cbn. rewrite !Z.bits_0. by destruct (_ <? _). }
  apply Forall_app in Hl as [Hl Hx]. apply Forall_inv in Hx.
  rewrite bigEndian_snoc, testbit_shift_byte by done.
  rewrite length_app. cbn [length].
  destruct (Z.ltb_spec k 8) as [Hk8|Hk8].
  - assert (k / 8 = 0) as -> by zdm.
    destruct (Z.ltb_spec 0 (Z.of_nat (length l + 1))); [|lia].
    unfold nthByte.
    replace (Z.to_nat (Z.of_nat (length l + 1) - 1 - 0)) with (length l) by lia.
    rewrite lookup_app_r, Nat.sub_diag by lia. cbn.
    by rewrite Z.mod_small by lia.
  - rewrite IH by (done || lia).
    replace ((k - 8) / 8) with (k / 8 - 1) by zdm.
    replace ((k - 8) mod 8) with (k mod 8) by zdm.
    destruct (Z.ltb_spec (k / 8 - 1) (Z.of_nat (length l)));
      destruct (Z.ltb_spec (k / 8) (Z.of_nat (length l + 1))); try lia; try done.
    f_equal. unfold nthByte.
    rewrite lookup_app_l by zdm. do 2 f_equal. lia.
Qed.

End BitFacts.

Section FieldBits.
Import GoInt Mem Bitextract.

Lemma isByte_mod x : isByte (x mod 256).
Proof. unfold isByte. pose proof (Z.mod_pos_bound x 256). lia. Qed.

Lemma isByte_shr8 x k : isByte x -> 0 <= k -> isByte (shr8 x k).
Proof.
  intros [H0 H1] Hk. unfold shr8. rewrite Z.shiftr_div_pow2 by done.
  assert (0 < 2 ^ k) by (apply Z.pow_pos_nonneg; lia).
  split; [apply Z.div_pos; lia|].
  apply Z.le_lt_trans with x; [|done].
  apply Z.div_le_upper_bound; nia.
Qed.

Lemma isByte_lor x y : isByte x -> isByte y -> isByte (Z.lor x y).
Proof.
  intros Hx Hy. apply isByte_bits.
  - apply Z.lor_nonneg. unfold isByte in *. lia.
  - intros k Hk. by rewrite Z.lor_spec, !testbit_byte_high.
Qed.

Lemma isByte_land x y : isByte x -> 0 <= y -> isByte (Z.land x y).
Proof.
  intros Hx Hy. apply isByte_bits.
  - apply Z.land_nonneg. unfold isByte in *. lia.
  - intros k Hk. by rewrite Z.land_spec, testbit_byte_high.
Qed.

Lemma isByte_nthByte l i : Forall isByte l -> isByte (nthByte l i).
Proof.
  intros Hl. unfold nthByte. destruct (l !! Z.to_nat i) as [x|] eqn:E; cbn.
  - by eapply Forall_lookup_1.
  - unfold isByte; lia.
Qed.

Lemma shr8_testbit x r t : 0 <= t -> Z.testbit (shr8 x r) t = Z.testbit x (t + r).
Proof. intros. unfold shr8. by rewrite Z.shiftr_spec. Qed.

Lemma shl8_testbit x n t :
  0 <= t < 8 -> Z.testbit (shl8 x n) t = Z.testbit x (t - n).
Proof.
  intros. unfold shl8. change 256 with (2 ^ 8).
  rewrite Z.mod_pow2_bits_low by lia. by rewrite Z.shiftl_spec by lia.
Qed.

(** A bit of the blend of two bytes comes from the first byte or from the
    second, according to its position. *)
Lemma blend_testbit be a b t :
  isByte a -> isByte b -> 0 < rshift be <= 7 -> 0 <= t < 8 ->
  Z.testbit (blend be a b) t
  = if t + rshift be <? 8 then Z.testbit b (t + rshift be)
    else Z.testbit a (t + rshift be - 8).
Proof.
  intros Ha Hb Hr Ht. unfold blend.
  rewrite Z.lor_spec, shl8_testbit, shr8_testbit by lia.
  replace (t - (8 - rshift be)) with (t + rshift be - 8) by lia.
  destruct (Z.ltb_spec (t + rshift be) 8).
  - by rewrite Z.testbit_neg_r by lia.
  - rewrite (testbit_byte_high b) by (done || lia). apply orb_false_r.
Qed.

Lemma mask_testbit start len t :
  1 <= len -> 0 <= t < 8 ->
  Z.testbit (mask (builtExtractor start len)) t
  = (t <? (if len mod 8 =? 0 then 8 else len mod 8)).
Proof.
  intros Hl Ht. cbn [mask builtExtractor].
  destruct (Z.eqb_spec (len mod 8) 0).
  - change 255 with (Z.ones 8). rewrite Z.ones_spec_low by lia.
    symmetry. apply Z.ltb_lt. lia.
  - assert (0 < len mod 8 < 8) by zdm.
    replace (2 ^ (len mod 8) - 1) with (Z.ones (len mod 8))
      by (rewrite Z.ones_equiv; lia).
    destruct (Z.ltb_spec t (len mod 8)).
    + apply Z.ones_spec_low. lia.
    + apply Z.ones_spec_high. lia.
Qed.

End FieldBits.

Section FieldValue.
Import GoInt Mem Bitextract.

Lemma rawByte_testbit start len src i t :
  valid_bounds start len -> Forall isByte src ->
  0 <= i < (len + 7) / 8 -> 0 <= t < 8 ->
  8 * ((len + 7) / 8 - 1 - i) + t < len ->
  Z.testbit (rawByte (builtExtractor start len) src i) t
  = Z.testbit
      (nthByte src ((start + len - 1) / 8
                    - (8 * ((len + 7) / 8 - 1 - i) + t
                       + (7 - (start + len - 1) mod 8)) / 8))
      ((8 * ((len + 7) / 8 - 1 - i) + t + (7 - (start + len - 1) mod 8)) mod 8).
Proof.
  intros (Hs & Hl & _) Hsrc Hi Ht Hk.
  unfold rawByte. cbn [bias byteStart builtExtractor].
  remember ((start + len - 1) mod 8) as e eqn:He.
  remember ((start + len - 1) / 8) as E eqn:HE.
  remember (start / 8) as b eqn:Hb.
  remember ((len + 7) / 8) as D eqn:HD.
  assert (0 <= e < 8) as Hebd by (subst e; zdm).
  assert (start + len - 1 = 8 * E + e) as HEe by (subst e E; zdm).
  assert (8 * b <= start < 8 * b + 8) as Hbb by (subst b; zdm).
  assert (8 * D <= len + 7 < 8 * D + 8) as HDD by (subst D; zdm).
  assert (rshift (builtExtractor start len) = 7 - e) as Hr by (by subst e).
  clear He HE Hb HD.
  set (k := 8 * (D - 1 - i) + t) in *.
  destruct (Z.eqb_spec e 7) as [He7|He7].
  { change (srcAligned =? srcAligned) with true. cbn match.
    apply (f_equal2 Z.testbit); [apply (f_equal (nthByte src))|]; subst k; zdm. }
  destruct (Z.eqb_spec (E - b + 1) D) as [Hsd|Hsd].
  - change (srcBiasPrev =? srcAligned) with false.
    change (srcBiasPrev =? srcBiasPrev) with true. cbn match.
    destruct (Z.eqb_spec i 0) as [->|Hi0].
    + rewrite shr8_testbit by lia. rewrite Hr.
      apply (f_equal2 Z.testbit); [apply (f_equal (nthByte src))|]; subst k; zdm.
    + rewrite blend_testbit; rewrite ?Hr;
        try (apply isByte_nthByte; done); try lia.
      destruct (Z.ltb_spec (t + (7 - e)) 8);
        (apply (f_equal2 Z.testbit); [apply (f_equal (nthByte src))|]; subst k; zdm).
  - change (srcBiasNext =? srcAligned) with false.
    change (srcBiasNext =? srcBiasPrev) with false. cbn match.
    rewrite blend_testbit; rewrite ?Hr;
      try (apply isByte_nthByte; done); try lia.
    destruct (Z.ltb_spec (t + (7 - e)) 8);
      (apply (f_equal2 Z.testbit); [apply (f_equal (nthByte src))|]; subst k; zdm).
Qed.

Lemma isByte_rawByte be src i :
  Forall isByte src -> 0 <= rshift be -> isByte (rawByte be src i).
Proof.
  intros Hsrc Hr. unfold rawByte, blend.
  repeat case_match;
    repeat first [ apply isByte_nthByte; done | apply isByte_lor
                 | apply isByte_mod | apply isByte_shr8; [|done] ].
Qed.

Lemma isByte_fieldByte start len src i :
  valid_bounds start len -> Forall isByte src ->
  isByte (fieldByte (builtExtractor start len) src i).
Proof.
  intros (Hs & Hl & _) Hsrc. unfold fieldByte.
  assert (0 <= rshift (builtExtractor start len)) by (cbn; zdm).
  case_match; [apply isByte_land|]; try by apply isByte_rawByte.
  cbn. case_match; [lia|].
  assert (0 < 2 ^ (len mod 8)) by (apply Z.pow_pos_nonneg; zdm). lia.
Qed.

(** Bit [t] of destination byte [i] is bit [k = 8 (dstLen - 1 - i) + t] of the
    field, counted from its last bit; the mask clears the bits beyond the
    field's length. *)
Lemma fieldByte_testbit start len src i t :
  valid_bounds start len -> Forall isByte src ->
  0 <= i < (len + 7) / 8 -> 0 <= t < 8 ->
  Z.testbit (fieldByte (builtExtractor start len) src i) t
  = if 8 * ((len + 7) / 8 - 1 - i) + t <? len
    then Z.testbit
      (nthByte src ((start + len - 1) / 8
                    - (8 * ((len + 7) / 8 - 1 - i) + t
                       + (7 - (start + len - 1) mod 8)) / 8))
      ((8 * ((len + 7) / 8 - 1 - i) + t + (7 - (start + len - 1) mod 8)) mod 8)
    else false.
Proof.
  intros Hvb Hsrc Hi Ht. pose proof Hvb as (Hs & Hl & _).
  unfold fieldByte. destruct (Z.eqb_spec i 0) as [->|Hi0].
  - rewrite Z.land_spec, mask_testbit by lia.
    destruct (Z.ltb_spec (8 * ((len + 7) / 8 - 1 - 0) + t) len) as [Hk|Hk].
    + rewrite rawByte_testbit by (done || lia).
      replace (t <? _) with true; [apply andb_true_r|].
      symmetry. apply Z.ltb_lt. case_match; zdm.
    + replace (t <? _) with false; [apply andb_false_r|].
      symmetry. apply Z.ltb_ge. destruct (Z.eqb_spec (len mod 8) 0); zdm.
  - destruct (Z.ltb_spec (8 * ((len + 7) / 8 - 1 - i) + t) len) as [Hk|Hk].
    + by apply rawByte_testbit.
    + exfalso. zdm.
Qed.

Lemma nthByte_fieldBytes be src i :
  0 <= i < dstLen be -> nthByte (fieldBytes be src) i = fieldByte be src i.
Proof.
  intros Hi. unfold nthByte, fieldBytes. rewrite list_lookup_fmap.
  rewrite (lookup_seqZ_lt _ _ (Z.to_nat i)) by lia. cbn. f_equal. lia.
Qed.

Lemma fieldBytes_bytes start len src :
  valid_bounds start len -> Forall isByte src ->
  Forall isByte (fieldBytes (builtExtractor start len) src).
Proof.
  intros Hvb Hsrc. unfold fieldBytes. apply Forall_fmap, Forall_forall.
  intros i _. by apply isByte_fieldByte.
Qed.

(** The bytes of the field, read as a big-endian number, are the number the
    bits [start .. start + len - 1] of the source spell. *)
Lemma fieldBytes_value start len src :
  valid_bounds start len -> Forall isByte src ->
  start + len <= 8 * Z.of_nat (length src) ->
  bigEndian (fieldBytes (builtExtractor start len) src)
  = bitsValue src start len.
Proof.
  intros Hvb Hsrc Hfit. pose proof Hvb as (Hs & Hl & _).
  pose proof (fieldBytes_bytes start len src Hvb Hsrc) as Hfb.
  apply Z.bits_inj'. intros k Hk. unfold bitsValue.
  remember (Z.of_nat (length src)) as L eqn:HL.
  rewrite bigEndian_testbit by done.
  assert (0 < (len + 7) / 8) as HD by zdm.
  assert (Z.of_nat (length (fieldBytes (builtExtractor start len) src))
          = (len + 7) / 8) as ->.
  { unfold fieldBytes. rewrite length_fmap, length_seqZ.
    cbn [dstLen builtExtractor]. lia. }
  destruct (Z.ltb_spec k len) as [Hkl|Hkl].
  2:{ rewrite Z.mod_pow2_bits_high by lia.
      destruct (Z.ltb_spec (k / 8) ((len + 7) / 8)) as [Hlt|]; [|done].
      rewrite nthByte_fieldBytes by (cbn [dstLen builtExtractor]; zdm).
      rewrite fieldByte_testbit by (done || zdm).
      destruct (Z.ltb_spec (8 * ((len + 7) / 8 - 1 - ((len + 7) / 8 - 1 - k / 8))
                            + k mod 8) len); [exfalso; zdm|done]. }
  rewrite Z.mod_pow2_bits_low by lia.
  rewrite Z.div_pow2_bits by lia.
  rewrite bigEndian_testbit by (done || lia). rewrite <- HL.
  destruct (Z.ltb_spec (k / 8) ((len + 7) / 8)) as [Hlt|]; [|exfalso; zdm].
  rewrite nthByte_fieldBytes by (cbn [dstLen builtExtractor]; zdm).
  rewrite fieldByte_testbit by (done || zdm).
  destruct (Z.ltb_spec (8 * ((len + 7) / 8 - 1 - ((len + 7) / 8 - 1 - k / 8))
                        + k mod 8) len); [|exfalso; zdm].
  destruct (Z.ltb_spec ((k + (8 * L - start - len)) / 8) L); [|exfalso; zdm].
  apply (f_equal2 Z.testbit); [apply (f_equal (nthByte src))|]; zdm.
Qed.

End FieldValue.

Section ExtractNumbers.
Import GoInt Mem Bitextract.

Lemma Extract_value be src :
  wf_extractor be ->
  srcLen be + byteStart be <= Z.of_nat (length src) ->
  Extract be src = Some (fieldBytes be src).
Proof.
  intros Hwf Hsrc. pose proof Hwf as (Hbs & Hdl & _).
  unfold Extract, ByteLength.
  destruct (Z.ltb_spec (dstLen be) 0); [lia|].
  set (n := Z.to_nat (dstLen be)).
  set (d := Slice 0 (dstLen be) (dstLen be)).
  set (s := Slice n (Z.of_nat (length src)) (Z.of_nat (length src))).
  set (m := replicate n 0 ++ src).
  assert (length m = (n + length src)%nat) as Hm
    by (unfold m; rewrite length_app, length_replicate; lia).
  assert (valid d m) as Hvd by (unfold valid, d, n in *; cbn; lia).
  assert (valid s m) as Hvs by (unfold valid, s, n in *; cbn; lia).
  assert (srcLen be + byteStart be <= len s) as Hs1 by (unfold s; cbn; lia).
  assert (dstLen be <= len d) as Hd1 by (unfold d; cbn; lia).
  destruct (ExtractTo_spec be d s m Hwf Hvd Hvs Hs1 Hd1)
    as (m' & Hex & Hlen & Hout & Hin).
  rewrite Hex. cbn [mbind option_bind]. f_equal.
  apply list_eq. intros j.
  destruct (decide (j < n)%nat) as [Hj|Hj].
  2:{ rewrite lookup_take_ge by lia. symmetry. apply lookup_ge_None.
      unfold fieldBytes. rewrite length_fmap, length_seqZ. lia. }
  rewrite lookup_take_lt by done. unfold fieldBytes.
  rewrite list_lookup_fmap, (lookup_seqZ_lt _ _ j) by lia.
  cbn [fmap option_fmap option_map].
  replace j with (addr d (0 + Z.of_nat j)) at 1 by (unfold d, addr; cbn; lia).
  rewrite Hin; [| unfold writesApartFromReads, d, s, addr, n; cbn; lia | lia].
  do 2 f_equal.
  pose proof (bytes_of_fresh_layout (replicate n 0) src) as Hb.
  rewrite length_replicate in Hb. exact Hb.
Qed.

Lemma bigEndian_zeros k l : bigEndian (replicate k 0 ++ l) = bigEndian l.
Proof.
  unfold bigEndian. rewrite foldl_app.
  assert (foldl (fun acc x => acc * 256 + x) 0 (replicate k 0) = 0) as ->; [|done].
  induction k as [|k IH]; [done|]. cbn. apply IH.
Qed.

Lemma bitsValue_range src start len :
  0 <= len -> 0 <= bitsValue src start len < 2 ^ len.
Proof.
  intros Hl. unfold bitsValue. apply Z.mod_pos_bound.
  by apply Z.pow_pos_nonneg.
Qed.

Lemma built_srcLen_fits start len n :
  valid_bounds start len -> start + len <= 8 * n ->
  srcLen (builtExtractor start len) + byteStart (builtExtractor start len) <= n.
Proof. intros (Hs & Hl & _) Hn. cbn. zdm. Qed.

(** X1. For every start >= 0 and length >= 1 whose sum is an int, and every
    byte sequence with at least start+length bits, [New] builds an extractor
    and [Extract] returns ceil(length/8) bytes which, read as a big-endian
    number, are the number the bits start .. start+length-1 of the source
    spell (bit 0 being the most significant bit of byte 0); the bits of the
    first byte beyond the field are zero. *)
Theorem Extract_bits start len src :
  valid_bounds start len -> Forall isByte src ->
  start + len <= 8 * Z.of_nat (length src) ->
  exists be out,
    New start len = Some be /\ Extract be src = Some out /\
    Z.of_nat (length out) = (len + 7) / 8 /\ Forall isByte out /\
    bigEndian out = bitsValue src start len /\
    bigEndian out < 2 ^ len.
Proof.
  intros Hvb Hsrc Hfit. pose proof Hvb as (Hs & Hl & _).
  exists (builtExtractor start len), (fieldBytes (builtExtractor start len) src).
  split; [by apply New_built|].
  split; [apply Extract_value; [by apply built_wf|by apply built_srcLen_fits]|].
  split.
  { unfold fieldBytes. rewrite length_fmap, length_seqZ.
    cbn [dstLen builtExtractor]. zdm. }
  split; [by apply fieldBytes_bytes|].
  rewrite fieldBytes_value by done.
  split; [done|]. apply bitsValue_range. lia.
Qed.

Lemma Extract_bits_witness :
  exists be out,
    New 3 10 = Some be /\ Extract be [171; 205] = Some out /\
    Z.of_nat (length out) = (10 + 7) / 8 /\ Forall isByte out /\
    bigEndian out = bitsValue [171; 205] 3 10 /\
    bigEndian out < 2 ^ 10.
Proof.
  apply (Extract_bits 3 10 [171; 205]).
  - unfold valid_bounds, MaxInt. lia.
  - repeat constructor; unfold isByte; lia.
  - cbn. lia.
Defined.

(** [ExtractUInt64] with an extractor built for at most 64 bits. *)
Lemma ExtractUInt64_builtExtractor start len src :
  valid_bounds start len -> len <= 64 -> Forall isByte src ->
  start + len <= 8 * Z.of_nat (length src) ->
  ExtractUInt64 (builtExtractor start len) src
  = Some (bitsValue src start len).
Proof.
  intros Hvb H64 Hsrc Hfit. pose proof Hvb as (Hs & Hl & _).
  rewrite ExtractUInt64_value;
    [|by apply built_wf|cbn; zdm|by apply built_srcLen_fits].
  f_equal. change BigEndian_Uint64 with bigEndian.
  rewrite bigEndian_zeros. by apply fieldBytes_value.
Qed.

(** X2. Under the same conditions and for a length of at most 64 bits,
    [ExtractUInt64] returns the number the bits start .. start+length-1 of
    the source spell. *)
Theorem ExtractUInt64_bits start len src :
  valid_bounds start len -> len <= 64 -> Forall isByte src ->
  start + len <= 8 * Z.of_nat (length src) ->
  exists be,
    New start len = Some be /\
    ExtractUInt64 be src = Some (bitsValue src start len).
Proof.
  intros Hvb H64 Hsrc Hfit.
  exists (builtExtractor start len). split; [by apply New_built|].
  by apply ExtractUInt64_builtExtractor.
Qed.

Lemma ExtractUInt64_bits_witness :
  exists be,
    New 3 10 = Some be /\
    ExtractUInt64 be [171; 205] = Some (bitsValue [171; 205] 3 10).
Proof.
  apply (ExtractUInt64_bits 3 10 [171; 205]).
  - unfold valid_bounds, MaxInt. lia.
  - lia.
  - repeat constructor; unfold isByte; lia.
  - cbn. lia.
Defined.

(** X3. A field wider than 64 bits does not fit the 8-byte scratch buffer:
    [ExtractUInt64] panics, whatever the source. *)
Theorem ExtractUInt64_wide_panics start len src :
  valid_bounds start len -> 64 < len ->
  exists be, New start len = Some be /\ ExtractUInt64 be src = None.
Proof.
  intros Hvb H64. pose proof Hvb as (Hs & Hl & _).
  exists (builtExtractor start len). split; [by apply New_built|].
  unfold ExtractUInt64, resliceFrom, reslice.
  cbn [Mem.len cap dstLen builtExtractor].
  destruct (Z.leb_spec 0 (8 - (len + 7) / 8)) as [H|H]; [exfalso; zdm|].
  done.
Qed.

Lemma ExtractUInt64_wide_panics_witness :
  exists be, New 0 65 = Some be /\ ExtractUInt64 be (replicate 9 255) = None.
Proof.
  apply ExtractUInt64_wide_panics; [unfold valid_bounds, MaxInt|]; lia.
Defined.

End ExtractNumbers.

Section ExploderFacts.
Import GoInt Mem Bitextract.

Lemma sumZ_app l k : sumZ (l ++ k) = sumZ l + sumZ k.
Proof. unfold sumZ. induction l as [|x l IH]; cbn; lia. Qed.

Lemma sumZ_nonneg l : Forall (fun w => 0 <= w) l -> 0 <= sumZ l.
Proof. unfold sumZ. induction 1; cbn; lia. Qed.

Lemma byteLens_pos widths :
  Forall (fun w => 1 <= w) widths -> Forall (fun d => 1 <= d) (byteLens widths).
Proof.
  intros H. unfold byteLens. apply Forall_fmap.
  eapply Forall_impl; [exact H|]. intros w Hw. cbn. zdm.
Qed.

Lemma sumZ_byteLens_bounds widths :
  Forall (fun w => 1 <= w) widths ->
  0 <= sumZ (byteLens widths) <= sumZ widths.
Proof.
  unfold sumZ, byteLens. induction 1 as [|w l Hw Hl IH]; cbn; [lia|].
  assert (1 <= (w + 7) / 8 <= w) by zdm. lia.
Qed.

Lemma length_builtFields s widths :
  length (builtFields s widths) = length widths.
Proof. revert s. induction widths as [|w l IH]; intros s; cbn; [done|]. by rewrite IH. Qed.

(** Field [i] of the fields built for [widths] from bit [s] on. *)
Lemma lookup_builtFields s widths i w :
  widths !! i = Some w ->
  builtFields s widths !! i
  = Some (builtExtractor (s + fieldStart widths i) w).
Proof.
  revert s i. induction widths as [|x l IH]; intros s i H; [done|].
  destruct i as [|i]; cbn in *.
  - injection H as ->. unfold fieldStart, sumZ. cbn. do 2 f_equal. lia.
  - rewrite (IH _ _ H). unfold fieldStart, sumZ. cbn. do 2 f_equal. lia.
Qed.

(** The loop of [SetWidths] on positive widths that do not overflow: it
    fills the entries from [i] on with the fields that follow those already
    set, and goes on with the widths that remain. *)
Lemma SetWidths_loop_app widths rest : forall i e pre tl,
  Forall (fun w => 1 <= w) widths ->
  0 <= i -> length pre = Z.to_nat i ->
  extractors e = pre ++ replicate (length widths) zeroBitExtractor ++ tl ->
  0 <= bitLength e -> bitLength e + sumZ widths <= MaxInt ->
  in_range (expByteLen e) ->
  expByteLen e + sumZ (byteLens widths) <= MaxInt ->
  SetWidths_loop i (widths ++ rest) e
  = SetWidths_loop (i + Z.of_nat (length widths)) rest
      {| bitLength := bitLength e + sumZ widths;
         expByteLen := expByteLen e + sumZ (byteLens widths);
         extractors := pre ++ builtFields (bitLength e) widths ++ tl |}.
Proof.
  induction widths as [|w ws IH];
    intros i e pre tl Hpos Hi Hpre Hext Hbl Hsum Hexp Hexps.
  - cbn. destruct e as [bl eb exts]. cbn in *.
    rewrite Z.add_0_r. do 2 f_equal; try lia. done.
  - apply Forall_cons in Hpos as [Hw Hrest].
    pose proof (sumZ_nonneg ws) as Hrn.
    assert (0 <= sumZ ws) as Hr0.
    { apply Hrn. eapply Forall_impl; [exact Hrest|]. cbn. lia. }
    pose proof (sumZ_byteLens_bounds ws Hrest) as Hbr.
    assert (1 <= (w + 7) / 8 <= w) as Hwb by zdm.
    change (sumZ (w :: ws)) with (w + sumZ ws) in *.
    change (sumZ (byteLens (w :: ws)))
      with ((w + 7) / 8 + sumZ (byteLens ws)) in *.
    cbn [SetWidths_loop app]. destruct (Z.leb_spec w 0); [lia|].
    rewrite New_built by (unfold valid_bounds; lia).
    cbn [mbind option_bind].
    unfold ByteLength. cbn [dstLen builtExtractor].
    rewrite !add_id by zdm.
    rewrite (IH (i + 1) _ (pre ++ [builtExtractor (bitLength e) w]) tl);
      cbn [bitLength expByteLen extractors]; try done; try lia.
    + cbn [length builtFields]. rewrite <- app_assoc. cbn [app].
      f_equal; [lia|]. f_equal; lia.
    + rewrite length_app. cbn. lia.
    + rewrite Hext. cbn [replicate length].
      replace (Z.to_nat i) with (length pre + 0)%nat by lia.
      rewrite insert_app_r. cbn. by rewrite <- app_assoc.
    + zdm.
Qed.

Lemma SetWidths_loop_built widths i e pre tl :
  Forall (fun w => 1 <= w) widths ->
  0 <= i -> length pre = Z.to_nat i ->
  extractors e = pre ++ replicate (length widths) zeroBitExtractor ++ tl ->
  0 <= bitLength e -> bitLength e + sumZ widths <= MaxInt ->
  in_range (expByteLen e) ->
  expByteLen e + sumZ (byteLens widths) <= MaxInt ->
  SetWidths_loop i widths e
  = Some ({| bitLength := bitLength e + sumZ widths;
             expByteLen := expByteLen e + sumZ (byteLens widths);
             extractors := pre ++ builtFields (bitLength e) widths ++ tl |},
          None).
Proof.
  intros. rewrite <- (app_nil_r widths) at 1.
  by rewrite (SetWidths_loop_app widths [] i e pre tl).
Qed.

(** A run of the loop that ends without an error saw positive widths only,
    and their sum did not overflow. *)
Lemma SetWidths_loop_inv widths : forall i e e',
  Forall in_range widths ->
  0 <= bitLength e -> in_range (bitLength e) ->
  SetWidths_loop i widths e = Some (e', None) ->
  Forall (fun w => 1 <= w) widths /\ bitLength e + sumZ widths <= MaxInt.
Proof.
  induction widths as [|w rest IH]; intros i e e' Hall Hb Hbr Hrun.
  - split; [constructor|]. unfold sumZ. cbn. unfold in_range in Hbr. lia.
  - apply Forall_cons in Hall as [Hw Hrest]. cbn [SetWidths_loop] in Hrun.
    destruct (Z.leb_spec w 0); [discriminate|].
    destruct (New (bitLength e) w) as [be|] eqn:Hnew; [|discriminate].
    destruct (New_inv _ _ _ Hbr Hw Hnew) as [(H1 & H2 & H3) ->].
    cbn [mbind option_bind] in Hrun.
    apply IH in Hrun; cbn [bitLength]; try done.
    + cbn [bitLength] in Hrun.
      rewrite add_id in Hrun by zdm. destruct Hrun as [Hp Hs].
      split; [constructor; [lia|done]|].
      change (sumZ (w :: rest)) with (w + sumZ rest). lia.
    + rewrite add_id by zdm. lia.
    + rewrite add_id by zdm. zdm.
Qed.

(** X4. For widths that are ints, [NewBitExploder] returns an exploder and
    no error exactly when the list is not empty, every width is at least 1
    and the sum of the widths is an int; the exploder then has the sum as
    its bit length, the sum of the fields' byte lengths as its exploded byte
    length, and one field per width, each starting at the bit where the one
    before ends. *)
Theorem NewBitExploder_ok_iff widths e :
  Forall in_range widths ->
  NewBitExploder widths = Some (e, None) <->
  widths <> [] /\ Forall (fun w => 1 <= w) widths /\
  sumZ widths <= MaxInt /\
  e = {| bitLength := sumZ widths;
         expByteLen := sumZ (byteLens widths);
         extractors := builtFields 0 widths |}.
Proof.
  intros Hall.
  assert (widths <> [] -> Forall (fun w => 1 <= w) widths ->
            sumZ widths <= MaxInt ->
            NewBitExploder widths
            = Some ({| bitLength := sumZ widths;
                       expByteLen := sumZ (byteLens widths);
                       extractors := builtFields 0 widths |}, None)) as Hok.
  { intros Hne Hpos Hsum. unfold NewBitExploder, SetWidths.
    destruct (Z.eqb_spec (Z.of_nat (length widths)) 0) as [H0|_].
    { destruct widths; [done|cbn in H0; lia]. }
    pose proof (sumZ_byteLens_bounds widths Hpos) as Hb.
    rewrite (SetWidths_loop_built widths 0 _ [] []);
      cbn [bitLength expByteLen extractors zeroBitExploder app];
      rewrite ?app_nil_r; try done; try lia; try zdm.
  }
  split.
  - intros Hnew. pose proof Hnew as Hrun. unfold NewBitExploder, SetWidths in Hrun.
    destruct (Z.eqb_spec (Z.of_nat (length widths)) 0) as [H0|Hne];
      [discriminate|].
    apply SetWidths_loop_inv in Hrun; cbn [bitLength]; [|done|lia|zdm].
    destruct Hrun as [Hpos Hsum]. cbn [bitLength] in Hsum.
    assert (widths <> []) as Hnil by (intros ->; cbn in Hne; lia).
    split; [done|]. split; [done|]. split; [lia|].
    rewrite Hok in Hnew by (done || lia). congruence.
  - intros (Hne & Hpos & Hsum & ->). by apply Hok.
Qed.

Lemma NewBitExploder_ok_iff_witness :
  NewBitExploder [8; 48; 40]
  = Some ({| bitLength := 96; expByteLen := 12;
             extractors := builtFields 0 [8; 48; 40] |}, None) <->
  [8; 48; 40] <> [] /\ Forall (fun w => 1 <= w) [8; 48; 40] /\
  sumZ [8; 48; 40] <= MaxInt /\
  {| bitLength := 96; expByteLen := 12;
     extractors := builtFields 0 [8; 48; 40] |}
  = {| bitLength := sumZ [8; 48; 40];
       expByteLen := sumZ (byteLens [8; 48; 40]);
       extractors := builtFields 0 [8; 48; 40] |}.
Proof.
  apply (NewBitExploder_ok_iff [8; 48; 40]).
  repeat constructor; unfold MinInt, MaxInt; lia.
Defined.

(** X5. [SetWidths] on an exploder that was set before replaces the fields
    and the bit length but adds to the exploded byte length, which is not
    reset: afterwards [ExplodedByteLength] is the old value plus the byte
    lengths of the new fields. *)
Theorem SetWidths_accumulates e widths :
  widths <> [] -> Forall (fun w => 1 <= w) widths ->
  sumZ widths <= MaxInt ->
  in_range (expByteLen e) ->
  expByteLen e + sumZ (byteLens widths) <= MaxInt ->
  exists e',
    SetWidths e widths = Some (e', None) /\
    BitLength e' = sumZ widths /\
    extractors e' = builtFields 0 widths /\
    ExplodedByteLength e' = ExplodedByteLength e + sumZ (byteLens widths).
Proof.
  intros Hne Hpos Hsum Hexp Hexps.
  exists {| bitLength := sumZ widths;
            expByteLen := expByteLen e + sumZ (byteLens widths);
            extractors := builtFields 0 widths |}.
  split; [|done]. unfold SetWidths.
  destruct (Z.eqb_spec (Z.of_nat (length widths)) 0) as [H0|_].
  { destruct widths; [done|cbn in H0; lia]. }
  rewrite (SetWidths_loop_built widths 0 _ [] []);
    cbn [bitLength expByteLen extractors app];
    rewrite ?app_nil_r; try done; lia.
Qed.

Lemma SetWidths_accumulates_witness :
  exists e',
    SetWidths {| bitLength := 96; expByteLen := 12;
                 extractors := builtFields 0 [8; 48; 40] |} [4; 4]
    = Some (e', None) /\
    BitLength e' = sumZ [4; 4] /\
    extractors e' = builtFields 0 [4; 4] /\
    ExplodedByteLength e' = 12 + sumZ (byteLens [4; 4]).
Proof.
  apply (SetWidths_accumulates
           {| bitLength := 96; expByteLen := 12;
              extractors := builtFields 0 [8; 48; 40] |} [4; 4]).
  - done.
  - repeat constructor; lia.
  - by vm_compute.
  - by vm_compute.
  - by vm_compute.
Defined.

(** [NewBitExploder] after a prefix of positive widths: the loop is at the
    next width, with the prefix's fields set. *)
Lemma NewBitExploder_prefix pre w post :
  Forall (fun x => 1 <= x) pre -> sumZ pre <= MaxInt ->
  NewBitExploder (pre ++ w :: post)
  = SetWidths_loop (Z.of_nat (length pre)) (w :: post)
      {| bitLength := sumZ pre;
         expByteLen := sumZ (byteLens pre);
         extractors :=
           builtFields 0 pre
           ++ replicate (S (length post)) zeroBitExtractor |}.
Proof.
  intros Hpos Hsum.
  pose proof (sumZ_byteLens_bounds pre Hpos) as Hb.
  unfold NewBitExploder, SetWidths.
  destruct (Z.eqb_spec (Z.of_nat (length (pre ++ w :: post))) 0) as [H0|_].
  { rewrite length_app in H0. cbn in H0. lia. }
  assert (in_range 0) as Hr0 by (unfold in_range, MinInt, MaxInt; lia).
  assert (0 + sumZ (byteLens pre) <= MaxInt) as Hr1 by lia.
  assert (replicate (length (pre ++ w :: post)) zeroBitExtractor
          = [] ++ replicate (length pre) zeroBitExtractor
               ++ replicate (S (length post)) zeroBitExtractor) as Hrep.
  { rewrite length_app. cbn [length app]. by rewrite replicate_add. }
  exact (SetWidths_loop_app pre (w :: post) 0
           {| bitLength := 0; expByteLen := expByteLen zeroBitExploder;
              extractors := replicate (length (pre ++ w :: post))
                                      zeroBitExtractor |}
           [] (replicate (S (length post)) zeroBitExtractor)
           Hpos ltac:(lia) eq_refl Hrep ltac:(cbn; lia) ltac:(cbn; lia)
           Hr0 Hr1).
Qed.

(** X6. A width that is not positive, after positive widths whose sum is an
    int, makes [NewBitExploder] return the error that names the index and
    the value of that width, together with an exploder that holds the fields
    set so far. *)
Theorem NewBitExploder_nonpositive_width pre w post :
  Forall (fun x => 1 <= x) pre -> sumZ pre <= MaxInt -> w <= 0 ->
  exists e,
    NewBitExploder (pre ++ w :: post)
    = Some (e, Some (ErrWidthNotPositive (Z.of_nat (length pre)) w)) /\
    BitLength e = sumZ pre /\
    take (length pre) (extractors e) = builtFields 0 pre.
Proof.
  intros Hpos Hsum Hw0. rewrite NewBitExploder_prefix by done.
  cbn [SetWidths_loop]. destruct (Z.leb_spec w 0); [|lia].
  eexists. split; [reflexivity|]. split; [done|].
  cbn [extractors]. rewrite take_app_length'; [done|].
  by rewrite length_builtFields.
Qed.

Lemma NewBitExploder_nonpositive_width_witness :
  exists e,
    NewBitExploder ([8; 4] ++ 0 :: [16])
    = Some (e, Some (ErrWidthNotPositive (Z.of_nat (length [8; 4])) 0)) /\
    BitLength e = sumZ [8; 4] /\
    take (length [8; 4]) (extractors e) = builtFields 0 [8; 4].
Proof.
  apply (NewBitExploder_nonpositive_width [8; 4] 0 [16]).
  - repeat constructor; lia.
  - by vm_compute.
  - lia.
Defined.

(** X7. Positive widths whose sum leaves the ints give no error value:
    [NewBitExploder] panics, in [New], at the first field that crosses the
    bound. *)
Theorem NewBitExploder_overflow_panics pre w post :
  Forall (fun x => 1 <= x) pre -> sumZ pre <= MaxInt ->
  1 <= w -> in_range w -> MaxInt < sumZ pre + w ->
  NewBitExploder (pre ++ w :: post) = None.
Proof.
  intros Hpos Hsum Hw1 Hw Hover. rewrite NewBitExploder_prefix by done.
  cbn [SetWidths_loop bitLength].
  destruct (Z.leb_spec w 0) as [Hw0|Hw0]; [lia|].
  destruct (New (sumZ pre) w) as [be|] eqn:Hnew; [|done].
  apply New_inv in Hnew as [(_ & _ & Hle) _]; [lia| |done].
  assert (0 <= sumZ pre).
  { apply sumZ_nonneg. eapply Forall_impl; [exact Hpos|]. cbn. lia. }
  unfold in_range, MinInt. lia.
Qed.

Lemma NewBitExploder_overflow_panics_witness :
  NewBitExploder ([MaxInt] ++ 1 :: []) = None.
Proof.
  apply (NewBitExploder_overflow_panics [MaxInt] 1 []).
  - repeat constructor. by vm_compute.
  - by vm_compute.
  - lia.
  - by vm_compute.
  - by vm_compute.
Defined.

End ExploderFacts.

Section ExplodeFacts.
Import GoInt Mem Bitextract.

(** [ExtractTo] into a destination that shares no byte with the bytes it
    reads: the first [dstLen] bytes of the destination are the field. *)
Lemma ExtractTo_field be dest src m :
  wf_extractor be -> valid dest m -> valid src m ->
  srcLen be + byteStart be <= len src -> dstLen be <= len dest ->
  writesApartFromReads be dest src ->
  exists m',
    ExtractTo be dest src m = Some m' /\ length m' = length m /\
    (forall a : nat,
       (a < base dest \/ base dest + Z.to_nat (dstLen be) <= a)%nat ->
       m' !! a = m !! a) /\
    take (Z.to_nat (dstLen be)) (drop (base dest) m')
    = fieldBytes be (bytes src m).
Proof.
  intros Hwf Hvd Hvs Hs Hd Hap.
  destruct (ExtractTo_spec be dest src m Hwf Hvd Hvs Hs Hd)
    as (m' & Hex & Hlen & Hout & Hin).
  exists m'. split; [done|]. split; [done|]. split; [done|].
  apply list_eq. intros j. unfold fieldBytes.
  destruct (decide (j < Z.to_nat (dstLen be))%nat) as [Hj|Hj].
  - rewrite lookup_take_lt, lookup_drop by done.
    rewrite list_lookup_fmap, (lookup_seqZ_lt _ _ j) by lia.
    cbn [fmap option_fmap option_map].
    specialize (Hin Hap (Z.of_nat j) ltac:(lia)).
    unfold addr in Hin. rewrite Nat2Z.id in Hin. rewrite Hin.
    do 2 f_equal; lia.
  - rewrite lookup_take_ge by lia. symmetry. apply lookup_ge_None.
    rewrite length_fmap, length_seqZ. lia.
Qed.

Lemma Buffer_loop_built exts : forall b c,
  Forall (fun be => 0 <= dstLen be) exts ->
  sumZ (dstLen <$> exts) <= c ->
  Buffer_loop exts (Slice b c c) = Some (bufferSlices b c exts).
Proof.
  induction exts as [|be rest IH]; intros b c Hpos Hsum; [done|].
  apply Forall_cons in Hpos as [Hd Hrest].
  change (sumZ (dstLen <$> be :: rest))
    with (dstLen be + sumZ (dstLen <$> rest)) in Hsum.
  assert (0 <= sumZ (dstLen <$> rest)) as Hr0.
  { apply sumZ_nonneg, Forall_fmap. exact Hrest. }
  cbn [Buffer_loop bufferSlices].
  unfold resliceFrom, reslice, ByteLength, addr. cbn [base len cap].
  destruct (Z.leb_spec 0 (dstLen be)); [|lia].
  destruct (Z.leb_spec (dstLen be) c); [|lia].
  cbn [Z.leb andb mbind option_bind].
  destruct (Z.leb_spec c c); [|lia]. cbn [andb mbind option_bind].
  rewrite IH by (done || lia). cbn [mbind option_bind].
  change (0 <=? 0) with true. cbn [andb mbind option_bind].
  do 2 f_equal. f_equal; lia.
Qed.

Lemma length_bufferSlices b c exts :
  length (bufferSlices b c exts) = length exts.
Proof.
  revert b c. induction exts as [|be rest IH]; intros b c; cbn; [done|].
  by rewrite IH.
Qed.

(** The loop of [ExplodeTo] over the slices [Buffer] cut, for data that
    lies before the buffer: every field lands in its slice and nothing
    outside the buffer changes. *)
Lemma ExplodeTo_loop_spec exts : forall pre b c data m,
  Forall wf_extractor exts ->
  Forall (fun be => srcLen be + byteStart be <= len data) exts ->
  valid data m ->
  (base data + Z.to_nat (len data) <= b)%nat ->
  sumZ (dstLen <$> exts) <= c -> Z.of_nat b + c <= Z.of_nat (length m) ->
  exists m',
    ExplodeTo_loop exts (Z.of_nat (length pre))
      (pre ++ bufferSlices b c exts) data m = Some m' /\
    length m' = length m /\
    (forall a : nat,
       (a < b \/ b + Z.to_nat (sumZ (dstLen <$> exts)) <= a)%nat ->
       m' !! a = m !! a) /\
    (forall i be s, exts !! i = Some be ->
       bufferSlices b c exts !! i = Some s ->
       bytes s m' = fieldBytes be (bytes data m)).
Proof.
  induction exts as [|be rest IH];
    intros pre b c data m Hwf Hfit Hvd Hbefore Hsum Hroom.
  { exists m. split; [done|]. split; [done|]. split; [done|].
    intros i be s Hi. done. }
  apply Forall_cons in Hwf as [Hwf Hwfr].
  apply Forall_cons in Hfit as [Hfit Hfitr].
  change (sumZ (dstLen <$> be :: rest))
    with (dstLen be + sumZ (dstLen <$> rest)) in *.
  pose proof Hwf as (_ & Hd1 & _).
  assert (0 <= sumZ (dstLen <$> rest)) as Hr0.
  { apply sumZ_nonneg, Forall_fmap.
    eapply Forall_impl; [exact Hwfr|]. intros x (_ & Hx & _). cbn. lia. }
  cbn [ExplodeTo_loop bufferSlices].
  set (d := Slice b (dstLen be) c).
  assert (index (pre ++ d :: bufferSlices (b + Z.to_nat (dstLen be))
                                  (c - dstLen be) rest)
                (Z.of_nat (length pre)) = Some d) as ->.
  { unfold index. destruct (Z.ltb_spec (Z.of_nat (length pre)) 0); [lia|].
    rewrite Nat2Z.id, lookup_app_r, Nat.sub_diag by lia. done. }
  cbn [mbind option_bind].
  assert (valid d m) as Hvdst by (unfold valid, d; cbn; lia).
  destruct (ExtractTo_field be d data m Hwf Hvdst Hvd Hfit)
    as (m1 & Hex & Hlen1 & Hout1 & Hin1).
  { unfold d. cbn. lia. }
  { unfold writesApartFromReads, d. cbn [base].
    destruct Hwf as (Hb0 & _ & _ & _ & _). right.
    destruct Hvd as [Hl _]. lia. }
  rewrite Hex. cbn [mbind option_bind].
  assert (valid data m1) as Hvd1 by (unfold valid in *; rewrite Hlen1; done).
  destruct (IH (pre ++ [d]) (b + Z.to_nat (dstLen be))%nat (c - dstLen be)
              data m1 Hwfr Hfitr Hvd1)
    as (m' & Hrun & Hlen' & Hout' & Hin'); [lia|lia|lia|].
  rewrite length_app in Hrun. cbn [length] in Hrun.
  replace (Z.of_nat (length pre + 1)) with (Z.of_nat (length pre) + 1)
    in Hrun by lia.
  rewrite <- app_assoc in Hrun. cbn [app] in Hrun.
  assert (bytes data m1 = bytes data m) as Hdata.
  { apply bytes_unchanged. intros a Ha. apply Hout1. cbn [base d]. lia. }
  exists m'. split; [exact Hrun|]. split; [congruence|]. split.
  - intros a Ha. rewrite Hout' by lia. apply Hout1. cbn [base d]. lia.
  - intros i be' s Hi Hs. destruct i as [|i]; cbn in Hi, Hs.
    + injection Hi as <-. injection Hs as <-.
      rewrite <- Hin1. unfold bytes. cbn [base len d].
      apply list_eq. intros j.
      destruct (decide (j < Z.to_nat (dstLen be))%nat) as [Hj|Hj].
      * rewrite !lookup_take_lt, !lookup_drop by done. apply Hout'. lia.
      * by rewrite !lookup_take_ge by lia.
    + rewrite (Hin' i be' s Hi Hs). by rewrite Hdata.
Qed.

Lemma builtFields_dstLen s widths :
  dstLen <$> builtFields s widths = byteLens widths.
Proof.
  revert s. induction widths as [|w l IH]; intros s; [done|].
  cbn. f_equal. apply IH.
Qed.

Lemma builtFields_wf widths : forall s,
  0 <= s -> Forall (fun w => 1 <= w) widths -> s + sumZ widths <= MaxInt ->
  Forall wf_extractor (builtFields s widths).
Proof.
  induction widths as [|w l IH]; intros s Hs Hpos Hsum; [constructor|].
  apply Forall_cons in Hpos as [Hw Hl].
  change (sumZ (w :: l)) with (w + sumZ l) in Hsum.
  assert (0 <= sumZ l).
  { apply sumZ_nonneg. eapply Forall_impl; [exact Hl|]. cbn. lia. }
  cbn. constructor.
  - apply built_wf. unfold valid_bounds. lia.
  - apply IH; [lia|done|lia].
Qed.

Lemma builtFields_fit widths : forall s n,
  0 <= s -> Forall (fun w => 1 <= w) widths ->
  s + sumZ widths <= MaxInt -> s + sumZ widths <= 8 * n ->
  Forall (fun be => srcLen be + byteStart be <= n) (builtFields s widths).
Proof.
  induction widths as [|w l IH]; intros s n Hs Hpos Hsum Hn; [constructor|].
  apply Forall_cons in Hpos as [Hw Hl].
  change (sumZ (w :: l)) with (w + sumZ l) in Hsum, Hn.
  assert (0 <= sumZ l).
  { apply sumZ_nonneg. eapply Forall_impl; [exact Hl|]. cbn. lia. }
  cbn [builtFields]. constructor.
  - apply built_srcLen_fits; [unfold valid_bounds|]; lia.
  - apply IH; [lia|done|lia|lia].
Qed.

Lemma NewBitExploder_inv widths e :
  Forall in_range widths ->
  NewBitExploder widths = Some (e, None) ->
  Forall (fun w => 1 <= w) widths /\ sumZ widths <= MaxInt /\
  e = {| bitLength := sumZ widths;
         expByteLen := sumZ (byteLens widths);
         extractors := builtFields 0 widths |}.
Proof.
  intros Hall Hnew. pose proof Hnew as Hrun.
  unfold NewBitExploder, SetWidths in Hrun.
  destruct (Z.eqb_spec (Z.of_nat (length widths)) 0) as [H0|Hne];
    [discriminate|].
  pose proof Hrun as Hinv.
  apply SetWidths_loop_inv in Hinv; cbn [bitLength]; [|done|lia|zdm].
  destruct Hinv as [Hpos Hsum]. cbn [bitLength] in Hsum.
  split; [done|]. split; [lia|].
  pose proof (sumZ_byteLens_bounds widths Hpos) as Hb.
  rewrite (SetWidths_loop_built widths 0 _ [] []) in Hrun;
    cbn [bitLength expByteLen extractors zeroBitExploder app] in *;
    rewrite ?app_nil_r in *; try done; try lia; try zdm.
  rewrite !Z.add_0_l in Hrun. congruence.
Qed.

Lemma fieldStart_bounds widths i w :
  Forall (fun w => 1 <= w) widths -> widths !! i = Some w ->
  0 <= fieldStart widths i /\ fieldStart widths i + w <= sumZ widths.
Proof.
  intros Hpos Hi. unfold fieldStart.
  rewrite <- (take_drop_middle widths i w Hi) at 3.
  rewrite sumZ_app. change (sumZ (w :: drop (S i) widths))
    with (w + sumZ (drop (S i) widths)).
  assert (0 <= sumZ (take i widths)).
  { apply sumZ_nonneg, Forall_take.
    eapply Forall_impl; [exact Hpos|]. cbn. lia. }
  assert (0 <= sumZ (drop (S i) widths)).
  { apply sumZ_nonneg, Forall_drop.
    eapply Forall_impl; [exact Hpos|]. cbn. lia. }
  lia.
Qed.

Lemma bytes_isByte s (m : mem) : Forall isByte m -> Forall isByte (bytes s m).
Proof. intros H. unfold bytes. by apply Forall_take, Forall_drop. Qed.

(** [Explode] on data that is long enough, with the exploder built for
    [widths]: the slices are those [Buffer] cuts from the new buffer, which
    is laid out after the bytes the store held, and each shows its field. *)
Lemma Explode_built widths data m :
  Forall (fun w => 1 <= w) widths -> sumZ widths <= MaxInt ->
  valid data m -> len data * 8 <= MaxInt ->
  sumZ widths <= len data * 8 ->
  exists m',
    Explode {| bitLength := sumZ widths;
               expByteLen := sumZ (byteLens widths);
               extractors := builtFields 0 widths |} data m
    = Some (bufferSlices (length m) (sumZ (byteLens widths))
                         (builtFields 0 widths), None, m') /\
    length m' = (length m + Z.to_nat (sumZ (byteLens widths)))%nat /\
    take (length m) m' = m /\
    forall i w s, widths !! i = Some w ->
      bufferSlices (length m) (sumZ (byteLens widths))
                   (builtFields 0 widths) !! i = Some s ->
      bytes s m'
      = fieldBytes (builtExtractor (fieldStart widths i) w) (bytes data m).
Proof.
  intros Hpos Hsum Hvd Hlen8 Hlong.
  pose proof Hvd as [[Hl0 Hlc] Hroom].
  unfold Explode. cbn [bitLength].
  rewrite mul_id by zdm.
  destruct (Z.ltb_spec (len data * 8) (sumZ widths)) as [Hshort|_]; [lia|].
  pose proof (sumZ_byteLens_bounds widths Hpos) as [Hb0 Hb1].
  unfold Buffer, make. cbn [expByteLen extractors].
  destruct (Z.ltb_spec (sumZ (byteLens widths)) 0); [lia|].
  cbn [mbind option_bind].
  remember (sumZ (byteLens widths)) as N eqn:EN.
  set (m1 := m ++ replicate (Z.to_nat N) 0).
  rewrite Buffer_loop_built.
  2:{ eapply Forall_impl; [apply (builtFields_wf widths 0); done || lia|].
      intros x (_ & Hx & _). cbn. lia. }
  2:{ rewrite builtFields_dstLen. lia. }
  cbn [mbind option_bind]. unfold ExplodeTo. cbn [extractors].
  rewrite length_bufferSlices.
  destruct (Z.ltb_spec (Z.of_nat (length (builtFields 0 widths)))
                       (Z.of_nat (length (builtFields 0 widths)))); [lia|].
  assert (length m1 = (length m + Z.to_nat N)%nat) as Hm1
    by (unfold m1; rewrite length_app, length_replicate; lia).
  destruct (ExplodeTo_loop_spec (builtFields 0 widths) [] (length m) N data m1)
    as (m2 & Hrun & Hlen2 & Hout & Hin).
  { apply builtFields_wf; done || lia. }
  { apply builtFields_fit; done || lia. }
  { unfold valid in *. rewrite Hm1. lia. }
  { lia. }
  { rewrite builtFields_dstLen. lia. }
  { rewrite Hm1. lia. }
  cbn [length app] in Hrun. change (Z.of_nat 0) with 0 in Hrun.
  rewrite Hrun. cbn [mbind option_bind].
  exists m2. split; [done|]. split; [lia|].
  assert (bytes data m1 = bytes data m) as Hdata.
  { unfold bytes, m1. apply list_eq. intros j.
    destruct (decide (j < Z.to_nat (len data))%nat).
    - rewrite !lookup_take_lt, !lookup_drop by done.
      apply lookup_app_l. lia.
    - by rewrite !lookup_take_ge by lia. }
  split.
  { apply list_eq. intros j. destruct (decide (j < length m)%nat).
    - rewrite lookup_take_lt by done. rewrite Hout by lia.
      unfold m1. by apply lookup_app_l.
    - rewrite lookup_take_ge by lia. symmetry. apply lookup_ge_None. lia. }
  intros i w s Hi Hs.
  pose proof (lookup_builtFields 0 widths i w Hi) as Hbe.
  rewrite Z.add_0_l in Hbe.
  by rewrite (Hin i _ s Hbe Hs), Hdata.
Qed.

(** X8. [Explode] with an exploder that [NewBitExploder] built for
    [widths]: when the data has fewer bits than the widths ask for, it
    returns no fields and the error that carries both counts, and the store
    is as before; otherwise it returns one slice per width, cut from a new
    buffer, the bytes that were in the store are unchanged, and the slice of
    field [i] shows ceil(w/8) bytes which spell the number the bits of the
    data from the field's start bit (the sum of the widths before it) on
    spell. *)
Theorem Explode_fields widths e data m :
  Forall in_range widths -> NewBitExploder widths = Some (e, None) ->
  valid data m -> Forall isByte m -> len data * 8 <= MaxInt ->
  if len data * 8 <? sumZ widths
  then Explode e data m
       = Some ([], Some (ErrInvalidDataLength (len data * 8) (sumZ widths)), m)
  else
    exists bt m',
      Explode e data m = Some (bt, None, m') /\
      length bt = length widths /\
      take (length m) m' = m /\
      forall i w, widths !! i = Some w ->
        exists s,
          bt !! i = Some s /\
          Z.of_nat (length (bytes s m')) = (w + 7) / 8 /\
          bigEndian (bytes s m')
          = bitsValue (bytes data m) (fieldStart widths i) w.
Proof.
  intros Hall Hnew Hvd Hbytes Hlen8.
  destruct (NewBitExploder_inv widths e Hall Hnew) as (Hpos & Hsum & ->).
  pose proof Hvd as [[Hl0 Hlc] Hroom].
  destruct (Z.ltb_spec (len data * 8) (sumZ widths)) as [Hshort|Hlong].
  { unfold Explode. cbn [bitLength]. rewrite mul_id by zdm.
    destruct (Z.ltb_spec (len data * 8) (sumZ widths)); [done|lia]. }
  destruct (Explode_built widths data m Hpos Hsum Hvd Hlen8 Hlong)
    as (m' & Hrun & Hlen' & Htake & Hfields).
  eexists _, m'. split; [exact Hrun|]. split.
  { by rewrite length_bufferSlices, length_builtFields. }
  split; [done|]. intros i w Hi.
  destruct (fieldStart_bounds widths i w Hpos Hi) as [Hfs0 Hfs1].
  assert (1 <= w) as Hw by (eapply (Forall_lookup_1 _ widths); eauto).
  destruct (bufferSlices (length m) (sumZ (byteLens widths))
                         (builtFields 0 widths) !! i) as [s|] eqn:Hs.
  2:{ apply lookup_ge_None in Hs.
      rewrite length_bufferSlices, length_builtFields in Hs.
      apply lookup_lt_Some in Hi. lia. }
  exists s. split; [done|]. rewrite (Hfields i w s Hi Hs). split.
  { unfold fieldBytes. rewrite length_fmap, length_seqZ.
    cbn [dstLen builtExtractor]. zdm. }
  apply fieldBytes_value.
  - unfold valid_bounds. lia.
  - by apply bytes_isByte.
  - unfold bytes. rewrite length_take, length_drop. lia.
Qed.

Lemma Explode_fields_witness :
  if len (Slice 0 2 2) * 8 <? sumZ [3; 10]
  then Explode {| bitLength := 13; expByteLen := 3;
                  extractors := builtFields 0 [3; 10] |}
               (Slice 0 2 2) [171; 205]
       = Some ([], Some (ErrInvalidDataLength (len (Slice 0 2 2) * 8)
                                              (sumZ [3; 10])), [171; 205])
  else
    exists bt m',
      Explode {| bitLength := 13; expByteLen := 3;
                 extractors := builtFields 0 [3; 10] |}
              (Slice 0 2 2) [171; 205] = Some (bt, None, m') /\
      length bt = length [3; 10] /\
      take (length [171; 205]) m' = [171; 205] /\
      forall i w, [3; 10] !! i = Some w ->
        exists s,
          bt !! i = Some s /\
          Z.of_nat (length (bytes s m')) = (w + 7) / 8 /\
          bigEndian (bytes s m')
          = bitsValue (bytes (Slice 0 2 2) [171; 205]) (fieldStart [3; 10] i) w.
Proof.
  apply (Explode_fields [3; 10]).
  - repeat constructor; unfold MinInt, MaxInt; lia.
  - by vm_compute.
  - unfold valid. cbn. lia.
  - repeat constructor; unfold isByte; lia.
  - by vm_compute.
Defined.

End ExplodeFacts.

Section BoundsFacts.
Import GoInt Mem Bitextract.

(** X9. On ints, [New] (and so [SetBounds]) panics exactly when the start is
    negative, the length is below 1, or the sum of the two is beyond the
    largest int; in every other case it builds the extractor. *)
Theorem New_panics_iff start len :
  in_range start -> in_range len ->
  (New start len = None <->
   start < 0 \/ len < 1 \/ MaxInt < start + len) /\
  (New start len <> None -> New start len = Some (builtExtractor start len)).
Proof.
  intros Hs Hl. split; [split|].
  - intros Hnone.
    destruct (Z_lt_ge_dec start 0); [by left|].
    destruct (Z_lt_ge_dec len 1); [by right; left|].
    destruct (Z_lt_ge_dec MaxInt (start + len)); [by right; right|].
    rewrite New_built in Hnone by (unfold valid_bounds; lia). done.
  - intros Hbad. destruct (New start len) as [be|] eqn:Hnew; [|done].
    apply New_inv in Hnew as [(? & ? & ?) _]; [lia|done|done].
  - intros Hsome. destruct (New start len) as [be|] eqn:Hnew; [|done].
    apply New_inv in Hnew as [_ ->]; done.
Qed.

Lemma New_panics_iff_witness :
  (New (MaxInt - 3) 4 = None <->
   MaxInt - 3 < 0 \/ 4 < 1 \/ MaxInt < MaxInt - 3 + 4) /\
  (New (MaxInt - 3) 4 <> None ->
   New (MaxInt - 3) 4 = Some (builtExtractor (MaxInt - 3) 4)).
Proof.
  apply (New_panics_iff (MaxInt - 3) 4); by vm_compute.
Defined.

(** X10. For an extractor that [New] built for [(start, len)] and slices
    that lie in the store, [ExtractTo] panics exactly when the source has
    fewer than start+len bits or the destination has fewer than ceil(len/8)
    bytes. *)
Theorem ExtractTo_panics_iff start len be dest src m :
  in_range start -> in_range len -> New start len = Some be ->
  valid dest m -> valid src m ->
  (ExtractTo be dest src m = None <->
   8 * Mem.len src < start + len \/ Mem.len dest < (len + 7) / 8).
Proof.
  intros Hs Hl Hnew Hvd Hvs.
  apply New_inv in Hnew as [Hvb ->]; [|done|done].
  pose proof Hvb as (H0 & H1 & H2).
  pose proof (built_wf _ _ Hvb) as Hwf.
  assert (srcLen (builtExtractor start len)
          + byteStart (builtExtractor start len) <= Mem.len src
          <-> start + len <= 8 * Mem.len src) as Hsrc by (cbn; zdm).
  split.
  - intros Hnone.
    destruct (Z_lt_ge_dec (8 * Mem.len src) (start + len)); [by left|].
    destruct (Z_lt_ge_dec (Mem.len dest) ((len + 7) / 8)); [by right|].
    destruct (ExtractTo_spec _ dest src m Hwf Hvd Hvs) as (m' & Hex & _).
    + apply Hsrc. lia.
    + cbn [dstLen builtExtractor]. lia.
    + congruence.
  - intros Hbad. unfold ExtractTo.
    destruct Hwf as (_ & _ & _ & Hir & _). rewrite add_id by done.
    destruct (Z.ltb_spec (Mem.len src)
                (srcLen (builtExtractor start len)
                 + byteStart (builtExtractor start len))) as [|Hge]; [done|].
    destruct (Z.ltb_spec (Mem.len dest) (dstLen (builtExtractor start len)))
      as [|Hge2]; [done|].
    exfalso. cbn [dstLen builtExtractor] in Hge2. apply Hsrc in Hge. lia.
Qed.

Lemma ExtractTo_panics_iff_witness :
  ExtractTo (builtExtractor 3 10) (Slice 0 2 2) (Slice 2 1 1) [0; 0; 171]
  = None <->
  8 * Mem.len (Slice 2 1 1) < 3 + 10 \/ Mem.len (Slice 0 2 2) < (10 + 7) / 8.
Proof.
  apply (ExtractTo_panics_iff 3 10 (builtExtractor 3 10)
           (Slice 0 2 2) (Slice 2 1 1) [0; 0; 171]).
  - by vm_compute.
  - by vm_compute.
  - by vm_compute.
  - unfold valid. cbn. lia.
  - unfold valid. cbn. lia.
Defined.

End BoundsFacts.

Section EncodableFacts.
Import GoInt Mem Bitextract Epc.

Lemma charTable_at (chars : list Z) c :
  0 <= c < 127 ->
  index ((fun c => if bool_decide (c ∈ chars) then 1 else 0) <$> seqZ 0 127) c
  = Some (if bool_decide (c ∈ chars) then 1 else 0).
Proof.
  intros Hc. unfold index. destruct (Z.ltb_spec c 0); [lia|].
  rewrite list_lookup_fmap, (lookup_seqZ_lt _ _ (Z.to_nat c)) by lia.
  rewrite Z2Nat.id, Z.add_0_l by lia. done.
Qed.

Lemma charTable_end (chars : list Z) :
  index ((fun c => if bool_decide (c ∈ chars) then 1 else 0) <$> seqZ 0 127)
        127 = None.
Proof.
  unfold index. cbn [Z.ltb Z.compare]. apply lookup_ge_None.
  rewrite length_fmap, length_seqZ. lia.
Qed.

Lemma land_127 c : 0 <= c <= 127 -> Z.land c 127 = c.
Proof.
  intros Hc. change 127 with (Z.ones 7) at 1.
  rewrite Z.land_ones by lia. apply Z.mod_small. lia.
Qed.

Lemma forallb_nulls (l : list Z) :
  forallb (fun x => x =? nullASCII) l = true <-> l = replicate (length l) 0.
Proof.
  induction l as [|x l IH]; [done|]. cbn [forallb length replicate].
  rewrite andb_true_iff, IH. unfold nullASCII. split.
  - intros [Hx Hl]. apply Z.eqb_eq in Hx. by rewrite Hx, <- Hl.
  - intros H. injection H as -> Hl. done.
Qed.

End EncodableFacts.

(** The loop the two predicates share, over any table of 127 entries built
    from a list of character codes between 1 and 126. *)
Section EncodableLoop.
Import GoInt Mem Bitextract Epc.

Variable chars : list Z.
Variable f : list Z -> option bool.
Hypothesis Hchars : Forall (fun c => 0 < c < 127) chars.
Hypothesis Hf_nil : f [] = Some true.
Hypothesis Hf_cons : forall c rest,
  f (c :: rest)
  = if c =? nullASCII then
      if forallb (fun x => x =? nullASCII) rest then f rest else Some false
    else if c <=? 127 then
      t ← index ((fun c => if bool_decide (c ∈ chars) then 1 else 0)
                 <$> seqZ 0 127) (Z.land c 127);
      if t =? 1 then f rest else Some false
    else Some false.

Lemma chars_range c : c ∈ chars -> 0 < c < 127.
Proof. intros Hc. by apply (proj1 (Forall_forall _ _) Hchars). Qed.

Lemma loop_cons_char c rest :
  c ∈ chars -> f (c :: rest) = f rest.
Proof.
  intros Hc. pose proof (chars_range c Hc). rewrite Hf_cons.
  unfold nullASCII. destruct (Z.eqb_spec c 0); [lia|].
  destruct (Z.leb_spec c 127); [|lia].
  rewrite land_127, charTable_at by lia. cbn [mbind option_bind].
  by rewrite bool_decide_eq_true_2.
Qed.

Lemma loop_nulls k : f (replicate k 0) = Some true.
Proof.
  induction k as [|k IH]; [done|]. cbn [replicate]. rewrite Hf_cons.
  unfold nullASCII at 1. cbn [Z.eqb].
  assert (forallb (fun x => x =? nullASCII) (replicate k 0) = true) as ->; [|done].
  apply forallb_nulls. by rewrite length_replicate.
Qed.

Lemma loop_true l :
  Forall (fun c => 0 <= c) l ->
  f l = Some true <-> charsThenNulls chars l.
Proof.
  intros Hl. split.
  - induction Hl as [|c rest Hc Hrest IH]; intros Hrun.
    { exists [], 0%nat. done. }
    rewrite Hf_cons in Hrun. unfold nullASCII in Hrun at 1.
    destruct (Z.eqb_spec c 0) as [->|Hc0].
    + destruct (forallb _ rest) eqn:Hn; [|done].
      apply forallb_nulls in Hn. exists [], (S (length rest)).
      split; [|done]. cbn. by rewrite <- Hn.
    + destruct (Z.leb_spec c 127); [|done].
      destruct (Z.eq_dec c 127) as [->|Hc127].
      { by rewrite land_127, charTable_end in Hrun by lia. }
      rewrite land_127, charTable_at in Hrun by lia.
      cbn [mbind option_bind] in Hrun.
      destruct (bool_decide (c ∈ chars)) eqn:Hin; [|done].
      apply bool_decide_eq_true_1 in Hin. cbn [Z.eqb Pos.eqb] in Hrun.
      destruct (IH Hrun) as (pre & k & -> & Hpre).
      exists (c :: pre), k. split; [done|]. by constructor.
  - intros (pre & k & -> & Hpre). clear Hl.
    induction Hpre as [|c pre Hc Hpre IH]; [apply loop_nulls|].
    cbn [app]. by rewrite loop_cons_char.
Qed.

Lemma loop_panics l :
  Forall (fun c => 0 <= c) l ->
  f l = None <-> charsThenDEL chars l.
Proof.
  intros Hl. split.
  - induction Hl as [|c rest Hc Hrest IH]; intros Hrun.
    { by rewrite Hf_nil in Hrun. }
    rewrite Hf_cons in Hrun. unfold nullASCII in Hrun at 1.
    destruct (Z.eqb_spec c 0) as [->|Hc0].
    + destruct (forallb _ rest) eqn:Hn; [|done].
      apply forallb_nulls in Hn. rewrite Hn, loop_nulls in Hrun. done.
    + destruct (Z.leb_spec c 127); [|done].
      destruct (Z.eq_dec c 127) as [->|Hc127].
      { exists [], rest. done. }
      rewrite land_127, charTable_at in Hrun by lia.
      cbn [mbind option_bind] in Hrun.
      destruct (bool_decide (c ∈ chars)) eqn:Hin; [|done].
      apply bool_decide_eq_true_1 in Hin. cbn [Z.eqb Pos.eqb] in Hrun.
      destruct (IH Hrun) as (pre & tl & -> & Hpre).
      exists (c :: pre), tl. split; [done|]. by constructor.
  - intros (pre & tl & -> & Hpre). clear Hl.
    induction Hpre as [|c pre Hc Hpre IH].
    + cbn [app]. rewrite Hf_cons. unfold nullASCII at 1. cbn [Z.eqb Z.leb Z.compare Pos.compare Pos.compare_cont].
      by rewrite land_127, charTable_end by lia.
    + cbn [app]. by rewrite loop_cons_char.
Qed.

End EncodableLoop.

Section EncodableStrings.
Import GoInt Mem Bitextract Epc.

Lemma bytesOf_nonneg s : Forall (fun c => 0 <= c) (bytesOf s).
Proof.
  induction s as [|c s IH]; [constructor|]. cbn. constructor; [|done].
  unfold charCode. lia.
Qed.

Lemma gs1AIChars_range : Forall (fun c => 0 < c < 127) gs1AIChars.
Proof. apply (bool_decide_unpack _). by vm_compute. Qed.

Lemma gs1AICPChars_range : Forall (fun c => 0 < c < 127) gs1AICPChars.
Proof. apply (bool_decide_unpack _). by vm_compute. Qed.

(** X11. [IsGS1AIEncodable] accepts exactly the strings made of characters
    of the AI character set followed by null bytes only. It does not return
    for exactly the strings in which characters of the set are followed by
    the byte 127: that byte passes the test [<= 127] and indexes the table
    of 127 entries at 127. On every other string it returns false. *)
Theorem IsGS1AIEncodable_spec s :
  (IsGS1AIEncodable s = Some true
   <-> charsThenNulls gs1AIChars (bytesOf s)) /\
  (IsGS1AIEncodable s = None
   <-> charsThenDEL gs1AIChars (bytesOf s)).
Proof.
  unfold IsGS1AIEncodable. split.
  - apply (loop_true gs1AIChars IsGS1AIEncodable_bytes gs1AIChars_range);
      [done|done|apply bytesOf_nonneg].
  - apply (loop_panics gs1AIChars IsGS1AIEncodable_bytes gs1AIChars_range);
      [done|done|apply bytesOf_nonneg].
Qed.

(** X12. [IsGS1CompPartEncodable] behaves in the same way over the
    character set of Component and Parts. *)
Theorem IsGS1CompPartEncodable_spec s :
  (IsGS1CompPartEncodable s = Some true
   <-> charsThenNulls gs1AICPChars (bytesOf s)) /\
  (IsGS1CompPartEncodable s = None
   <-> charsThenDEL gs1AICPChars (bytesOf s)).
Proof.
  unfold IsGS1CompPartEncodable. split.
  - apply (loop_true gs1AICPChars IsGS1CompPartEncodable_bytes
             gs1AICPChars_range); [done|done|apply bytesOf_nonneg].
  - apply (loop_panics gs1AICPChars IsGS1CompPartEncodable_bytes
             gs1AICPChars_range); [done|done|apply bytesOf_nonneg].
Qed.

End EncodableStrings.

Section PackedChars.
Import GoInt Mem Bitextract Epc.

Lemma nthByte_drop (l : list Z) k j :
  0 <= j -> nthByte (drop k l) j = nthByte l (Z.of_nat k + j).
Proof.
  intros Hj. unfold nthByte. rewrite lookup_drop. do 2 f_equal. lia.
Qed.

(** The bits of a suffix of the data are bits of the data, 8 bits further
    for each byte dropped. *)
Lemma bitsValue_drop (l : list Z) k s w :
  Forall isByte l -> (k <= length l)%nat -> 0 <= s -> 0 <= w ->
  s + w <= 8 * (Z.of_nat (length l) - Z.of_nat k) ->
  bitsValue (drop k l) s w = bitsValue l (8 * Z.of_nat k + s) w.
Proof.
  intros Hl Hk Hs Hw Hfit. unfold bitsValue.
  rewrite length_drop.
  apply Z.bits_inj'. intros i Hi.
  destruct (Z_lt_ge_dec i w) as [Hiw|Hiw].
  2:{ by rewrite !Z.mod_pow2_bits_high by lia. }
  rewrite !Z.mod_pow2_bits_low by lia.
  rewrite !Z.div_pow2_bits by lia.
  rewrite !bigEndian_testbit by (try apply Forall_drop; done || lia).
  rewrite length_drop.
  remember (Z.of_nat (length l)) as L eqn:HL.
  replace (Z.of_nat (length l - k)) with (L - Z.of_nat k) by lia.
  remember (Z.of_nat k) as K eqn:HK.
  destruct (Z.ltb_spec ((i + (8 * (L - K) - s - w)) / 8) (L - K));
    [|exfalso; zdm].
  destruct (Z.ltb_spec ((i + (8 * L - (8 * K + s) - w)) / 8) L);
    [|exfalso; zdm].
  rewrite nthByte_drop by zdm. rewrite <- HK.
  apply (f_equal2 Z.testbit); [apply (f_equal (nthByte l))|]; zdm.
Qed.

Lemma firstNull_bounds l : 0 <= firstNull l <= Z.of_nat (length l).
Proof.
  induction l as [|c l IH]; cbn [firstNull length]; [lia|].
  destruct (c =? 0); lia.
Qed.

Lemma firstNull_snoc l x :
  firstNull (l ++ [x])
  = if firstNull l <? Z.of_nat (length l) then firstNull l
    else if x =? 0 then Z.of_nat (length l) else Z.of_nat (length l) + 1.
Proof.
  induction l as [|c l IH]; cbn [firstNull length app].
  { destruct (x =? 0); done. }
  pose proof (firstNull_bounds l). rewrite IH.
  destruct (c =? 0).
  - destruct (Z.ltb_spec 0 (Z.of_nat (S (length l)))); [done|lia].
  - destruct (Z.ltb_spec (firstNull l) (Z.of_nat (length l)));
      destruct (Z.ltb_spec (1 + firstNull l) (Z.of_nat (S (length l))));
      try lia.
    destruct (x =? 0); lia.
Qed.

Lemma existsb_snoc {A} (p : A -> bool) l x :
  existsb p (l ++ [x]) = existsb p l || p x.
Proof. rewrite existsb_app. cbn. by rewrite orb_false_r. Qed.

Lemma charAfterNull_snoc l x :
  charAfterNull (l ++ [x])
  = charAfterNull l
    || ((firstNull l <? Z.of_nat (length l)) && negb (x =? 0)).
Proof.
  induction l as [|c l IH]; cbn [charAfterNull firstNull length app].
  { destruct (x =? 0); done. }
  pose proof (firstNull_bounds l).
  destruct (c =? 0).
  - rewrite existsb_snoc.
    destruct (Z.ltb_spec 0 (Z.of_nat (S (length l)))); [done|lia].
  - rewrite IH. do 2 f_equal.
    destruct (Z.ltb_spec (firstNull l) (Z.of_nat (length l)));
      destruct (Z.ltb_spec (1 + firstNull l) (Z.of_nat (S (length l))));
      lia || done.
Qed.

Lemma length_packedChars data offset :
  0 <= (8 * Z.of_nat (length data) - offset) / 7 ->
  Z.of_nat (length (packedChars data offset))
  = (8 * Z.of_nat (length data) - offset) / 7.
Proof.
  intros H. unfold packedChars. rewrite length_fmap, length_seqZ. lia.
Qed.

Lemma lookup_packedChars data offset (j : nat) :
  Z.of_nat j < (8 * Z.of_nat (length data) - offset) / 7 ->
  packedChars data offset !! j = Some (packedChar data offset (Z.of_nat j)).
Proof.
  intros H. unfold packedChars.
  rewrite list_lookup_fmap, (lookup_seqZ_lt _ _ j) by lia. done.
Qed.

(** The byte an extractor of [asciiExtracts] leaves: the 7 bits it was
    built for. *)
Lemma fieldByte_seven start src :
  0 <= start < 8 -> Forall isByte src ->
  start + 7 <= 8 * Z.of_nat (length src) ->
  fieldByte (builtExtractor start 7) src 0 = bitsValue src start 7.
Proof.
  intros Hs Hsrc Hfit.
  rewrite <- (fieldBytes_value start 7 src);
    [|unfold valid_bounds, MaxInt; lia|done|done].
  unfold fieldBytes. cbn [dstLen builtExtractor].
  change (seqZ 0 ((7 + 7) / 8)) with [0]. unfold bigEndian.
  cbn [fmap list_fmap foldl]. lia.
Qed.

(** The loop of [DecodeASCIIAt], with what it leaves in [outdata] and in its
    two variables after each character. *)
Lemma DecodeASCIIAt_packed data offset :
  0 <= offset <= 7 -> Forall isByte data ->
  8 * Z.of_nat (length data) <= MaxInt ->
  7 <= 8 * Z.of_nat (length data) - offset ->
  DecodeASCIIAt data offset
  = Some (stringOf (packedChars data offset),
          firstNull (packedChars data offset),
          charAfterNull (packedChars data offset)).
Proof.
  intros Hoff Hbytes Hlen8 Hone. unfold MaxInt in Hlen8. unfold DecodeASCIIAt.
  destruct (Z.ltb_spec offset 0); [lia|].
  destruct (Z.gtb_spec offset 7); [lia|]. cbn [orb].
  rewrite mul_id by zdm. rewrite sub_id by zdm.
  remember (Z.of_nat (length data)) as L eqn:HL.
  rewrite Z.quot_div_nonneg by lia.
  remember ((L * 8 - offset) / 7) as n eqn:En.
  assert (1 <= n /\ n * 7 <= L * 8 - offset) as [Hn Hn7] by (subst n; zdm).
  destruct (Z.leb_spec n 0) as [|_]; [lia|].
  set (cs := packedChars data offset).
  assert (Z.of_nat (length cs) = n) as Hcs.
  { unfold cs. rewrite length_packedChars; rewrite <- HL;
      replace (8 * L) with (L * 8) by lia; rewrite <- En; lia. }
  assert (forall j : nat, Z.of_nat j < n ->
            cs !! j = Some (packedChar data offset (Z.of_nat j))) as Hcsj.
  { intros j Hj. apply lookup_packedChars. rewrite <- HL.
    replace (8 * L) with (L * 8) by lia. by rewrite <- En. }
  remember (Z.rem (8 - offset) 8) as ext0 eqn:Eext.
  assert (0 <= ext0 <= 7 /\ (ext0 + offset) mod 8 = 0) as [Hext0 Hext0'].
  { subst ext0. rewrite Z.rem_mod_nonneg by lia. zdm. }
  pose (P := fun (j : Z) (st : asciiState) =>
    length (al_mem st) = (Z.to_nat n + length data)%nat /\
    al_ext st = ext0 + j /\
    drop (Z.to_nat n) (al_mem st) = data /\
    take (Z.to_nat j) (al_mem st) = take (Z.to_nat j) cs /\
    al_nullTerm st
    = (if firstNull (take (Z.to_nat j) cs) <? j
       then firstNull (take (Z.to_nat j) cs) else -1) /\
    al_extra st = charAfterNull (take (Z.to_nat j) cs)).
  match goal with
  | |- context [forRange ?k 0 ?body ?init] =>
      destruct (forRange_inv P k 0 body init) as (st & Hrun & HP)
  end.
  - unfold P. cbn [al_mem al_ext al_nullTerm al_extra].
    rewrite length_app, length_replicate.
    split; [lia|]. split; [lia|]. split.
    { rewrite drop_app_length'; [done|]. by rewrite length_replicate. }
    done.
  - intros j st Hj (Hmem & Hext & Hdata & Hpre & Hnt & Hex).
    rewrite Hext.
    rewrite (add_id j 7), (sub_id (j + 7) offset) by zdm.
    rewrite Z.quot_div_nonneg by lia.
    rewrite sub_id by zdm.
    rewrite Z.rem_mod_nonneg by lia.
    rewrite asciiExtracts_at
      by (pose proof (Z.mod_pos_bound (ext0 + j) 8); lia).
    cbn [mbind option_bind].
    remember ((8 - (ext0 + j) mod 8) mod 8) as start eqn:Hstart.
    remember (j - (j + 7 - offset) / 8) as inbyte eqn:Hinbyte.
    assert (0 <= start < 8 /\ 8 * inbyte + start = offset + 7 * j)
      as [Hst Habs].
    { subst start inbyte. zdm. }
    assert (0 <= inbyte /\ 8 * inbyte + start + 7 <= 8 * L) as [Hib0 HibL]
      by lia.
    assert (valid_bounds start 7) as Hvb
      by (unfold valid_bounds, MaxInt; lia).
    pose proof (built_wf _ _ Hvb) as Hwf.
    unfold resliceFrom, reslice. cbn [len cap].
    destruct (Z.leb_spec 0 j); [|lia].
    destruct (Z.leb_spec j n); [|lia].
    destruct (Z.leb_spec n n); [|lia].
    cbn [andb mbind option_bind].
    destruct (Z.leb_spec 0 inbyte); [|lia].
    destruct (Z.leb_spec inbyte L); [|lia].
    destruct (Z.leb_spec L L); [|lia].
    cbn [andb mbind option_bind].
    match goal with
    | |- context [ExtractTo ?be ?d ?s ?m] =>
        destruct (ExtractTo_spec be d s m) as (m' & Hx & Hlen' & Hout & Hin);
        [done| | | | |]
    end.
    + unfold valid, addr. cbn. lia.
    + unfold valid, addr. cbn. lia.
    + cbn. zdm.
    + cbn. zdm.
    + rewrite Hx. cbn [mbind option_bind].
      cbn [dstLen builtExtractor base addr] in Hout, Hin.
      change ((7 + 7) / 8) with 1 in Hout, Hin.
      specialize (Hin ltac:(unfold writesApartFromReads, addr; cbn; zdm)
                      0 ltac:(lia)).
      unfold addr in Hin. cbn [base] in Hin.
      replace (0 + Z.to_nat j + Z.to_nat 0)%nat with (Z.to_nat j) in Hin
        by lia.
      change (addr {| base := 0; len := n; cap := n |} j)
        with (Z.to_nat j) in Hout.
      assert (bytes {| base := Z.to_nat n + Z.to_nat inbyte;
                       len := L - inbyte; cap := L - inbyte |} (al_mem st)
              = drop (Z.to_nat inbyte) data) as Hsrc.
      { unfold bytes. cbn [base len]. rewrite <- drop_drop, Hdata.
        apply take_ge. rewrite length_drop. lia. }
      unfold addr in Hsrc. rewrite Hsrc in Hin.
      rewrite fieldByte_seven in Hin;
        [|done|by apply Forall_drop|rewrite length_drop; lia].
      rewrite bitsValue_drop in Hin by (done || lia).
      replace (8 * Z.of_nat (Z.to_nat inbyte) + start)
        with (offset + 7 * j) in Hin by lia.
      fold (packedChar data offset j) in Hin.
      unfold load. cbn [len addr base].
      destruct (Z.leb_spec 0 j); [|lia].
      destruct (Z.ltb_spec j n); [|lia]. cbn [andb].
      replace (0 + Z.to_nat j)%nat with (Z.to_nat j) by lia.
      change (addr {| base := 0; len := n; cap := n |} j) with (Z.to_nat j).
      rewrite Hin. cbn [mbind option_bind].
      eexists. split; [reflexivity|].
      unfold P. cbn [al_mem al_ext al_nullTerm al_extra].
      assert (take (Z.to_nat (j + 1)) cs
              = take (Z.to_nat j) cs ++ [packedChar data offset j]) as Hcs1.
      { replace (Z.to_nat (j + 1)) with (S (Z.to_nat j)) by lia.
        erewrite take_S_r; [done|].
        rewrite Hcsj by lia. by rewrite Z2Nat.id by lia. }
      assert (length (take (Z.to_nat j) cs) = Z.to_nat j) as Hlt
        by (rewrite length_take; lia).
      split; [lia|]. split; [rewrite add_id by zdm; lia|]. split.
      { rewrite <- Hdata. apply list_eq. intros a.
        rewrite !lookup_drop. apply Hout. lia. }
      split.
      { rewrite Hcs1.
        replace (Z.to_nat (j + 1)) with (S (Z.to_nat j)) by lia.
        erewrite take_S_r by exact Hin. f_equal.
        rewrite <- Hpre. apply list_eq. intros a.
        destruct (decide (a < Z.to_nat j)%nat).
        - rewrite !lookup_take_lt by done. apply Hout. lia.
        - by rewrite !lookup_take_ge by lia. }
      rewrite Hcs1, firstNull_snoc, charAfterNull_snoc, Hlt, Hnt, Hex.
      rewrite Z2Nat.id by lia.
      pose proof (firstNull_bounds (take (Z.to_nat j) cs)) as Hfb.
      rewrite Hlt in Hfb. unfold nullASCII.
      destruct (Z.ltb_spec (firstNull (take (Z.to_nat j) cs)) j) as [Hlt1|Hge1].
      * destruct (Z.eqb_spec (firstNull (take (Z.to_nat j) cs)) (-1));
          [lia|].
        destruct (Z.ltb_spec (firstNull (take (Z.to_nat j) cs)) (j + 1));
          [|lia].
        split.
        -- by destruct (packedChar data offset j =? 0).
        -- by destruct (packedChar data offset j =? 0),
                       (charAfterNull (take (Z.to_nat j) cs)).
      * change (-1 =? -1) with true. split.
        -- destruct (Z.eqb_spec (packedChar data offset j) 0); cbn [andb].
           ++ destruct (Z.ltb_spec j (j + 1)); [done|lia].
           ++ destruct (Z.ltb_spec (j + 1) (j + 1)); [lia|done].
        -- by destruct (packedChar data offset j =? 0),
                       (charAfterNull (take (Z.to_nat j) cs)).
  - replace (0 + Z.of_nat (Z.to_nat n)) with n in HP by lia.
    destruct HP as (Hmem & _ & _ & Hpre & Hnt & Hex).
    rewrite Hrun. cbn [mbind option_bind].
    assert (take (Z.to_nat n) cs = cs) as Hall by (apply take_ge; lia).
    rewrite Hall in Hpre, Hnt, Hex. rewrite Hpre, Hnt, Hex.
    rewrite strlen_stringOf.
    pose proof (firstNull_bounds cs) as Hfb.
    do 2 f_equal. f_equal.
    destruct (Z.ltb_spec (firstNull cs) n).
    + destruct (Z.eqb_spec (firstNull cs) (-1)); [lia|done].
    + cbn [Z.eqb Pos.eqb]. lia.
Qed.

(** X13. For an offset in [0, 7] and data that holds at least one
    character, [DecodeASCIIAt] returns floor((8 len(data) - offset) / 7)
    characters, character [i] being the 7 bits of the data from bit
    [offset + 7 i] on; the count it returns is the position of the first
    null character (the number of characters when there is none), and the
    flag is set exactly when a character that is not null follows a null
    one.  Every character is below 128, and the count lies between 0 and
    the number of characters. *)
Theorem DecodeASCIIAt_chars data offset :
  0 <= offset <= 7 -> Forall isByte data ->
  8 * Z.of_nat (length data) <= MaxInt ->
  7 <= 8 * Z.of_nat (length data) - offset ->
  DecodeASCIIAt data offset
  = Some (stringOf (packedChars data offset),
          firstNull (packedChars data offset),
          charAfterNull (packedChars data offset)) /\
  Z.of_nat (length (packedChars data offset))
  = (8 * Z.of_nat (length data) - offset) / 7 /\
  Forall (fun c => 0 <= c < 128) (packedChars data offset) /\
  0 <= firstNull (packedChars data offset)
    <= Z.of_nat (length (packedChars data offset)).
Proof.
  intros Hoff Hbytes Hlen8 Hone.
  split; [by apply DecodeASCIIAt_packed|].
  split; [apply length_packedChars; zdm|].
  split; [|apply firstNull_bounds].
  unfold packedChars. apply Forall_fmap, Forall_forall. intros i _.
  apply (bitsValue_range data (offset + 7 * i) 7). lia.
Qed.

Lemma DecodeASCIIAt_chars_witness :
  DecodeASCIIAt [194; 0; 131] 2
  = Some (stringOf (packedChars [194; 0; 131] 2),
          firstNull (packedChars [194; 0; 131] 2),
          charAfterNull (packedChars [194; 0; 131] 2)) /\
  Z.of_nat (length (packedChars [194; 0; 131] 2))
  = (8 * Z.of_nat (length [194; 0; 131]) - 2) / 7 /\
  Forall (fun c => 0 <= c < 128) (packedChars [194; 0; 131] 2) /\
  0 <= firstNull (packedChars [194; 0; 131] 2)
    <= Z.of_nat (length (packedChars [194; 0; 131] 2)).
Proof.
  apply (DecodeASCIIAt_chars [194; 0; 131] 2).
  - lia.
  - repeat constructor; unfold isByte; lia.
  - by vm_compute.
  - by vm_compute.
Defined.

End PackedChars.

Section DecodedFields.
Import GoInt Mem Bitextract Epc.

Lemma of_uint64_small v : 0 <= v < 2 ^ 63 -> of_uint64 v = v.
Proof.
  intros Hv. apply wrap_id. unfold in_range, MinInt, MaxInt. lia.
Qed.

Lemma bitsValue_small src start len :
  0 <= len <= 62 -> 0 <= bitsValue src start len < 2 ^ 63.
Proof.
  intros Hl. pose proof (bitsValue_range src start len ltac:(lia)).
  assert (2 ^ len <= 2 ^ 62) by (apply Z.pow_le_mono_r; lia). lia.
Qed.

(** The part of [DecodeSGTIN] after the header: the fields are the bits of
    the tag. *)
Lemma decodeFields_bits b serial' :
  (12 <= length b)%nat -> Forall isByte b -> bitsValue b 11 3 <= 6 ->
  decodeFields b serial' = Some (decodedFields b serial', None).
Proof.
  intros Hlen Hb Hp. unfold decodeFields, decodedFields.
  pose proof (bitsValue_range b 11 3 ltac:(lia)) as Hp0.
  change filterExt with (builtExtractor 8 3).
  change partitionExt with (builtExtractor 11 3).
  rewrite !ExtractUInt64_builtExtractor
    by (done || lia || (unfold valid_bounds, MaxInt; lia)).
  cbn [mbind option_bind].
  rewrite !of_uint64_small by (apply bitsValue_small; lia).
  remember (bitsValue b 11 3) as p eqn:Ep.
  destruct (Z.ltb_spec p 0); [lia|].
  destruct (Z.gtb_spec p 6); [lia|]. cbn [orb].
  assert (p = 0 \/ p = 1 \/ p = 2 \/ p = 3 \/ p = 4 \/ p = 5 \/ p = 6)
    as Hc by lia.
  destruct Hc as [->|[->|[->|[->|[->|[->| ->]]]]]].
  all: match goal with
       | |- context [index companyExt ?q] =>
           let w := eval vm_compute in (companyWidth q) in
           change (index companyExt q) with (Some (builtExtractor 14 w));
           change (index iirExt q)
             with (Some (builtExtractor (14 + w) (44 - w)));
           change (companyWidth q) with w;
           let mi := eval vm_compute in (10 ^ q) in
           change (index maxItems q) with (Some mi);
           change (10 ^ q) with mi
       end.
  all: cbn [mbind option_bind].
  all: rewrite !ExtractUInt64_builtExtractor
         by (done || lia || (unfold valid_bounds, MaxInt; lia)).
  all: cbn [mbind option_bind].
  all: rewrite !of_uint64_small by (apply bitsValue_small; lia).
  all: match goal with
       | |- context [bitsValue ?bb ?s ?w / _] =>
           pose proof (bitsValue_range bb s w ltac:(lia)) as Hiir;
           remember (bitsValue bb s w) as iir eqn:Eiir
       end.
  all: rewrite Z.quot_div_nonneg by lia.
  all: cbn [Z.gtb Z.compare].
  all: cbn [Z.add Z.sub Z.opp Z.pos_sub Z.pow Z.pow_pos Pos.add Pos.succ
            Pos.pred_double Pos.iter Z.mul Pos.mul Z.succ_double Z.pred_double
            Z.double] in Hiir.
  all: repeat match goal with
         | |- context [mul ?x ?y] => rewrite (mul_id x y) by zdm
         | |- context [sub ?x ?y] => rewrite (sub_id x y) by zdm
         end.
  all: done.
Qed.

Lemma index_head (b : list Z) : (1 <= length b)%nat -> index b 0 = Some (nthByte b 0).
Proof.
  intros H. unfold index, nthByte. cbn [Z.ltb Z.compare Z.to_nat].
  destruct b; [cbn in H; lia|done].
Qed.

(** [DecodeSGTIN] on the 12 bytes of an SGTIN-96 tag. *)
Lemma DecodeSGTIN96_bits b :
  length b = 12%nat -> Forall isByte b -> nthByte b 0 = SGTIN96Header ->
  bitsValue b 11 3 <= 6 ->
  DecodeSGTIN b
  = Some (decodedFields b (fmtD (bitsValue b 58 38)), None).
Proof.
  intros Hlen Hb Hh Hp. unfold DecodeSGTIN, decodeSerial.
  rewrite Hlen. cbn [Z.of_nat Z.eqb Pos.of_succ_nat Pos.succ].
  rewrite index_head, Hh by lia. cbn [mbind option_bind].
  change (SGTIN96Header =? SGTIN96Header) with true. cbn match.
  change (negb (Z.of_nat 12 =? SGTIN96NumBytes)) with false. cbn match.
  change serial96Ext with (builtExtractor 58 38).
  rewrite ExtractUInt64_builtExtractor
    by (done || lia || (unfold valid_bounds, MaxInt; lia)).
  cbn [mbind option_bind].
  rewrite of_uint64_small by (apply bitsValue_small; lia).
  apply decodeFields_bits; [lia|done|done].
Qed.

(** X14. An SGTIN-96 tag: 12 bytes, the first 0x30, with a partition of at
    most 6. [DecodeSGTIN] returns no error and the SGTIN whose filter is
    bits 8-10, whose partition is bits 11-13, whose company prefix is the
    bits from 14 on over the width of the partition, whose indicator is the
    rest of the 44 bits divided by 10^partition, and whose serial is the
    decimal form of the last 38 bits; the item reference is the rest of the
    44 bits minus indicator * 10^partition * 10, as the code computes it.
    The filter is at most 7, the company prefix below 2^40, and the
    indicator and the number of the serial are not negative. *)
Theorem DecodeSGTIN96_fields b :
  length b = 12%nat -> Forall isByte b -> nthByte b 0 = SGTIN96Header ->
  bitsValue b 11 3 <= 6 ->
  let s := decodedFields b (fmtD (bitsValue b 58 38)) in
  DecodeSGTIN b = Some (s, None) /\
  0 <= filter s <= 7 /\ 0 <= partition s <= 6 /\
  0 <= companyPrefix s < 2 ^ 40 /\ 0 <= indicator s /\
  0 <= bitsValue b 58 38 < 2 ^ 38.
Proof.
  intros Hlen Hb Hh Hp s.
  split; [by apply DecodeSGTIN96_bits|]. unfold s, decodedFields.
  cbn [filter partition companyPrefix indicator].
  pose proof (bitsValue_range b 8 3 ltac:(lia)) as Hf.
  pose proof (bitsValue_range b 11 3 ltac:(lia)) as Hp0.
  change (2 ^ 3) with 8 in Hf.
  split; [lia|]. split; [lia|].
  remember (bitsValue b 11 3) as p eqn:Ep.
  assert (0 <= companyWidth p <= 40) as Hcw.
  { assert (p = 0 \/ p = 1 \/ p = 2 \/ p = 3 \/ p = 4 \/ p = 5 \/ p = 6)
      as Hc by lia.
    destruct Hc as [->|[->|[->|[->|[->|[->| ->]]]]]]; by vm_compute. }
  pose proof (bitsValue_range b 14 (companyWidth p) ltac:(lia)) as Hcp.
  assert (2 ^ companyWidth p <= 2 ^ 40) by (apply Z.pow_le_mono_r; lia).
  split; [lia|]. split; [|apply bitsValue_range; lia].
  apply Z.div_pos; [|apply Z.pow_pos_nonneg; lia].
  apply bitsValue_range. lia.
Qed.

Lemma DecodeSGTIN96_fields_witness :
  let b := [48; 20; 54; 57; 248; 65; 145; 173; 34; 144; 22; 7] in
  let s := decodedFields b (fmtD (bitsValue b 58 38)) in
  DecodeSGTIN b = Some (s, None) /\
  0 <= filter s <= 7 /\ 0 <= partition s <= 6 /\
  0 <= companyPrefix s < 2 ^ 40 /\ 0 <= indicator s /\
  0 <= bitsValue b 58 38 < 2 ^ 38.
Proof.
  apply DecodeSGTIN96_fields.
  - reflexivity.
  - repeat constructor; unfold isByte; lia.
  - reflexivity.
  - by vm_compute.
Defined.

Lemma substring_stringOf n l :
  substring 0 n (stringOf l) = stringOf (take n l).
Proof.
  revert n. induction l as [|x l IH]; intros [|n]; cbn; try done.
  by rewrite IH.
Qed.

Lemma packedChars_serial198 b :
  length b = 25%nat -> Forall isByte b ->
  packedChars (drop 7 b) 2 = serial198Chars b.
Proof.
  intros Hlen Hb. unfold packedChars, serial198Chars.
  rewrite length_drop, Hlen.
  change ((8 * Z.of_nat (25 - 7) - 2) / 7) with 20.
  apply list_eq. intros j. rewrite !list_lookup_fmap.
  destruct (decide (j < 20)%nat) as [Hj|Hj].
  - rewrite (lookup_seqZ_lt _ _ j) by lia. cbn [fmap option_fmap option_map].
    f_equal. unfold packedChar.
    rewrite bitsValue_drop by (done || lia). f_equal. lia.
  - rewrite (lookup_seqZ_ge _ _ j) by lia. done.
Qed.

(** [DecodeSGTIN] on the 25 bytes of an SGTIN-198 tag. *)
Lemma DecodeSGTIN198_bits b :
  length b = 25%nat -> Forall isByte b -> nthByte b 0 = SGTIN198Header ->
  bitsValue b 11 3 <= 6 ->
  DecodeSGTIN b
  = Some (decodedFields b
            (stringOf
               (if charAfterNull (serial198Chars b) then serial198Chars b
                else take (Z.to_nat (firstNull (serial198Chars b)))
                          (serial198Chars b))), None).
Proof.
  intros Hlen Hb Hh Hp. unfold DecodeSGTIN, decodeSerial, sliceFrom.
  rewrite index_head, Hh by lia. rewrite !Hlen.
  change (Z.of_nat 25 =? 0) with false. cbn match.
  cbn [mbind option_bind].
  change (SGTIN198Header =? SGTIN96Header) with false.
  change (SGTIN198Header =? SGTIN198Header) with true. cbn match.
  change (negb (Z.of_nat 25 =? SGTIN198NumBytes)) with false. cbn match.
  change ((0 <=? serialStartByte) && (serialStartByte <=? Z.of_nat 25))
    with true. cbn match. cbn [mbind option_bind].
  change (Z.to_nat serialStartByte) with 7%nat.
  change serialOffsetBit with 2.
  rewrite DecodeASCIIAt_packed;
    [|lia|by apply Forall_drop|rewrite length_drop, Hlen; by vm_compute
     |rewrite length_drop, Hlen; by vm_compute].
  rewrite packedChars_serial198 by done.
  cbn [mbind option_bind].
  pose proof (firstNull_bounds (serial198Chars b)) as Hfn.
  destruct (charAfterNull (serial198Chars b)).
  - apply decodeFields_bits; [lia|done|done].
  - unfold strPrefix. rewrite strlen_stringOf.
    destruct (Z.leb_spec 0 (firstNull (serial198Chars b))); [|lia].
    destruct (Z.leb_spec (firstNull (serial198Chars b))
                         (Z.of_nat (length (serial198Chars b)))); [|lia].
    cbn [andb mbind option_bind]. rewrite substring_stringOf.
    apply decodeFields_bits; [lia|done|done].
Qed.

(** X15. An SGTIN-198 tag: 25 bytes, the first 0x36, with a partition of at
    most 6. [DecodeSGTIN] returns no error; the numeric fields are the same
    bits as for SGTIN-96, and the serial is made of the 20 characters of 7
    bits from bit 58 on: all 20 of them when a character that is not null
    follows a null one, the characters before the first null otherwise.
    The serial has at most 20 characters, each below 128. *)
Theorem DecodeSGTIN198_fields b :
  length b = 25%nat -> Forall isByte b -> nthByte b 0 = SGTIN198Header ->
  bitsValue b 11 3 <= 6 ->
  let serial' :=
    if charAfterNull (serial198Chars b) then serial198Chars b
    else take (Z.to_nat (firstNull (serial198Chars b))) (serial198Chars b) in
  DecodeSGTIN b = Some (decodedFields b (stringOf serial'), None) /\
  (length serial' <= 20)%nat /\ Forall (fun c => 0 <= c < 128) serial'.
Proof.
  intros Hlen Hb Hh Hp serial'.
  split; [by apply DecodeSGTIN198_bits|].
  assert (length (serial198Chars b) = 20%nat) as Hl by reflexivity.
  assert (Forall (fun c => 0 <= c < 128) (serial198Chars b)) as Hc.
  { unfold serial198Chars. apply Forall_fmap, Forall_forall. intros i _.
    apply (bitsValue_range b (58 + 7 * i) 7). lia. }
  unfold serial'. destruct (charAfterNull (serial198Chars b)).
  - split; [lia|done].
  - split; [rewrite length_take; lia|by apply Forall_take].
Qed.

Lemma DecodeSGTIN198_fields_witness :
  let b := [54; 20; 54; 57; 248; 65; 145; 164; 101; 217; 179; 122; 23; 108;
            94; 177; 118; 157; 114; 229; 87; 213; 46; 92; 188] in
  let serial' :=
    if charAfterNull (serial198Chars b) then serial198Chars b
    else take (Z.to_nat (firstNull (serial198Chars b))) (serial198Chars b) in
  DecodeSGTIN b = Some (decodedFields b (stringOf serial'), None) /\
  (length serial' <= 20)%nat /\ Forall (fun c => 0 <= c < 128) serial'.
Proof.
  apply DecodeSGTIN198_fields.
  - reflexivity.
  - repeat constructor; unfold isByte; lia.
  - reflexivity.
  - by vm_compute.
Defined.

End DecodedFields.

Section DecimalFacts.
Import GoInt Mem Bitextract Epc.

Lemma length_digits k n : length (digits k n) = k.
Proof.
  revert n. induction k as [|k IH]; intros n; cbn [digits]; [done|].
  rewrite length_app, IH. cbn. lia.
Qed.

Lemma digits_zero k : digits k 0 = replicate k 48.
Proof.
  induction k as [|k IH]; [done|]. cbn [digits].
  rewrite Z.div_0_l, Z.mod_0_l, IH by lia.
  change (48 + 0) with 48. by rewrite <- replicate_cons_app.
Qed.

Lemma digits_isDigit k n : Forall isDigit (digits k n).
Proof.
  revert n. induction k as [|k IH]; intros n; cbn [digits]; [constructor|].
  apply Forall_app. split; [apply IH|].
  constructor; [|constructor]. unfold isDigit. zdm.
Qed.

Lemma decimalValue_snoc l c :
  decimalValue (l ++ [c]) = decimalValue l * 10 + (c - 48).
Proof. unfold decimalValue. by rewrite foldl_app. Qed.

Lemma decimalValue_digits k n :
  0 <= n < 10 ^ Z.of_nat k -> decimalValue (digits k n) = n.
Proof.
  revert n. induction k as [|k IH]; intros n Hn.
  { cbn in *. unfold decimalValue. cbn. lia. }
  cbn [digits]. rewrite decimalValue_snoc, IH.
  - zdm.
  - rewrite Nat2Z.inj_succ, Z.pow_succ_r in Hn by lia. zdm.
Qed.

(** The digits of a number made of two parts. *)
Lemma digits_app a b x y :
  0 <= y < 10 ^ Z.of_nat b ->
  digits (a + b) (x * 10 ^ Z.of_nat b + y) = digits a x ++ digits b y.
Proof.
  revert x y. induction b as [|b IH]; intros x y Hy.
  { cbn in Hy. replace y with 0 by lia. rewrite Nat.add_0_r. cbn [digits].
    rewrite app_nil_r. f_equal. cbn. lia. }
  rewrite Nat2Z.inj_succ, Z.pow_succ_r in * by lia.
  replace (a + S b)%nat with (S (a + b)) by lia. cbn [digits].
  assert (0 < 10 ^ Z.of_nat b) by (apply Z.pow_pos_nonneg; lia).
  replace ((x * (10 * 10 ^ Z.of_nat b) + y) / 10)
    with (x * 10 ^ Z.of_nat b + y / 10).
  2:{ replace (x * (10 * 10 ^ Z.of_nat b) + y)
        with (y + (x * 10 ^ Z.of_nat b) * 10) by lia.
      rewrite Z.div_add by lia. lia. }
  replace ((x * (10 * 10 ^ Z.of_nat b) + y) mod 10) with (y mod 10).
  2:{ replace (x * (10 * 10 ^ Z.of_nat b) + y)
        with (y + (x * 10 ^ Z.of_nat b) * 10) by lia.
      by rewrite Z.mod_add by lia. }
  rewrite IH by zdm. by rewrite app_assoc.
Qed.

(** The weighted sum of a number made of two parts. *)
Lemma weightedDigits_app a b x y q :
  0 <= y < 10 ^ Z.of_nat b ->
  weightedDigits (b + a) (x * 10 ^ Z.of_nat b + y) q
  = weightedDigits b y q + weightedDigits a x (q + Z.of_nat b).
Proof.
  revert x y q. induction b as [|b IH]; intros x y q Hy.
  { change (10 ^ Z.of_nat 0) with 1 in *. replace y with 0 by lia.
    cbn [weightedDigits Nat.add]. rewrite !Z.add_0_r, Z.mul_1_r. done. }
  rewrite Nat2Z.inj_succ, Z.pow_succ_r in * by lia.
  cbn [weightedDigits Nat.add].
  assert (0 < 10 ^ Z.of_nat b) by (apply Z.pow_pos_nonneg; lia).
  replace ((x * (10 * 10 ^ Z.of_nat b) + y) / 10)
    with (x * 10 ^ Z.of_nat b + y / 10).
  2:{ replace (x * (10 * 10 ^ Z.of_nat b) + y)
        with (y + (x * 10 ^ Z.of_nat b) * 10) by lia.
      rewrite Z.div_add by lia. lia. }
  replace ((x * (10 * 10 ^ Z.of_nat b) + y) mod 10) with (y mod 10).
  2:{ replace (x * (10 * 10 ^ Z.of_nat b) + y)
        with (y + (x * 10 ^ Z.of_nat b) * 10) by lia.
      by rewrite Z.mod_add by lia. }
  rewrite IH by zdm.
  replace (q + 1 + Z.of_nat b) with (q + Z.succ (Z.of_nat b)) by lia. lia.
Qed.

(** Digits beyond the length of a number add nothing. *)
Lemma weightedDigits_short k j n q :
  0 <= n < 10 ^ Z.of_nat k ->
  weightedDigits (k + j) n q = weightedDigits k n q.
Proof.
  intros Hn.
  pose proof (weightedDigits_app j k 0 n q Hn) as H.
  rewrite Z.mul_0_l, Z.add_0_l, weightedDigits_zero in H. lia.
Qed.

Lemma charCode_pretty_N_char (d : N) :
  (d < 10)%N -> charCode (pretty_N_char d) = 48 + Z.of_N d.
Proof.
  intros Hd.
  assert (d = 0 \/ d = 1 \/ d = 2 \/ d = 3 \/ d = 4 \/ d = 5 \/ d = 6 \/
          d = 7 \/ d = 8 \/ d = 9)%N as Hc by lia.
  destruct Hc as [->|[->|[->|[->|[->|[->|[->|[->|[->| ->]]]]]]]]]; reflexivity.
Qed.

(** What the printer of stdpp writes for a number below 10^k: its [k]
    digits without the leading zeros. *)
Lemma pretty_N_go_digits k : forall (x : N) s,
  Z.of_N x < 10 ^ Z.of_nat k ->
  exists z : nat,
    (z <= k)%nat /\
    bytesOf (pretty_N_go x s) = drop z (digits k (Z.of_N x)) ++ bytesOf s /\
    take z (digits k (Z.of_N x)) = replicate z 48 /\
    (x <> 0%N -> (z < k)%nat).
Proof.
  induction k as [|k IH]; intros x s Hx.
  { assert (x = 0%N) as -> by (cbn in Hx; lia). exists 0%nat.
    rewrite pretty_N_go_0. split; [lia|]. split; [done|]. split; [done|].
    done. }
  destruct (decide (x = 0%N)) as [->|Hx0].
  { exists (S k). rewrite pretty_N_go_0. change (Z.of_N 0) with 0.
    rewrite digits_zero. split; [lia|]. split.
    - rewrite drop_ge by (rewrite length_replicate; lia). done.
    - split; [|done]. apply take_ge. rewrite length_replicate. lia. }
  rewrite pretty_N_go_step by lia.
  rewrite Nat2Z.inj_succ, Z.pow_succ_r in Hx by lia.
  destruct (IH (x `div` 10)%N (String (pretty_N_char (x `mod` 10)) s))
    as (z & Hz & Hb & Ht & _).
  { rewrite N2Z.inj_div. change (Z.of_N 10) with 10. zdm. }
  exists z. split; [lia|]. cbn [digits].
  rewrite N2Z.inj_div in Hb, Ht. change (Z.of_N 10) with 10 in Hb, Ht.
  split; [|split; [|lia]].
  - rewrite Hb. cbn [bytesOf].
    rewrite charCode_pretty_N_char by (apply N.mod_lt; lia).
    rewrite N2Z.inj_mod. change (Z.of_N 10) with 10.
    rewrite drop_app_le by (rewrite length_digits; lia).
    by rewrite <- app_assoc.
  - rewrite take_app_le by (rewrite length_digits; lia). done.
Qed.

Lemma bytesOf_app a b : bytesOf (a +:+ b) = bytesOf a ++ bytesOf b.
Proof.
  induction a as [|c a IH]; [done|].
  change (String c a +:+ b) with (String c (a +:+ b)).
  cbn [bytesOf app]. by rewrite IH.
Qed.

Lemma bytesOf_stringOf l :
  Forall isByte l -> bytesOf (stringOf l) = l.
Proof.
  induction 1 as [|x l Hx Hl IH]; [done|]. cbn. rewrite IH. f_equal.
  unfold charCode, codeChar. rewrite N_ascii_embedding.
  - unfold isByte in Hx. lia.
  - unfold isByte in Hx. lia.
Qed.

Lemma strlen_bytesOf s : strlen s = Z.of_nat (length (bytesOf s)).
Proof.
  unfold strlen. f_equal. induction s as [|c s IH]; [done|]. cbn. by rewrite IH.
Qed.

(** The verb [%d] on a number below 10^k. *)
Lemma fmtD_digits k n :
  (1 <= k)%nat -> 0 <= n < 10 ^ Z.of_nat k ->
  exists z : nat,
    (z < k)%nat /\ bytesOf (fmtD n) = drop z (digits k n) /\
    take z (digits k n) = replicate z 48.
Proof.
  intros Hk Hn. unfold fmtD. destruct n as [|q|q]; [| |lia].
  - exists (k - 1)%nat. rewrite digits_zero. split; [lia|]. split.
    + rewrite drop_replicate. replace (k - (k - 1))%nat with 1%nat by lia. done.
    + rewrite take_replicate. f_equal. lia.
  - change (pretty (Z.pos q)) with (pretty_N_go (N.pos q) "").
    destruct (pretty_N_go_digits k (N.pos q) "") as (z & Hz & Hb & Ht & Hlt).
    { change (Z.of_N (N.pos q)) with (Z.pos q). lia. }
    change (Z.of_N (N.pos q)) with (Z.pos q) in Hb, Ht.
    exists z. split; [by apply Hlt|]. split; [|done].
    rewrite Hb. cbn [bytesOf]. by rewrite app_nil_r.
Qed.

Lemma fmtD_digit n : 0 <= n <= 9 -> bytesOf (fmtD n) = digits 1 n.
Proof.
  intros Hn. destruct (fmtD_digits 1 n) as (z & Hz & Hb & _); [lia|cbn; lia|].
  replace z with 0%nat in Hb by lia. done.
Qed.

(** The verb [%0*d] with a width that the number fits: the digits of the
    number, zero-padded to the width. *)
Lemma fmt0StarD_digits k n :
  (1 <= k)%nat -> Z.of_nat k <= 1000000 -> 0 <= n < 10 ^ Z.of_nat k ->
  bytesOf (fmt0StarD (Z.of_nat k) n) = digits k n.
Proof.
  intros Hk Hk6 Hn. unfold fmt0StarD.
  destruct (Z.gtb_spec (Z.of_nat k) 1000000); [lia|].
  destruct (Z.ltb_spec (Z.of_nat k) (-1000000)); [lia|]. cbn [orb].
  destruct (Z.ltb_spec (Z.of_nat k) 0); [lia|].
  destruct (Z.ltb_spec n 0); [lia|].
  destruct (fmtD_digits k n Hk Hn) as (z & Hz & Hb & Ht).
  rewrite bytesOf_app, strlen_bytesOf, Hb, length_drop, length_digits.
  unfold padding. rewrite bytesOf_stringOf.
  2:{ apply Forall_replicate. by vm_compute. }
  replace (Z.to_nat (Z.of_nat k - Z.of_nat (k - z))) with z by lia.
  change (charCode "0") with 48. rewrite <- Ht. apply take_drop.
Qed.

End DecimalFacts.

Section RangeFacts.
Import GoInt Mem Bitextract Epc.

Lemma IsGS1AIEncodable_true s :
  IsGS1AIEncodable s = Some true
  <-> charsThenNulls gs1AIChars (bytesOf s).
Proof.
  apply (loop_true gs1AIChars IsGS1AIEncodable_bytes gs1AIChars_range);
    [done|done|apply bytesOf_nonneg].
Qed.

Lemma IsGS1AIEncodable_panics s :
  IsGS1AIEncodable s = None <-> charsThenDEL gs1AIChars (bytesOf s).
Proof.
  apply (loop_panics gs1AIChars IsGS1AIEncodable_bytes gs1AIChars_range);
    [done|done|apply bytesOf_nonneg].
Qed.

(** [ValidateRanges] reaches the test of the serial's characters exactly
    when the ranges hold; otherwise it returns an error. *)
Lemma ValidateRanges_cases s :
  (rangesOK s /\
   ValidateRanges s
   = (ok ← IsGS1AIEncodable (serial s);
      if (ok : bool) then Some None else Some (Some ErrSerialChars))) \/
  (~ rangesOK s /\ exists e, ValidateRanges s = Some (Some e)).
Proof.
  unfold ValidateRanges, rangesOK.
  destruct (Z.ltb_spec (indicator s) 0);
    [right; split; [lia|eexists; reflexivity]|].
  destruct (Z.gtb_spec (indicator s) 9);
    [right; split; [lia|eexists; reflexivity]|]. cbn [orb].
  destruct (IsValid (filter s)) eqn:Hf; cbn [negb];
    [|right; split; [intros (_ & ? & _); done|eexists; reflexivity]].
  destruct (Z.ltb_spec (partition s) 0);
    [right; split; [lia|eexists; reflexivity]|].
  destruct (Z.gtb_spec (partition s) 6);
    [right; split; [lia|eexists; reflexivity]|]. cbn [orb].
  remember (partition s) as p eqn:Ep.
  assert (p = 0 \/ p = 1 \/ p = 2 \/ p = 3 \/ p = 4 \/ p = 5 \/ p = 6)
    as Hc by lia.
  destruct Hc as [->|[->|[->|[->|[->|[->| ->]]]]]].
  all: match goal with
       | |- context [index maxItems ?q] =>
           let mi := eval vm_compute in (10 ^ q) in
           let mp := eval vm_compute in (10 ^ (12 - q) - 1) in
           let mi1 := eval vm_compute in (10 ^ q - 1) in
           change (index maxItems q) with (Some mi);
           change (index maxPrefix q) with (Some mp);
           cbn [mbind option_bind];
           change (GoInt.sub mi 1) with mi1;
           change (10 ^ q) with mi;
           change (10 ^ (12 - q)) with (mp + 1)
       end.
  all: destruct (Z.ltb_spec (itemRef s) 0);
         [right; split; [lia|eexists; reflexivity]|].
  all: match goal with
       | |- context [itemRef ?x >? ?v] => destruct (Z.gtb_spec (itemRef x) v)
       end; [right; split; [lia|eexists; reflexivity]|]; cbn [orb].
  all: destruct (Z.ltb_spec (companyPrefix s) 0);
         [right; split; [lia|eexists; reflexivity]|].
  all: match goal with
       | |- context [companyPrefix ?x >? ?v] =>
           destruct (Z.gtb_spec (companyPrefix x) v)
       end; [right; split; [lia|eexists; reflexivity]|]; cbn [orb].
  all: pose proof (Z.ge_le _ _ (Z.le_ge _ _ (Nat2Z.is_nonneg
                     (String.length (serial s))))) as Hlen0.
  all: fold (strlen (serial s)) in Hlen0.
  all: destruct (Z.eqb_spec (strlen (serial s)) 0);
         [right; split; [lia|eexists; reflexivity]|].
  all: destruct (Z.gtb_spec (strlen (serial s)) 20);
         [right; split; [lia|eexists; reflexivity]|].
  all: left; split; [lia|done].
Qed.

(** X16. [ValidateRanges] returns no error exactly when the indicator is in
    [0, 9], the filter is valid, the partition is in [0, 6], the item
    reference is in [0, 10^partition), the company prefix is in
    [0, 10^(12 - partition)), the serial has 1 to 20 bytes, and the serial is made
    of characters of the AI set followed by null bytes only. With the
    ranges as before and a serial in which characters of the set are
    followed by the byte 127, it panics; in every other case it returns an
    error. *)
Theorem ValidateRanges_spec s :
  (ValidateRanges s = Some None
   <-> rangesOK s /\ charsThenNulls gs1AIChars (bytesOf (serial s))) /\
  (ValidateRanges s = None
   <-> rangesOK s /\ charsThenDEL gs1AIChars (bytesOf (serial s))).
Proof.
  destruct (ValidateRanges_cases s) as [[Hok ->]|[Hbad [e ->]]].
  - rewrite <- IsGS1AIEncodable_true, <- IsGS1AIEncodable_panics.
    destruct (IsGS1AIEncodable (serial s)) as [[|]|]; cbn;
      (split; (split; [intros H; first [done | by split]
                      |intros [_ H]; done])).
  - split; (split; [done | intros [H _]; done]).
Qed.

End RangeFacts.

Section GtinFacts.
Import GoInt Mem Bitextract Epc.

(** The check digit in terms of the weighted digit sums of the three
    components. *)
Lemma checkDigit_total s :
  0 <= itemRef s <= MaxInt ->
  0 <= companyPrefix s <= MaxInt ->
  0 <= indicator s <= MaxInt ->
  checkDigit s
  = (10 - (weightedDigitSum (itemRef s) 1
           + weightedDigitSum (companyPrefix s) (13 - partition s)
           + weightedDigitSum (indicator s) 13) mod 10) mod 10.
Proof.
  intros Hi Hc Hd. unfold checkDigit.
  rewrite !checkSum_digits by done.
  assert (weightedDigitSum (companyPrefix s) (sub 13 (partition s))
          = weightedDigitSum (companyPrefix s) (13 - partition s)) as ->.
  { apply weightedDigits_parity, wrap_parity. }
  pose proof (weightedDigits_bounds 19 (itemRef s) 1) as B1.
  pose proof (weightedDigits_bounds 19 (companyPrefix s) (13 - partition s))
    as B2.
  pose proof (weightedDigits_bounds 19 (indicator s) 13) as B3.
  fold (weightedDigitSum (itemRef s) 1) in B1.
  fold (weightedDigitSum (companyPrefix s) (13 - partition s)) in B2.
  fold (weightedDigitSum (indicator s) 13) in B3.
  rewrite (add_id (weightedDigitSum (itemRef s) 1))
    by (unfold in_range, MinInt, MaxInt; lia).
  rewrite add_id by (unfold in_range, MinInt, MaxInt; lia).
  remember (weightedDigitSum (itemRef s) 1
            + weightedDigitSum (companyPrefix s) (13 - partition s)
            + weightedDigitSum (indicator s) 13) as T eqn:ET.
  assert (0 <= T) as Ht by lia.
  rewrite (Z.rem_mod_nonneg T) by lia.
  pose proof (Z.mod_pos_bound T 10 ltac:(lia)).
  rewrite sub_id by (unfold in_range, MinInt, MaxInt; lia).
  rewrite Z.rem_mod_nonneg by lia. done.
Qed.

(** The 14 digits of a GTIN are the digits of its four parts. *)
Lemma gtin_digits (k : nat) ind cp ir cd :
  (k <= 6)%nat -> 0 <= cp < 10 ^ Z.of_nat (12 - k) ->
  0 <= ir < 10 ^ Z.of_nat k -> 0 <= cd < 10 ->
  digits 1 ind ++ digits (12 - k) cp ++ digits k ir ++ digits 1 cd
  = digits 14 (((ind * 10 ^ Z.of_nat (12 - k) + cp) * 10 ^ Z.of_nat k + ir)
               * 10 + cd).
Proof.
  intros Hk Hcp Hir Hcd.
  replace 14%nat with (((1 + (12 - k)) + k) + 1)%nat by lia.
  match goal with
  | |- context [?X * 10 + cd] =>
      replace (X * 10 + cd) with (X * 10 ^ Z.of_nat 1 + cd)
        by (change (10 ^ Z.of_nat 1) with 10; lia)
  end.
  rewrite digits_app by (cbn; lia).
  rewrite digits_app by done.
  rewrite digits_app by done.
  by rewrite <- !app_assoc.
Qed.

(** The weighted sum of the 14 digits, part by part. *)
Lemma gtin_weights (k : nat) ind cp ir cd :
  (k <= 6)%nat -> 0 <= ind < 10 -> 0 <= cp < 10 ^ Z.of_nat (12 - k) ->
  0 <= ir < 10 ^ Z.of_nat k -> 0 <= cd < 10 ->
  weightedDigits 14
    (((ind * 10 ^ Z.of_nat (12 - k) + cp) * 10 ^ Z.of_nat k + ir) * 10 + cd) 0
  = cd + weightedDigitSum ir 1 + weightedDigitSum cp (13 - Z.of_nat k)
    + weightedDigitSum ind 13.
Proof.
  intros Hk Hind Hcp Hir Hcd. unfold weightedDigitSum.
  assert (weightedDigits 19 ir 1 = weightedDigits k ir 1) as ->.
  { replace 19%nat with (k + (19 - k))%nat by lia.
    by apply weightedDigits_short. }
  assert (weightedDigits 19 cp (13 - Z.of_nat k)
          = weightedDigits (12 - k) cp (13 - Z.of_nat k)) as ->.
  { replace 19%nat with ((12 - k) + (7 + k))%nat by lia.
    by apply weightedDigits_short. }
  assert (weightedDigits 19 ind 13 = weightedDigits 1 ind 13) as ->.
  { apply (weightedDigits_short 1 18). cbn. lia. }
  replace 14%nat with (1 + (k + ((12 - k) + 1)))%nat by lia.
  match goal with
  | |- context [?X * 10 + cd] =>
      replace (X * 10 + cd) with (X * 10 ^ Z.of_nat 1 + cd)
        by (change (10 ^ Z.of_nat 1) with 10; lia)
  end.
  rewrite weightedDigits_app by (cbn; lia).
  rewrite weightedDigits_app by done.
  rewrite weightedDigits_app by done.
  rewrite (weightedDigits_parity (12 - k) cp (13 - Z.of_nat k)
             (0 + Z.of_nat 1 + Z.of_nat k)) by zdm.
  replace (0 + Z.of_nat 1 + Z.of_nat k + Z.of_nat (12 - k)) with 13 by lia.
  cbn [weightedDigits]. unfold positionWeight. cbn [Z.odd].
  rewrite Z.mod_small by lia. change (0 + Z.of_nat 1) with 1. lia.
Qed.

(** The digits [GTIN] prints for an SGTIN in range, and their check. *)
Lemma GTIN_digits14 s :
  rangesOK s -> wellFormedGTIN14 (GTIN s).
Proof.
  intros Hok.
  destruct Hok as (Hind & _ & Hp & Hir & Hcp & _).
  remember (Z.to_nat (partition s)) as k eqn:Ek.
  assert (partition s = Z.of_nat k) as Hpk by lia.
  assert (k <= 6)%nat as Hk6 by lia.
  rewrite Hpk in Hir, Hcp.
  replace (12 - Z.of_nat k) with (Z.of_nat (12 - k)) in Hcp by lia.
  assert (10 ^ Z.of_nat k <= 10 ^ 6) by (apply Z.pow_le_mono_r; lia).
  assert (10 ^ Z.of_nat (12 - k) <= 10 ^ 12) by (apply Z.pow_le_mono_r; lia).
  pose proof (checkDigit_total s ltac:(unfold MaxInt; lia)
                ltac:(unfold MaxInt; lia) ltac:(unfold MaxInt; lia)) as Hcd.
  rewrite Hpk in Hcd.
  remember (checkDigit s) as cd eqn:Ecd.
  assert (0 <= cd < 10) as Hcdr.
  { rewrite Hcd. apply Z.mod_pos_bound. lia. }
  assert (bytesOf (GTIN s)
          = digits 14 (((indicator s * 10 ^ Z.of_nat (12 - k)
                         + companyPrefix s) * 10 ^ Z.of_nat k + itemRef s)
                       * 10 + cd)) as Hbytes.
  { rewrite <- gtin_digits by (done || lia).
    unfold GTIN. rewrite <- Ecd, Hpk.
    destruct (Z.eqb_spec (Z.of_nat k) 0) as [Hk0|Hk0].
    - assert (k = 0%nat) as -> by lia.
      rewrite !bytesOf_app, !fmtD_digit by lia.
      change 12 with (Z.of_nat 12).
      rewrite fmt0StarD_digits by (done || lia). done.
    - rewrite sub_id by zdm.
      replace (12 - Z.of_nat k) with (Z.of_nat (12 - k)) by lia.
      rewrite !bytesOf_app, !fmtD_digit by lia.
      rewrite !fmt0StarD_digits by (done || lia).
      done. }
  unfold wellFormedGTIN14. rewrite Hbytes.
  split; [apply length_digits|]. split; [apply digits_isDigit|].
  rewrite decimalValue_digits.
  2:{ change (10 ^ Z.of_nat 14) with 100000000000000.
      assert (10 ^ Z.of_nat (12 - k) * 10 ^ Z.of_nat k = 1000000000000)
        as Hpow.
      { rewrite <- Z.pow_add_r by lia.
        replace (Z.of_nat (12 - k) + Z.of_nat k) with 12 by lia. done. }
      remember (10 ^ Z.of_nat (12 - k)) as P.
      remember (10 ^ Z.of_nat k) as Q.
      clear -Hpow Hind Hcp Hir Hcdr. nia. }
  rewrite gtin_weights by (done || lia).
  remember (weightedDigitSum (itemRef s) 1) as A.
  remember (weightedDigitSum (companyPrefix s) (13 - Z.of_nat k)) as B.
  remember (weightedDigitSum (indicator s) 13) as C.
  clear -Hcd. zdm.
Qed.

(** X17. For an SGTIN that [ValidateRanges] accepts, [GTIN] returns a
    well-formed GTIN-14: 14 decimal digits whose sum, weighted 3 and 1
    alternately with weight 1 on the last digit, is a multiple of 10. *)
Theorem GTIN_wellFormed s :
  ValidateRanges s = Some None -> wellFormedGTIN14 (GTIN s).
Proof.
  intros Hval.
  destruct (ValidateRanges_cases s) as [[Hok _]|[_ [e He]]].
  - by apply GTIN_digits14.
  - rewrite He in Hval. discriminate.
Qed.

Lemma GTIN_wellFormed_witness :
  wellFormedGTIN14 (GTIN (mkSGTIN 1 5 614141 8 12345 "6789")).
Proof.
  apply GTIN_wellFormed. by vm_compute.
Defined.

End GtinFacts.

Section ConversionFacts.
Import GoInt Mem Bitextract Epc.

Lemma fromHexChar_range c v : fromHexChar c = Some v -> 0 <= v <= 15.
Proof.
  unfold fromHexChar. intros H.
  destruct (Z.leb_spec 48 c), (Z.leb_spec c 57); cbn [andb] in H;
    try (injection H as <-; lia);
    destruct (Z.leb_spec 97 c), (Z.leb_spec c 102); cbn [andb] in H;
    try (injection H as <-; lia);
    destruct (Z.leb_spec 65 c), (Z.leb_spec c 70); cbn [andb] in H;
    try (injection H as <-; lia); done.
Qed.

Lemma hexDecode_isByte_n (n : nat) : forall l b,
  (length l <= n)%nat -> hexDecode l = Some b -> Forall isByte b.
Proof.
  induction n as [|n IH]; intros l b Hn H.
  { destruct l; [|cbn in Hn; lia]. injection H as <-. constructor. }
  destruct l as [|x [|y rest]]; [injection H as <-; constructor|done|].
  cbn [hexDecode] in H.
  destruct (fromHexChar x) as [vx|] eqn:Hx; [|done].
  destruct (fromHexChar y) as [vy|] eqn:Hy; [|done].
  destruct (hexDecode rest) as [r|] eqn:Hr; [|done].
  cbn in H. injection H as <-.
  apply fromHexChar_range in Hx, Hy. constructor.
  - unfold isByte. lia.
  - apply (IH rest); [cbn in Hn; lia|done].
Qed.

Lemma hexDecode_isByte l b : hexDecode l = Some b -> Forall isByte b.
Proof. by apply (hexDecode_isByte_n (length l)). Qed.

Lemma isDigit_gs1AIChar c : isDigit c -> c ∈ gs1AIChars.
Proof.
  intros Hc. unfold gs1AIChars. apply elem_of_app. right.
  apply elem_of_app. left. apply elem_of_seqZ. unfold isDigit in Hc. lia.
Qed.

(** A number printed in decimal is a serial that the test of the characters
    accepts. *)
Lemma IsGS1AIEncodable_decimal v :
  0 <= v < 10 ^ 12 -> IsGS1AIEncodable (fmtD v) = Some true.
Proof.
  intros Hv. apply IsGS1AIEncodable_true.
  exists (bytesOf (fmtD v)), 0%nat. split; [by rewrite app_nil_r|].
  destruct (fmtD_digits 12 v) as (z & _ & -> & _); [lia|done|].
  apply Forall_drop. eapply Forall_impl; [apply digits_isDigit|].
  apply isDigit_gs1AIChar.
Qed.

Lemma decodeFields_bad_partition b serial' :
  (12 <= length b)%nat -> Forall isByte b -> 6 < bitsValue b 11 3 ->
  decodeFields b serial'
  = Some (zeroSGTIN, Some (ErrInvalidPartition (bitsValue b 11 3))).
Proof.
  intros Hlen Hb Hp. unfold decodeFields.
  change filterExt with (builtExtractor 8 3).
  change partitionExt with (builtExtractor 11 3).
  rewrite !ExtractUInt64_builtExtractor
    by (done || lia || (unfold valid_bounds, MaxInt; lia)).
  cbn [mbind option_bind].
  rewrite !of_uint64_small by (apply bitsValue_small; lia).
  destruct (Z.ltb_spec (bitsValue b 11 3) 0); [done|].
  destruct (Z.gtb_spec (bitsValue b 11 3) 6); [done|lia].
Qed.

(** X18. [SGTINToGTIN14] on the hexadecimal form of an SGTIN-96 tag (12
    bytes, the first 0x30) returns: either an error and the empty string,
    or no error and a well-formed GTIN-14. *)
Theorem SGTINToGTIN14_sgtin96 epc b :
  hexDecode (bytesOf epc) = Some b ->
  length b = 12%nat -> nthByte b 0 = SGTIN96Header ->
  exists g err,
    SGTINToGTIN14 epc = Some (g, err) /\
    (err = None -> wellFormedGTIN14 g) /\
    (err <> None -> g = EmptyString).
Proof.
  intros Hhex Hlen Hh. pose proof (hexDecode_isByte _ _ Hhex) as Hb.
  unfold SGTINToGTIN14, DecodeSGTINString. rewrite Hhex.
  destruct (Z_le_gt_dec (bitsValue b 11 3) 6) as [Hp|Hp].
  - rewrite DecodeSGTIN96_bits by done. cbn [mbind option_bind fst snd].
    pose proof (bitsValue_range b 58 38 ltac:(lia)) as Hv.
    set (s := decodedFields b (fmtD (bitsValue b 58 38))).
    destruct (ValidateRanges_cases s) as [[Hok Hval]|[_ [e He]]].
    + change (serial s) with (fmtD (bitsValue b 58 38)) in Hval.
      rewrite IsGS1AIEncodable_decimal in Hval by lia.
      cbn [mbind option_bind] in Hval. rewrite Hval.
      cbn [mbind option_bind].
      exists (GTIN s), None. split; [done|]. split; [|done].
      intros _. by apply GTIN_digits14.
    + rewrite He. cbn [mbind option_bind].
      exists EmptyString, (Some e). done.
  - unfold DecodeSGTIN, decodeSerial.
    rewrite index_head, Hh by lia. rewrite !Hlen.
    change (Z.of_nat 12 =? 0) with false. cbn match.
    cbn [mbind option_bind].
    change (SGTIN96Header =? SGTIN96Header) with true. cbn match.
    change (negb (Z.of_nat 12 =? SGTIN96NumBytes)) with false. cbn match.
    change serial96Ext with (builtExtractor 58 38).
    rewrite ExtractUInt64_builtExtractor
      by (done || lia || (unfold valid_bounds, MaxInt; lia)).
    cbn [mbind option_bind].
    rewrite decodeFields_bad_partition by (done || lia).
    cbn [mbind option_bind fst snd].
    eexists _, _. split; [reflexivity|]. done.
Qed.

Lemma SGTINToGTIN14_sgtin96_witness :
  exists g err,
    SGTINToGTIN14 "30143639F84191AD22901607" = Some (g, err) /\
    (err = None -> wellFormedGTIN14 g) /\
    (err <> None -> g = EmptyString).
Proof.
  apply (SGTINToGTIN14_sgtin96 "30143639F84191AD22901607"
           [48; 20; 54; 57; 248; 65; 145; 173; 34; 144; 22; 7]).
  - reflexivity.
  - reflexivity.
  - reflexivity.
Defined.

End ConversionFacts.

Section DelFacts.
Import GoInt Mem Bitextract Epc.

Lemma serial198_isByte b : Forall isByte (serial198 b).
Proof.
  assert (Forall isByte (serial198Chars b)) as H.
  { unfold serial198Chars. apply Forall_fmap, Forall_forall. intros i _.
    cbn. pose proof (bitsValue_range b (58 + 7 * i) 7 ltac:(lia)).
    unfold isByte. change (2 ^ 7) with 128 in *. lia. }
  unfold serial198. destruct (charAfterNull _); [done|by apply Forall_take].
Qed.

(** X19. An SGTIN-198 tag (25 bytes, the first 0x36, a partition of at most
    6) whose numeric fields are in range and whose serial is made of
    characters of the AI set followed by the character 127: [DecodeSGTIN]
    decodes it without error, and [ValidateRanges], and with it
    [SGTINToGTIN14] and [SGTINToPureURI] on its hexadecimal form, panic
    instead of returning an error. *)
Theorem SGTIN198_DEL_panics epc b :
  hexDecode (bytesOf epc) = Some b ->
  length b = 25%nat -> nthByte b 0 = SGTIN198Header ->
  bitsValue b 11 3 <= 6 ->
  rangesOK (decodedFields b (stringOf (serial198 b))) ->
  charsThenDEL gs1AIChars (serial198 b) ->
  DecodeSGTIN b = Some (decodedFields b (stringOf (serial198 b)), None) /\
  ValidateRanges (decodedFields b (stringOf (serial198 b))) = None /\
  SGTINToGTIN14 epc = None /\ SGTINToPureURI epc = None.
Proof.
  intros Hhex Hlen Hh Hp Hok Hdel.
  pose proof (hexDecode_isByte _ _ Hhex) as Hb.
  pose proof (DecodeSGTIN198_bits b Hlen Hb Hh Hp) as Hdec.
  fold (serial198 b) in Hdec.
  assert (ValidateRanges (decodedFields b (stringOf (serial198 b))) = None)
    as Hval.
  { destruct (ValidateRanges_cases (decodedFields b (stringOf (serial198 b))))
      as [[_ ->]|[Hbad _]]; [|done].
    change (serial (decodedFields b (stringOf (serial198 b))))
      with (stringOf (serial198 b)).
    assert (IsGS1AIEncodable (stringOf (serial198 b)) = None) as ->; [|done].
    apply IsGS1AIEncodable_panics.
    by rewrite bytesOf_stringOf by apply serial198_isByte. }
  split; [done|]. split; [done|].
  unfold SGTINToGTIN14, SGTINToPureURI, DecodeSGTINString.
  rewrite Hhex, Hdec. cbn [mbind option_bind fst snd]. rewrite Hval. done.
Qed.

Lemma SGTIN198_DEL_panics_witness :
  let b := [54; 20; 54; 57; 248; 65; 145; 191; 128; 0; 0; 0; 0; 0;
            0; 0; 0; 0; 0; 0; 0; 0; 0; 0; 0] in
  let epc := "36143639F84191BF8000000000000000000000000000000000" in
  DecodeSGTIN b = Some (decodedFields b (stringOf (serial198 b)), None) /\
  ValidateRanges (decodedFields b (stringOf (serial198 b))) = None /\
  SGTINToGTIN14 epc = None /\ SGTINToPureURI epc = None.
Proof.
  apply SGTIN198_DEL_panics.
  - reflexivity.
  - reflexivity.
  - reflexivity.
  - by vm_compute.
  - unfold rangesOK. repeat split; by vm_compute.
  - exists [], []. split; [by vm_compute|constructor].
Defined.

End DelFacts.

Section IndicatorFacts.
Import GoInt Mem Bitextract Epc.

(** X20. An SGTIN-96 tag with a partition from 1 to 6 whose indicator digit
    is not 0: [DecodeSGTIN] returns it without error but with a negative
    item reference, because the indicator is taken off the field as
    indicator * 10^partition * 10; so [ValidateRanges] rejects the result,
    and [SGTINToGTIN14] and [SGTINToPureURI] return an error for the tag. *)
Theorem SGTIN96_nonzero_indicator_rejected epc b :
  hexDecode (bytesOf epc) = Some b ->
  length b = 12%nat -> nthByte b 0 = SGTIN96Header ->
  1 <= bitsValue b 11 3 <= 6 ->
  10 ^ bitsValue b 11 3
  <= bitsValue b (14 + companyWidth (bitsValue b 11 3))
               (44 - companyWidth (bitsValue b 11 3)) ->
  exists s e,
    DecodeSGTIN b = Some (s, None) /\ 1 <= indicator s /\ itemRef s < 0 /\
    ValidateRanges s = Some (Some e) /\
    SGTINToGTIN14 epc = Some (EmptyString, Some e) /\
    SGTINToPureURI epc = Some (EmptyString, Some e).
Proof.
  intros Hhex Hlen Hh Hp Hind.
  pose proof (hexDecode_isByte _ _ Hhex) as Hb.
  pose proof (DecodeSGTIN96_bits b Hlen Hb Hh ltac:(lia)) as Hdec.
  set (s := decodedFields b (fmtD (bitsValue b 58 38))) in *.
  assert (1 <= indicator s /\ itemRef s < 0) as [Hi1 Hneg].
  { unfold s, decodedFields. cbn [indicator itemRef].
    remember (bitsValue b 11 3) as p eqn:Ep.
    remember (bitsValue b (14 + companyWidth p) (44 - companyWidth p))
      as iir eqn:Eiir.
    destruct (Z.gtb_spec p 0); [|lia].
    assert (0 < 10 ^ p) as Hq by (apply Z.pow_pos_nonneg; lia).
    remember (10 ^ p) as q eqn:Eq.
    pose proof (Z.div_str_pos iir q ltac:(lia)) as Hd.
    pose proof (Z.div_mod iir q ltac:(lia)) as Hdm.
    pose proof (Z.mod_pos_bound iir q ltac:(lia)) as Hr.
    remember (iir / q) as d. remember (iir mod q) as r.
    clear -Hq Hind Hd Hdm Hr. split; [lia|nia]. }
  destruct (ValidateRanges_cases s) as [[Hok _]|[_ [e He]]].
  { destruct Hok as (_ & _ & _ & Hir & _). lia. }
  exists s, e. split; [done|]. split; [done|]. split; [done|].
  split; [done|].
  unfold SGTINToGTIN14, SGTINToPureURI, DecodeSGTINString.
  rewrite Hhex, Hdec. cbn [mbind option_bind fst snd]. rewrite He. done.
Qed.

Lemma SGTIN96_nonzero_indicator_rejected_witness :
  exists s e,
    DecodeSGTIN [48; 4; 0; 0; 0; 0; 2; 128; 0; 0; 0; 1] = Some (s, None) /\
    1 <= indicator s /\ itemRef s < 0 /\
    ValidateRanges s = Some (Some e) /\
    SGTINToGTIN14 "300400000000028000000001" = Some (EmptyString, Some e) /\
    SGTINToPureURI "300400000000028000000001" = Some (EmptyString, Some e).
Proof.
  apply (SGTIN96_nonzero_indicator_rejected "300400000000028000000001"
           [48; 4; 0; 0; 0; 0; 2; 128; 0; 0; 0; 1]).
  - reflexivity.
  - reflexivity.
  - reflexivity.
  - by vm_compute.
  - by vm_compute.
Defined.

End IndicatorFacts.

Section BittagFacts.
Import GoInt Mem Bitextract Bittag.

Lemma mapM_load b (m : mem) :
  valid b m ->
  mapM (fun i => load b i m) (seqZ 0 (len b)) = Some (bytes b m).
Proof.
  intros Hv. pose proof Hv as [Hl Hc]. apply mapM_Some_2.
  apply Forall2_same_length_lookup_2.
  - rewrite length_seqZ. unfold bytes. rewrite length_take, length_drop. lia.
  - intros i x y Hx Hy. apply lookup_seqZ in Hx as [-> Hi].
    rewrite load_valid by (done || lia).
    unfold bytes in Hy. rewrite lookup_take_lt, lookup_drop in Hy by lia.
    unfold addr. rewrite Z.add_0_l, Nat2Z.id, Hy. done.
Qed.

Lemma PutUint64_zero b (m : mem) :
  valid b m -> len b = 8 ->
  exists m1,
    PutUint64 b 0 m = Some m1 /\ length m1 = length m /\
    (forall i, 0 <= i < 8 -> m1 !! addr b i = Some 0) /\
    (forall a : nat, (a < base b \/ base b + 8 <= a)%nat -> m1 !! a = m !! a).
Proof.
  intros Hv H8. unfold PutUint64. rewrite H8. cbn [Z.ltb Z.compare].
  rewrite (forRange_ext 8 0 _ (fun i mi => store b i 0 mi)).
  2:{ intros j mj. by rewrite Z.shiftr_0_l. }
  destruct (zero_fill b 8 m Hv) as (m1 & Hrun & Hlen & Hz & Hout); [lia|].
  exists m1. split; [done|]. split; [done|]. split; [|done].
  intros i Hi. apply Hz. lia.
Qed.

(** The slice of field [i] among those [Buffer] cuts. *)
Lemma lookup_bufferSlices exts : forall b c i be,
  Forall (fun x => 0 <= dstLen x) exts ->
  exts !! i = Some be ->
  exists s,
    bufferSlices b c exts !! i = Some s /\ len s = dstLen be /\
    (b <= base s)%nat /\
    (base s + Z.to_nat (dstLen be)
     <= b + Z.to_nat (sumZ (dstLen <$> exts)))%nat.
Proof.
  induction exts as [|x rest IH]; intros b c i be Hpos Hi; [done|].
  apply Forall_cons in Hpos as [Hx Hrest].
  assert (0 <= sumZ (dstLen <$> rest)) as Hr0
    by (apply sumZ_nonneg, Forall_fmap; exact Hrest).
  change (sumZ (dstLen <$> x :: rest))
    with (dstLen x + sumZ (dstLen <$> rest)).
  destruct i as [|i]; cbn in Hi.
  - injection Hi as ->. eexists. split; [reflexivity|]. cbn. lia.
  - cbn [bufferSlices lookup list_lookup].
    destruct (IH (b + Z.to_nat (dstLen x))%nat (c - dstLen x) i be Hrest Hi)
      as (s & Hs & Hl & Hb1 & Hb2).
    exists s. split; [done|]. split; [done|]. lia.
Qed.

(** The value [Decode] stores for the bytes a slice shows. *)
Lemma Decode_step_small field bb (m : mem) :
  0 <= len field <= 8 ->
  (base field + Z.to_nat (len field) <= bb)%nat ->
  (bb + 8 <= length m)%nat ->
  exists m1 d,
    PutUint64 (Slice bb 8 8) 0 m = Some m1 /\
    resliceFrom (Slice bb 8 8) (GoInt.sub 8 (len field)) = Some d /\
    length (copy d field m1) = length m /\
    (forall a : nat, (a < bb)%nat -> copy d field m1 !! a = m !! a) /\
    Uint64 (Slice bb 8 8) (copy d field m1)
    = Some (bigEndian (bytes field m)).
Proof.
  intros Hl Hbelow Hroom.
  assert (valid (Slice bb 8 8) m) as Hvb by (unfold valid; cbn; lia).
  destruct (PutUint64_zero (Slice bb 8 8) m Hvb eq_refl)
    as (m1 & Hput & Hlen1 & Hz & Hout1).
  exists m1. rewrite sub_id by zdm.
  unfold resliceFrom, reslice. cbn [len cap addr base].
  destruct (Z.leb_spec 0 (8 - len field)); [|lia].
  destruct (Z.leb_spec (8 - len field) 8); [|lia].
  cbn [andb Z.leb Z.compare].
  eexists. split; [done|]. split; [reflexivity|].
  unfold copy, addr. cbn [base len].
  replace (8 - (8 - len field)) with (len field) by lia.
  rewrite Z.min_id.
  set (L := Z.to_nat (len field)).
  set (k := take L (drop (base field) m1)).
  assert (length k = L) as Hk.
  { unfold k. rewrite length_take, length_drop. lia. }
  set (m2 := list_inserts (bb + Z.to_nat (8 - len field)) k m1).
  assert (length m2 = length m) as Hlen2
    by (unfold m2; rewrite length_inserts; done).
  split; [done|].
  assert (forall a : nat, (a < bb)%nat -> m2 !! a = m !! a) as Hout2.
  { intros a Ha. unfold m2. rewrite list_lookup_inserts_lt by lia.
    apply Hout1. cbn. lia. }
  split; [done|].
  unfold Uint64. cbn [len].
  assert (valid (Slice bb 8 8) m2) as Hvb2
    by (unfold valid; cbn [base len cap]; lia).
  pose proof (mapM_load (Slice bb 8 8) m2 Hvb2) as Hload.
  cbn [len] in Hload. rewrite Hload. change (8 <? 8) with false. cbn match.
  cbn [mbind option_bind]. f_equal.
  rewrite <- (bigEndian_zeros (Z.to_nat (8 - len field)) (bytes field m)).
  f_equal. apply list_eq. intros j. unfold bytes. cbn [base len].
  destruct (decide (j < 8)%nat) as [Hj|Hj].
  2:{ rewrite lookup_take_ge by lia. symmetry. apply lookup_ge_None.
      rewrite length_app, length_replicate, length_take, length_drop. lia. }
  rewrite lookup_take_lt, lookup_drop by lia.
  destruct (decide (j < Z.to_nat (8 - len field))%nat) as [Hz0|Hz0].
  - rewrite lookup_app_l by (rewrite length_replicate; lia).
    rewrite lookup_replicate_2 by lia.
    unfold m2. rewrite list_lookup_inserts_lt by lia.
    specialize (Hz (Z.of_nat j) ltac:(lia)). unfold addr in Hz.
    cbn [base] in Hz. by rewrite Nat2Z.id in Hz.
  - rewrite lookup_app_r by (rewrite length_replicate; lia).
    rewrite length_replicate.
    unfold m2. rewrite list_lookup_inserts by lia.
    unfold k. fold L. rewrite !lookup_take_lt, !lookup_drop by lia.
    replace (bb + j - (bb + Z.to_nat (8 - len field)))%nat
      with (j - Z.to_nat (8 - len field))%nat by lia.
    apply Hout1. cbn. lia.
Qed.

(** The loop of [Decode] over slices that lie below the scratch buffer:
    field after field, the value of the bytes each slice shows. *)
Lemma Decode_loop_spec bb fs : forall (idx : nat) out (m : mem),
  Forall (fun f => 0 <= len f /\ (base f + Z.to_nat (len f) <= bb)%nat) fs ->
  (bb + 8 <= length m)%nat ->
  (idx + length fs <= length out)%nat ->
  exists m',
    Decode_loop fs (Z.of_nat idx) (Slice bb 8 8) out m
    = Some (take idx out
            ++ ((fun f => if len f <=? 8 then U64 (bigEndian (bytes f m))
                          else Big (bigEndian (bytes f m))) <$> fs)
            ++ drop (idx + length fs) out, m') /\
    length m' = length m /\
    (forall a : nat, (a < bb)%nat -> m' !! a = m !! a).
Proof.
  induction fs as [|f rest IH]; intros idx out m Hfs Hroom Hout.
  { exists m. cbn [Decode_loop fmap list_fmap app length].
    rewrite Nat.add_0_r, take_drop. done. }
  apply Forall_cons in Hfs as [[Hl0 Hbelow] Hrest].
  cbn [length] in Hout. cbn [Decode_loop].
  assert (setField out (Z.of_nat idx) = fun v => Some (<[idx := v]> out))
    as Hset.
  { unfold setField. destruct (Z.leb_spec 0 (Z.of_nat idx)); [|lia].
    destruct (Z.ltb_spec (Z.of_nat idx) (Z.of_nat (length out))); [|lia].
    cbn [andb]. by rewrite Nat2Z.id. }
  assert (forall v, take (S idx) (<[idx := v]> out) = take idx out ++ [v])
    as Htake.
  { intros v. erewrite take_S_r.
    - by rewrite take_insert_ge by lia.
    - apply list_lookup_insert_eq. lia. }
  assert (forall (m2 : mem),
            (forall a : nat, (a < bb)%nat -> m2 !! a = m !! a) ->
            Forall (fun g => bytes g m2 = bytes g m) rest) as Hsame.
  { intros m2 Hm2. eapply Forall_impl; [exact Hrest|].
    intros g [Hg0 Hg]. cbn. apply bytes_unchanged. intros a Ha.
    apply Hm2. lia. }
  destruct (Z.leb_spec (len f) 8) as [Hsmall|Hbig].
  - destruct (Decode_step_small f bb m ltac:(lia) Hbelow Hroom)
      as (m1 & d & -> & -> & Hlen2 & Hout2 & HU).
    cbn [mbind option_bind]. cbv zeta. rewrite HU.
    cbn [mbind option_bind]. rewrite Hset. cbn [mbind option_bind].
    replace (Z.of_nat idx + 1) with (Z.of_nat (S idx)) by lia.
    destruct (IH (S idx) (<[idx := U64 (bigEndian (bytes f m))]> out)
                 (copy d f m1) Hrest)
      as (m' & -> & Hlen' & Hout'); [lia|rewrite length_insert; lia|].
    exists m'. split; [|split; [lia|]].
    + f_equal. f_equal. rewrite Htake, <- app_assoc. cbn [app fmap list_fmap].
      destruct (Z.leb_spec (len f) 8); [|lia].
      f_equal. f_equal. f_equal.
      * apply Forall_fmap_ext_1.
        eapply Forall_impl; [exact (Hsame _ Hout2)|].
        intros g Hg. cbn. by rewrite Hg.
      * rewrite drop_insert_lt by lia. cbn [length]. f_equal. lia.
    + intros a Ha. rewrite Hout' by done. by apply Hout2.
  - rewrite Hset. cbn [mbind option_bind].
    replace (Z.of_nat idx + 1) with (Z.of_nat (S idx)) by lia.
    destruct (IH (S idx) (<[idx := Big (bigEndian (bytes f m))]> out)
                 m Hrest)
      as (m' & -> & Hlen' & Hout'); [lia|rewrite length_insert; lia|].
    exists m'. split; [|done].
    f_equal. f_equal. rewrite Htake, <- app_assoc. cbn [app fmap list_fmap].
    destruct (Z.leb_spec (len f) 8); [lia|].
    f_equal. f_equal. f_equal. rewrite drop_insert_lt by lia.
    cbn [length]. f_equal. lia.
Qed.

Lemma bufferSlices_below b c exts :
  Forall (fun x => 0 <= dstLen x) exts ->
  Forall (fun f => 0 <= len f /\
                   (base f + Z.to_nat (len f)
                    <= b + Z.to_nat (sumZ (dstLen <$> exts)))%nat)
         (bufferSlices b c exts).
Proof.
  intros Hpos. apply Forall_lookup_2. intros i s Hs.
  assert (i < length exts)%nat as Hi.
  { apply lookup_lt_Some in Hs. by rewrite length_bufferSlices in Hs. }
  destruct (lookup_lt_is_Some_2 exts i Hi) as [be Hbe].
  destruct (lookup_bufferSlices exts b c i be Hpos Hbe)
    as (s' & Hs' & Hl & _ & Hb).
  assert (s' = s) as -> by congruence.
  pose proof (proj1 (Forall_lookup _ _) Hpos i be Hbe) as Hd. cbn in Hd.
  rewrite Hl. lia.
Qed.

(** X21. [Decode] with a decoder whose exploder [NewBitExploder] built for
    [widths]: when the data has fewer bits than the widths ask for it
    returns the error that carries both counts; otherwise it returns no
    error and a tag with the decoder's prefix and one field per width, the
    number the bits of the field spell, held as a [uint64] when the field
    takes at most 8 bytes and as a big integer otherwise; the bytes that
    were in the store are unchanged. *)
Theorem Decode_fields widths e prefix data m :
  Forall in_range widths -> NewBitExploder widths = Some (e, None) ->
  valid data m -> Forall isByte m -> len data * 8 <= MaxInt ->
  if len data * 8 <? sumZ widths
  then Decode (mkDecoder prefix e) data m
       = Some (zeroBitTag,
               Some (ErrDataLength (len data * 8) (sumZ widths)), m)
  else
    exists m',
      Decode (mkDecoder prefix e) data m
      = Some (mkBitTag prefix (decodedTagFields widths (bytes data m)),
              None, m') /\
      take (length m) m' = m.
Proof.
  intros Hall Hnew Hvd Hbytes Hlen8.
  destruct (NewBitExploder_inv widths e Hall Hnew) as (Hpos & Hsum & ->).
  pose proof Hvd as [[Hl0 Hlc] Hroom].
  unfold Decode. cbn [decoderExploder decoderPrefix BitLength bitLength].
  rewrite mul_id by zdm.
  destruct (Z.ltb_spec (len data * 8) (sumZ widths)) as [Hshort|Hlong];
    [done|].
  destruct (Explode_built widths data m Hpos Hsum Hvd Hlen8 Hlong)
    as (m1 & -> & Hlen1 & Htake1 & Hfields).
  cbn [mbind option_bind fst snd]. unfold make.
  cbn [Z.ltb Z.compare mbind option_bind fst snd].
  remember (sumZ (byteLens widths)) as N eqn:EN.
  set (bt := bufferSlices (length m) N (builtFields 0 widths)) in *.
  pose proof (sumZ_byteLens_bounds widths Hpos) as [Hb0 Hb1].
  assert (Forall (fun x => 0 <= dstLen x) (builtFields 0 widths)) as Hdpos.
  { eapply Forall_impl; [apply (builtFields_wf widths 0); done || lia|].
    intros x (_ & Hx & _). cbn. lia. }
  assert (length bt = length widths) as Hlbt
    by (unfold bt; by rewrite length_bufferSlices, length_builtFields).
  destruct (Decode_loop_spec (length m1) bt 0
              (replicate (Z.to_nat (Bitextract.NumFields
                 {| bitLength := sumZ widths; expByteLen := N;
                    extractors := builtFields 0 widths |})) NilField)
              (m1 ++ replicate (Z.to_nat 8) 0))
    as (m3 & Hrun & Hlen3 & Hout3).
  { eapply Forall_impl; [apply (bufferSlices_below _ _ _ Hdpos)|].
    intros f [Hf0 Hf1]. cbn. rewrite builtFields_dstLen in Hf1.
    rewrite <- EN in Hf1. lia. }
  { rewrite length_app, length_replicate. lia. }
  { rewrite length_replicate. unfold Bitextract.NumFields.
    cbn [extractors]. rewrite length_builtFields. lia. }
  change (Z.of_nat 0) with 0 in Hrun. rewrite Hrun.
  cbn [mbind option_bind fst snd].
  exists m3. split.
  2:{ apply list_eq. intros j. destruct (decide (j < length m)%nat).
      - rewrite lookup_take_lt by done. rewrite Hout3 by lia.
        rewrite lookup_app_l by lia.
        transitivity (take (length m) m1 !! j);
          [by rewrite lookup_take_lt|by rewrite Htake1].
      - rewrite lookup_take_ge by lia. symmetry. apply lookup_ge_None. lia. }
  do 4 f_equal. rewrite take_0. cbn [app].
  rewrite drop_ge.
  2:{ rewrite length_replicate. unfold Bitextract.NumFields.
      cbn [extractors]. rewrite length_builtFields. lia. }
  rewrite app_nil_r. unfold decodedTagFields.
  apply list_eq. intros i. rewrite list_lookup_fmap, list_lookup_imap.
  destruct (widths !! i) as [w|] eqn:Hw.
  2:{ apply lookup_ge_None in Hw.
      rewrite (proj2 (lookup_ge_None bt i)) by lia. done. }
  assert (1 <= w) as Hw1 by (eapply (Forall_lookup_1 _ widths); eauto).
  destruct (fieldStart_bounds widths i w Hpos Hw) as [Hfs0 Hfs1].
  pose proof (lookup_builtFields 0 widths i w Hw) as Hbe.
  rewrite Z.add_0_l in Hbe.
  destruct (lookup_bufferSlices (builtFields 0 widths) (length m) N i _
              Hdpos Hbe) as (s & Hs & Hls & Hb1' & Hb2').
  fold bt in Hs. rewrite Hs. cbn [fmap option_fmap option_map].
  cbn [dstLen builtExtractor] in Hls, Hb2'.
  rewrite builtFields_dstLen, <- EN in Hb2'.
  assert (bytes s (m1 ++ replicate (Z.to_nat 8) 0) = bytes s m1) as ->.
  { unfold bytes. apply list_eq. intros j.
    destruct (decide (j < Z.to_nat (len s))%nat).
    - rewrite !lookup_take_lt, !lookup_drop by done.
      apply lookup_app_l. lia.
    - by rewrite !lookup_take_ge by lia. }
  rewrite (Hfields i w s Hw Hs).
  rewrite fieldBytes_value;
    [|unfold valid_bounds; lia|by apply bytes_isByte
     |unfold bytes; rewrite length_take, length_drop; lia].
  unfold fieldOf. by rewrite Hls.
Qed.

Lemma Decode_fields_witness :
  let widths := [8; 48; 40] in
  let m := [15; 0; 0; 0; 0; 0; 12; 0; 0; 0; 20; 210] in
  let data := Slice 0 12 12 in
  if len data * 8 <? sumZ widths
  then Decode (mkDecoder "tag:test.com,2019-01-01"
                 {| bitLength := 96; expByteLen := 12;
                    extractors := builtFields 0 widths |}) data m
       = Some (zeroBitTag,
               Some (ErrDataLength (len data * 8) (sumZ widths)), m)
  else
    exists m',
      Decode (mkDecoder "tag:test.com,2019-01-01"
                {| bitLength := 96; expByteLen := 12;
                   extractors := builtFields 0 widths |}) data m
      = Some (mkBitTag "tag:test.com,2019-01-01"
                       (decodedTagFields widths (bytes data m)),
              None, m') /\
      take (length m) m' = m.
Proof.
  apply (Decode_fields [8; 48; 40]).
  - repeat constructor; unfold MinInt, MaxInt; lia.
  - by vm_compute.
  - unfold valid. cbn. lia.
  - repeat constructor; unfold isByte; lia.
  - by vm_compute.
Defined.

Lemma strapp_assoc (a b c : string) : (a +:+ b) +:+ c = a +:+ b +:+ c.
Proof.
  induction a as [|x a IH]; [done|].
  change ((String.String x a +:+ b) +:+ c) with (String.String x ((a +:+ b) +:+ c)).
  change (String.String x a +:+ b +:+ c) with (String.String x (a +:+ b +:+ c)).
  by rewrite IH.
Qed.

Lemma strapp_nil_r (a : string) : a +:+ EmptyString = a.
Proof.
  induction a as [|x a IH]; [done|].
  change (String.String x a +:+ EmptyString) with (String.String x (a +:+ EmptyString)).
  by rewrite IH.
Qed.

(** The loop of [String] over a run of fields. *)
Lemma String_loop (l : list fieldValue) : forall init pre suf acc,
  l = pre ++ init ++ suf ->
  forRange (length init) (Z.of_nat (length pre))
    (fun i b => f ← index l i; Some (b +:+ fmtField f +:+ ".")) acc
  = Some (acc +:+ foldr (fun f s => fmtField f +:+ "." +:+ s)
                        EmptyString init).
Proof.
  induction init as [|x init IH]; intros pre suf acc Hl.
  { cbn. by rewrite strapp_nil_r. }
  cbn [length forRange foldr].
  assert (index l (Z.of_nat (length pre)) = Some x) as ->.
  { unfold index. destruct (Z.ltb_spec (Z.of_nat (length pre)) 0); [lia|].
    rewrite Nat2Z.id, Hl, lookup_app_r, Nat.sub_diag by lia. done. }
  cbn [mbind option_bind].
  replace (Z.of_nat (length pre) + 1) with (Z.of_nat (length (pre ++ [x])))
    by (rewrite length_app; cbn; lia).
  rewrite (IH (pre ++ [x]) suf) by (by rewrite <- app_assoc).
  by rewrite !strapp_assoc.
Qed.

Lemma concat_dotted init last :
  foldr (fun f s => fmtField f +:+ "." +:+ s) EmptyString init
  +:+ fmtField last
  = String.concat "." (fmtField <$> (init ++ [last])).
Proof.
  induction init as [|x init IH]; [done|].
  cbn [foldr app fmap list_fmap]. rewrite !strapp_assoc, IH.
  destruct init; done.
Qed.

(** [String] on a tag whose number of fields is a Go [int]. *)
Lemma String_concat bt :
  Z.of_nat (length (fields bt)) <= MaxInt ->
  String bt = Some (String.concat "." (fmtField <$> fields bt)).
Proof.
  intros Hlen.
  unfold String. remember (fields bt) as fs eqn:Hfs. clear Hfs.
  destruct (Z.eqb_spec (Z.of_nat (length fs)) 0) as [H0|H0].
  { destruct fs; [done|cbn in H0; lia]. }
  rewrite sub_id by zdm.
  destruct fs as [|x l _] using rev_ind; [done|].
  rewrite length_app. cbn [length].
  replace (Z.to_nat (Z.of_nat (length l + 1) - 1)) with (length l) by lia.
  pose proof (String_loop (l ++ [x]) l [] [x] EmptyString eq_refl) as HL.
  cbn [length] in HL. change (Z.of_nat 0) with 0 in HL. rewrite HL.
  cbn [mbind option_bind].
  assert (index (l ++ [x]) (Z.of_nat (length l + 1) - 1) = Some x) as ->.
  { unfold index.
    destruct (Z.ltb_spec (Z.of_nat (length l + 1) - 1) 0); [lia|].
    replace (Z.to_nat (Z.of_nat (length l + 1) - 1)) with (length l)
      by lia.
    by rewrite lookup_app_r, Nat.sub_diag by lia. }
  cbn [mbind option_bind]. f_equal.
  change (EmptyString +:+ ?s) with s. apply concat_dotted.
Qed.

(** X22. [String] never panics and formats a tag as the decimal forms of its
    fields separated by periods, and [URI] is the prefix, a colon and that
    string. *)
Theorem URI_joined bt :
  Z.of_nat (length (fields bt)) <= MaxInt ->
  String bt = Some (String.concat "." (fmtField <$> fields bt)) /\
  URI bt
  = Some (uriPrefix bt +:+ ":"
          +:+ String.concat "." (fmtField <$> fields bt)).
Proof.
  intros Hlen. pose proof (String_concat bt Hlen) as HS.
  split; [done|]. unfold URI. rewrite HS. done.
Qed.

Lemma URI_joined_witness :
  let bt := mkBitTag "tag:test.com,2019-01-01" [U64 15; U64 12; U64 5330] in
  String bt = Some (String.concat "." (fmtField <$> fields bt)) /\
  URI bt
  = Some (uriPrefix bt +:+ ":"
          +:+ String.concat "." (fmtField <$> fields bt)).
Proof.
  apply URI_joined. by vm_compute.
Defined.

(** TestNewBitTagDecoder: the tag of the repository's test and its URI. *)
Example Decode_test_vector :
  (x ← NewBitExploder [8; 48; 40];
   r ← Decode (mkDecoder "tag:test.com,2019-01-01" x.1) (Slice 0 12 12)
          [15; 0; 0; 0; 0; 0; 12; 0; 0; 0; 20; 210];
   u ← URI r.1.1;
   Some (fields r.1.1, u))
  = Some ([U64 15; U64 12; U64 5330],
          "tag:test.com,2019-01-01:15.12.5330").
Proof. vm_compute. reflexivity. Qed.

End BittagFacts.

Section EscapeOutput.
Import GoInt Mem Bitextract Epc.

Lemma charCode_range c : 0 <= charCode c < 256.
Proof.
  unfold charCode. pose proof (N_ascii_bounded c). lia.
Qed.

Lemma escapeByte_safe c :
  Forall (fun x => x ∉ gs1Unsafe) (bytesOf (escapeByte (charCode c))).
Proof.
  unfold escapeByte.
  repeat match goal with
  | |- context [charCode c =? ?k] =>
      let Hk := fresh "Hk" in
      destruct (Z.eqb_spec (charCode c) k) as [Hk|Hk];
      [apply (bool_decide_unpack _); by vm_compute|]
  end.
  rewrite codeChar_charCode. cbn [bytesOf]. constructor; [|constructor].
  unfold gs1Unsafe. intros Hin.
  repeat (apply elem_of_cons in Hin as [Hin|Hin]; [lia|]).
  by apply elem_of_nil in Hin.
Qed.

Lemma escapeByte_other c :
  charCode c ∉ gs1Special ->
  escapeByte (charCode c) = String c EmptyString.
Proof.
  intros Hc. unfold escapeByte.
  repeat match goal with
  | |- context [charCode c =? ?k] =>
      let Hk := fresh "Hk" in
      destruct (Z.eqb_spec (charCode c) k) as [Hk|Hk];
      [exfalso; apply Hc; rewrite Hk; apply (bool_decide_unpack _);
       by vm_compute|]
  end.
  by rewrite codeChar_charCode.
Qed.

Lemma escape_cons_other c t :
  charCode c ∉ gs1Special ->
  gs1Escaper_Replace (String c t) = String c (gs1Escaper_Replace t).
Proof.
  intros Hc. cbn [gs1Escaper_Replace]. by rewrite escapeByte_other.
Qed.

Lemma escape_safe s :
  Forall (fun x => x ∉ gs1Unsafe) (bytesOf (gs1Escaper_Replace s)).
Proof.
  induction s as [|c t IH]; [constructor|].
  cbn [gs1Escaper_Replace]. rewrite bytesOf_app. apply Forall_app.
  split; [apply escapeByte_safe|done].
Qed.

Lemma escape_clean s :
  Forall (fun x => x ∉ gs1Special) (bytesOf s) -> gs1Escaper_Replace s = s.
Proof.
  induction s as [|c t IH]; [done|]. cbn [bytesOf].
  intros H. apply Forall_cons in H as [Hc Ht].
  rewrite escape_cons_other by done. by rewrite IH.
Qed.

Lemma escapeByte_length c :
  charCode c <> 0 -> (1 <= String.length (escapeByte (charCode c)))%nat.
Proof.
  intros Hc. unfold escapeByte.
  repeat match goal with
  | |- context [charCode c =? ?k] =>
      let Hk := fresh "Hk" in
      destruct (Z.eqb_spec (charCode c) k) as [Hk|Hk]; [try lia; cbn; lia|]
  end.
  cbn. lia.
Qed.

Lemma length_strapp (a b : string) :
  String.length (a +:+ b) = (String.length a + String.length b)%nat.
Proof.
  induction a as [|x a IH]; [done|].
  change (String x a +:+ b) with (String x (a +:+ b)). cbn. by rewrite IH.
Qed.

(** Without null bytes the escaper never shortens a string. *)
Lemma escape_length s :
  Forall (fun x => x <> 0) (bytesOf s) ->
  (String.length s <= String.length (gs1Escaper_Replace s))%nat.
Proof.
  induction s as [|c t IH]; [done|]. cbn [bytesOf gs1Escaper_Replace].
  intros H. apply Forall_cons in H as [Hc Ht].
  rewrite length_strapp. pose proof (escapeByte_length c Hc).
  specialize (IH Ht). cbn [String.length]. lia.
Qed.

Lemma safe_no_null s :
  Forall (fun x => x ∉ gs1Unsafe) (bytesOf s) ->
  Forall (fun x => x <> 0) (bytesOf s).
Proof.
  intros H. eapply Forall_impl; [exact H|].
  intros x Hx ->. apply Hx.
  apply (bool_decide_unpack _). by vm_compute.
Qed.

Lemma escape_fixed s :
  gs1Escaper_Replace s = s ->
  Forall (fun x => x ∉ gs1Special) (bytesOf s).
Proof.
  induction s as [|c t IH]; [constructor|].
  cbn [gs1Escaper_Replace bytesOf]. intros Hfix.
  destruct (decide (charCode c ∈ gs1Special)) as [Hin|Hout].
  2:{ rewrite escapeByte_other in Hfix by done. cbn [String.append] in Hfix.
      injection Hfix as Hfix. constructor; [done|by apply IH]. }
  exfalso. unfold gs1Special in Hin.
  pose proof (escape_safe t) as Hsafe.
  repeat (apply elem_of_cons in Hin as [Hin|Hin];
          [apply charCode_inj_code in Hin; subst c|]);
    try (by apply elem_of_nil in Hin).
  all: match type of Hfix with
       | context [escapeByte ?x] =>
           let v := eval vm_compute in (escapeByte x) in
           change (escapeByte x) with v in Hfix
       end;
       match type of Hfix with
       | context [String (codeChar ?k) _] =>
           let v := eval vm_compute in (codeChar k) in
           change (codeChar k) with v in Hfix
       end;
       cbv beta iota fix delta [String.append] in Hfix.
  - rewrite Hfix in Hsafe. cbn [bytesOf] in Hsafe.
    apply Forall_cons in Hsafe as [H0 _]. apply H0.
    apply (bool_decide_unpack _). by vm_compute.
  - discriminate.
  - discriminate.
  - injection Hfix as Hfix.
    pose proof (escape_length (gs1Escaper_Replace t)
                  (safe_no_null _ (escape_safe t))) as Hlen.
    pose proof (f_equal gs1Escaper_Replace Hfix) as Hee.
    rewrite !escape_cons_other in Hee
      by (apply (bool_decide_unpack _); by vm_compute).
    apply (f_equal String.length) in Hee. cbn [String.length] in Hee. lia.
  - discriminate.
  - discriminate.
  - discriminate.
  - discriminate.
  - discriminate.
Qed.

End EscapeOutput.

Section EscapeFacts.
Import GoInt Mem Bitextract Epc.

(** X23 ([EscapeGS1]).  What the escaper writes holds no null byte and none
    of the reserved characters double quote, hash, ampersand, slash, angle
    brackets and question mark; it returns its argument unchanged exactly
    when the argument holds no null byte, no percent sign and none of those
    characters; and null bytes are dropped without a trace, so that a string
    and the same string without its null bytes are escaped alike. *)
Theorem EscapeGS1_output (s : string) :
  Forall (fun x => x ∉ gs1Unsafe) (bytesOf (EscapeGS1 s))
  /\ (EscapeGS1 s = s <-> Forall (fun x => x ∉ gs1Special) (bytesOf s))
  /\ EscapeGS1 (removeNulls s) = EscapeGS1 s.
Proof.
  unfold EscapeGS1. split; [apply escape_safe|]. split.
  - split; [apply escape_fixed|apply escape_clean].
  - apply escape_removeNulls.
Qed.

(** X24 ([UnescapeGS1]).  A string without a percent sign is returned as it
    is, and so is the escaped form of it: unescaping finds nothing to
    replace in a string that holds none of the escaper's special bytes. *)
Theorem UnescapeGS1_no_percent (s : string) :
  Forall (fun x => x <> 37) (bytesOf s) ->
  UnescapeGS1 s = s
  /\ (Forall (fun x => x ∉ gs1Special) (bytesOf s) ->
      UnescapeGS1 (EscapeGS1 s) = s).
Proof.
  unfold UnescapeGS1, EscapeGS1. intros Hs.
  assert (gs1Unescaper_Replace s = s) as Hid.
  { induction s as [|c t IH]; [done|]. cbn [bytesOf] in Hs.
    apply Forall_cons in Hs as [Hc Ht].
    rewrite unescape_cons_other by done. by rewrite IH. }
  split; [done|]. intros Hclean. by rewrite escape_clean.
Qed.

Lemma UnescapeGS1_no_percent_witness :
  UnescapeGS1 "urn:epc:id:sgtin:0614141.812345.6789"
  = "urn:epc:id:sgtin:0614141.812345.6789".
Proof.
  refine (proj1 (UnescapeGS1_no_percent
                   "urn:epc:id:sgtin:0614141.812345.6789" _)).
  apply (bool_decide_unpack _). by vm_compute.
Defined.

End EscapeFacts.

Section FieldsFacts.
Import GoInt Mem Bitextract Epc Bittag.

Lemma strapp_cons c (a b : string) :
  String.String c a +:+ b = String.String c (a +:+ b).
Proof. done. Qed.

Lemma HasPrefix_app p r : HasPrefix (p +:+ r) p = true.
Proof.
  induction p as [|c p IH]; [done|]. rewrite strapp_cons.
  cbn [HasPrefix]. rewrite bool_decide_true by done. done.
Qed.

Lemma HasPrefix_inv p : forall s,
  HasPrefix s p = true -> s = p +:+ dropString (String.length p) s.
Proof.
  induction p as [|c p IH]; intros s Hs; [by destruct s|].
  destruct s as [|d s]; [done|]. cbn [HasPrefix] in Hs.
  apply andb_prop in Hs as [Hc Hp]. apply bool_decide_eq_true in Hc as ->.
  rewrite strapp_cons. cbn [String.length dropString]. f_equal. by apply IH.
Qed.

Lemma dropString_app p r : dropString (String.length p) (p +:+ r) = r.
Proof.
  induction p as [|c p IH]; [by destruct r|].
  rewrite strapp_cons. cbn [String.length dropString]. done.
Qed.

Lemma cutSep_none sep s :
  Forall (fun x => x <> sep) (bytesOf s) -> cutSep sep s = None.
Proof.
  induction s as [|c s IH]; [done|]. cbn [bytesOf cutSep]. intros H.
  apply Forall_cons in H as [Hc Hs].
  destruct (Z.eqb_spec (charCode c) sep); [done|]. by rewrite IH.
Qed.

Lemma cutSep_app a b :
  Forall (fun x => x <> 46) (bytesOf a) ->
  cutSep 46 (a +:+ "." +:+ b) = Some (a, b).
Proof.
  induction a as [|c a IH]; [done|]. cbn [bytesOf]. intros H.
  apply Forall_cons in H as [Hc Ha]. rewrite strapp_cons. cbn [cutSep].
  destruct (Z.eqb_spec (charCode c) 46); [done|]. by rewrite IH.
Qed.

Lemma cutSep_Some s : forall a b,
  cutSep 46 s = Some (a, b) ->
  s = a +:+ "." +:+ b /\ Forall (fun x => x <> 46) (bytesOf a).
Proof.
  induction s as [|c s IH]; intros a b H; [done|]. cbn [cutSep] in H.
  destruct (Z.eqb_spec (charCode c) 46) as [Hc|Hc].
  - injection H as <- <-. apply charCode_inj_code in Hc as ->.
    split; [done|constructor].
  - destruct (cutSep 46 s) as [[a' b']|] eqn:Hcut; [|done].
    injection H as <- <-. destruct (IH a' b' eq_refl) as [-> Ha].
    split; [done|]. cbn [bytesOf]. by constructor.
Qed.

Lemma genSplit_loop_nonempty sep k s : genSplit_loop sep k s <> [].
Proof.
  destruct k; cbn [genSplit_loop]; [done|].
  by destruct (cutSep sep s) as [[a b]|].
Qed.

Lemma concat_cons sep x (xs : list string) :
  xs <> [] ->
  String.concat sep (x :: xs) = x +:+ sep +:+ String.concat sep xs.
Proof. by destruct xs. Qed.

(** Joining the parts [SplitN] cut gives the text back. *)
Lemma genSplit_concat k : forall s,
  String.concat "." (genSplit_loop 46 k s) = s.
Proof.
  induction k as [|k IH]; intros s; [done|]. cbn [genSplit_loop].
  destruct (cutSep 46 s) as [[a b]|] eqn:Hcut; [|done].
  apply cutSep_Some in Hcut as [-> _].
  rewrite concat_cons by apply genSplit_loop_nonempty. by rewrite IH.
Qed.

Lemma genSplit_length sep k : forall s,
  (length (genSplit_loop sep k s) <= S k)%nat.
Proof.
  induction k as [|k IH]; intros s; [done|]. cbn [genSplit_loop].
  destruct (cutSep sep s) as [[a b]|]; cbn [length]; [|lia].
  specialize (IH b). lia.
Qed.

(** Every part but the last holds no separator. *)
Lemma genSplit_init k : forall s init last,
  genSplit_loop 46 k s = init ++ [last] ->
  Forall (fun f => Forall (fun x => x <> 46) (bytesOf f)) init.
Proof.
  induction k as [|k IH]; intros s init last H.
  { cbn in H. destruct init as [|? [|]]; [constructor|done|done]. }
  cbn [genSplit_loop] in H.
  destruct (cutSep 46 s) as [[a b]|] eqn:Hcut.
  - destruct init as [|x init].
    { exfalso. injection H as _ H. by apply genSplit_loop_nonempty in H. }
    injection H as <- H. apply cutSep_Some in Hcut as [_ Ha].
    constructor; [done|]. by eapply IH.
  - destruct init as [|? [|]]; [constructor|done|done].
Qed.

Lemma genSplit_join fs : forall last,
  Forall (fun f => Forall (fun x => x <> 46) (bytesOf f)) fs ->
  genSplit_loop 46 (length fs) (String.concat "." (fs ++ [last]))
  = fs ++ [last].
Proof.
  induction fs as [|f fs IH]; intros last H; [done|].
  apply Forall_cons in H as [Hf Hfs].
  change ((f :: fs) ++ [last]) with (f :: (fs ++ [last])).
  rewrite concat_cons by (by destruct fs).
  cbn [length genSplit_loop]. rewrite cutSep_app by done.
  by rewrite IH.
Qed.

Lemma isDigitb_spec c : isDigitb c = true <-> isDigit c.
Proof. unfold isDigitb, isDigit. lia. Qed.

Lemma forallb_isDigitb l : forallb isDigitb l = true <-> Forall isDigit l.
Proof.
  induction l as [|c l IH]; [by split|]. cbn [forallb].
  rewrite andb_true_iff, isDigitb_spec, IH, Forall_cons. done.
Qed.

Lemma MatchString_numeric f :
  fieldsRegex_MatchString f = true <-> numeric f.
Proof.
  unfold fieldsRegex_MatchString, numeric. destruct f as [|c f].
  { cbn. split; [done|]. by intros [? _]. }
  cbn [bytesOf]. rewrite andb_true_iff, isDigitb_spec, forallb_isDigitb.
  rewrite Forall_cons. intuition congruence.
Qed.

Lemma numeric_nodot f :
  numeric f -> Forall (fun x => x <> 46) (bytesOf f).
Proof.
  intros [_ Hf]. eapply Forall_impl; [exact Hf|].
  unfold isDigit. intros x Hx. lia.
Qed.

Lemma firstInvalid_None fs : forall i,
  firstInvalid fs i = None <-> Forall numeric fs.
Proof.
  induction fs as [|f fs IH]; intros i; [done|]. cbn [firstInvalid].
  rewrite Forall_cons, <- MatchString_numeric.
  destruct (fieldsRegex_MatchString f).
  - rewrite IH. tauto.
  - intuition congruence.
Qed.

(** A failing [firstInvalid] names a part that is not numeric, and every
    part before it is. *)
Lemma firstInvalid_Some fs : forall i j,
  firstInvalid fs i = Some j ->
  i <= j < i + Z.of_nat (length fs) /\
  (exists f, fs !! Z.to_nat (j - i) = Some f /\ ~ numeric f) /\
  Forall numeric (take (Z.to_nat (j - i)) fs).
Proof.
  induction fs as [|f fs IH]; intros i j H; [done|]. cbn [firstInvalid] in H.
  destruct (fieldsRegex_MatchString f) eqn:Hm.
  - apply IH in H as (Hr & (g & Hg & Hng) & Hbefore). cbn [length].
    replace (Z.to_nat (j - i)) with (S (Z.to_nat (j - (i + 1)))) by lia.
    split; [lia|]. split; [by exists g|].
    cbn [take]. constructor; [by apply MatchString_numeric|done].
  - injection H as <-. rewrite Z.sub_diag. cbn [length]. split; [lia|].
    split; [|constructor]. exists f. split; [done|].
    rewrite <- MatchString_numeric. by rewrite Hm.
Qed.

Lemma strlen_app a b : strlen (a +:+ b) = strlen a + strlen b.
Proof. unfold strlen. rewrite length_strapp. lia. Qed.

Lemma strlen_nonneg s : 0 <= strlen s.
Proof. unfold strlen. lia. Qed.

Lemma numeric_strlen f : numeric f -> 1 <= strlen f.
Proof. intros [Hf _]. destruct f; [done|]. unfold strlen. cbn. lia. Qed.

Lemma concat_strlen fs :
  Forall numeric fs -> Z.of_nat (length fs) <= strlen (String.concat "." fs) + 1.
Proof.
  induction 1 as [|f fs Hf Hfs IH].
  { pose proof (strlen_nonneg (String.concat "." [])). cbn [length]. lia. }
  pose proof (numeric_strlen f Hf).
  destruct fs as [|g fs].
  { change (String.concat "." [f]) with f. cbn [length]. lia. }
  rewrite concat_cons by done. rewrite !strlen_app.
  change (strlen ".") with 1. cbn [length] in *. lia.
Qed.

(** The text after the prefix and the colon. *)
Lemma Fields_rest btd uri :
  strlen uri <= MaxInt ->
  HasPrefix uri (decoderPrefix btd +:+ ":") = true ->
  exists rest,
    uri = decoderPrefix btd +:+ ":" +:+ rest /\
    sliceFrom uri (add (strlen (decoderPrefix btd)) 1) = Some rest.
Proof.
  intros Hlen Hp. apply HasPrefix_inv in Hp.
  remember (dropString (String.length (decoderPrefix btd +:+ ":")) uri)
    as rest eqn:Hrest.
  exists rest. rewrite strapp_assoc in Hp. split; [done|].
  assert (strlen uri = strlen (decoderPrefix btd) + 1 + strlen rest) as Hl.
  { rewrite Hp at 1. rewrite !strlen_app. change (strlen ":") with 1. lia. }
  pose proof (strlen_nonneg rest). pose proof (strlen_nonneg (decoderPrefix btd)).
  rewrite add_id by zdm. unfold sliceFrom.
  destruct (Z.leb_spec 0 (strlen (decoderPrefix btd) + 1)); [|lia].
  destruct (Z.leb_spec (strlen (decoderPrefix btd) + 1) (strlen uri)); [|lia].
  cbn [andb]. f_equal. rewrite Hrest. f_equal.
  rewrite length_strapp. unfold strlen. cbn. lia.
Qed.

(** [Fields] on a text that carries the prefix. *)
Lemma Fields_prefixed btd rest :
  strlen (decoderPrefix btd +:+ ":" +:+ rest) <= MaxInt ->
  Fields btd (decoderPrefix btd +:+ ":" +:+ rest)
  = let parts := SplitN rest 46 (Bitextract.NumFields (decoderExploder btd)) in
    if Z.of_nat (length parts) <? Bitextract.NumFields (decoderExploder btd)
    then Some ([], Some (ErrMissing
                 (sub (Bitextract.NumFields (decoderExploder btd))
                      (Z.of_nat (length parts)))))
    else match firstInvalid parts 0 with
         | Some i => Some ([], Some (ErrInvalidField i))
         | None => Some (parts, None)
         end.
Proof.
  intros Hlen. unfold Fields.
  assert (HasPrefix (decoderPrefix btd +:+ ":" +:+ rest)
            (decoderPrefix btd +:+ ":") = true) as Hp.
  { rewrite <- strapp_assoc. apply HasPrefix_app. }
  rewrite Hp. cbn [negb].
  destruct (Fields_rest btd _ Hlen Hp) as (rest' & Heq & ->).
  rewrite <- !strapp_assoc in Heq. apply String.app_inj in Heq as <-.
  done.
Qed.

Lemma SplitN_pos s n :
  0 < n ->
  SplitN s 46 n = genSplit_loop 46 (Z.to_nat (Z.min n (strlen s + 1) - 1)) s.
Proof.
  intros Hn. unfold SplitN.
  destruct (Z.eqb_spec n 0); [lia|]. destruct (Z.ltb_spec n 0); [lia|].
  cbv zeta. destruct (Z.gtb_spec n (strlen s + 1)); do 2 f_equal; lia.
Qed.

Lemma Fields_ok btd fs :
  strlen (decoderPrefix btd +:+ ":" +:+ String.concat "." fs) <= MaxInt ->
  0 < Bitextract.NumFields (decoderExploder btd) ->
  Z.of_nat (length fs) = Bitextract.NumFields (decoderExploder btd) ->
  Forall numeric fs ->
  Fields btd (decoderPrefix btd +:+ ":" +:+ String.concat "." fs)
  = Some (fs, None).
Proof.
  intros Hlen Hn Hfs Hnum. rewrite Fields_prefixed by done. cbv zeta.
  rewrite SplitN_pos by done. pose proof (concat_strlen fs Hnum) as Hc.
  rewrite Z.min_l by lia.
  destruct fs as [|x l _] using rev_ind; [cbn in Hfs; lia|].
  rewrite length_app in Hfs. cbn [length] in Hfs.
  replace (Z.to_nat (Bitextract.NumFields (decoderExploder btd) - 1)) with (length l)
    by lia.
  apply Forall_app in Hnum as Hnum'. destruct Hnum' as [Hl _].
  rewrite genSplit_join
    by (eapply Forall_impl; [exact Hl|apply numeric_nodot]).
  rewrite length_app. cbn [length].
  destruct (Z.ltb_spec (Z.of_nat (length l + 1))
              (Bitextract.NumFields (decoderExploder btd))); [lia|].
  by apply (firstInvalid_None _ 0) in Hnum as ->.
Qed.

Lemma Fields_inv btd uri fs :
  strlen uri <= MaxInt ->
  0 < Bitextract.NumFields (decoderExploder btd) ->
  Fields btd uri = Some (fs, None) ->
  uri = decoderPrefix btd +:+ ":" +:+ String.concat "." fs /\
  Z.of_nat (length fs) = Bitextract.NumFields (decoderExploder btd) /\
  Forall numeric fs.
Proof.
  intros Hlen Hn H.
  destruct (HasPrefix uri (decoderPrefix btd +:+ ":")) eqn:Hp.
  2:{ unfold Fields in H. by rewrite Hp in H. }
  destruct (Fields_rest btd uri Hlen Hp) as (rest & -> & _).
  rewrite Fields_prefixed in H by done. cbv zeta in H.
  rewrite SplitN_pos in H by done.
  remember (Z.to_nat (Z.min (Bitextract.NumFields (decoderExploder btd))
                            (strlen rest + 1) - 1)) as k eqn:Hk.
  pose proof (genSplit_length 46 k rest) as Hle.
  destruct (Z.ltb_spec (Z.of_nat (length (genSplit_loop 46 k rest)))
              (Bitextract.NumFields (decoderExploder btd))) as [|Hge]; [done|].
  destruct (firstInvalid (genSplit_loop 46 k rest) 0) eqn:Hinv; [done|].
  injection H as <-. split; [by rewrite genSplit_concat|].
  split; [lia|]. by apply (firstInvalid_None _ 0).
Qed.

(** [Fields] does not panic. *)
Lemma Fields_total btd uri :
  strlen uri <= MaxInt -> is_Some (Fields btd uri).
Proof.
  intros Hlen.
  destruct (HasPrefix uri (decoderPrefix btd +:+ ":")) eqn:Hp.
  2:{ unfold Fields. by rewrite Hp. }
  destruct (Fields_rest btd uri Hlen Hp) as (rest & -> & _).
  rewrite Fields_prefixed by done. cbv zeta.
  destruct (_ <? _); [done|]. by destruct (firstInvalid _ _).
Qed.

End FieldsFacts.

Section FieldsURI.
Import GoInt Mem Bitextract Epc Bittag.

Lemma genSplit_join_rest init : forall tl,
  tl <> [] ->
  Forall (fun f => Forall (fun x => x <> 46) (bytesOf f)) init ->
  genSplit_loop 46 (length init) (String.concat "." (init ++ tl))
  = init ++ [String.concat "." tl].
Proof.
  induction init as [|f init IH]; intros tl Htl H; [done|].
  apply Forall_cons in H as [Hf Hinit].
  change ((f :: init) ++ tl) with (f :: (init ++ tl)).
  rewrite concat_cons by (destruct init, tl; done).
  cbn [length genSplit_loop]. rewrite cutSep_app by done.
  by rewrite IH.
Qed.

Lemma firstInvalid_app init : forall x i,
  Forall numeric init -> ~ numeric x ->
  firstInvalid (init ++ [x]) i = Some (i + Z.of_nat (length init)).
Proof.
  induction init as [|f init IH]; intros x i Hinit Hx.
  - cbn [app firstInvalid length].
    destruct (fieldsRegex_MatchString x) eqn:Hm.
    + by apply MatchString_numeric in Hm.
    + f_equal. lia.
  - apply Forall_cons in Hinit as [Hf Hinit].
    apply MatchString_numeric in Hf.
    cbn [app firstInvalid length]. rewrite Hf, IH by done. f_equal. lia.
Qed.

(** Two parts or more joined by periods are not a numeric field. *)
Lemma concat_not_numeric f g (tl : list string) :
  ~ numeric (String.concat "." (f :: g :: tl)).
Proof.
  intros [_ Hd]. rewrite concat_cons in Hd by done.
  rewrite !bytesOf_app in Hd. apply Forall_app in Hd as [_ Hd].
  apply Forall_app in Hd as [Hd _]. change (bytesOf ".") with [46] in Hd.
  apply Forall_inv in Hd. unfold isDigit in Hd. lia.
Qed.

Lemma fmtD_numeric n : 0 <= n -> numeric (fmtD n).
Proof.
  intros Hn.
  destruct (fmtD_digits (S (Z.to_nat n)) n) as (z & Hz & Hb & _); [lia| |].
  { split; [done|].
    pose proof (Z.pow_gt_lin_r 10 (Z.of_nat (S (Z.to_nat n)))). lia. }
  assert (Forall isDigit (bytesOf (fmtD n))) as Hd.
  { rewrite Hb. apply Forall_drop, digits_isDigit. }
  split; [|done]. intros He. apply (f_equal bytesOf) in He.
  apply (f_equal length) in He. rewrite Hb, length_drop, length_digits in He.
  cbn in He. lia.
Qed.

Lemma fmtField_numeric f : valued f -> numeric (fmtField f).
Proof. destruct f; cbn [valued fmtField]; [done|apply fmtD_numeric..]. Qed.

Lemma decodedTagFields_valued widths data :
  Forall (fun w => 0 <= w) widths ->
  Forall valued (decodedTagFields widths data).
Proof.
  intros Hw. unfold decodedTagFields. apply Forall_lookup.
  intros i f Hf. apply list_lookup_imap_Some in Hf as (w & Hwi & ->).
  eapply Forall_lookup in Hw; [|exact Hwi]. cbn beta in Hw.
  pose proof (bitsValue_range data (fieldStart widths i) w Hw).
  unfold fieldOf. destruct (_ <=? _); cbn [valued]; lia.
Qed.

(** [Fields] on the URI of a tag of numbers. *)
Lemma Fields_URI btd bt :
  uriPrefix bt = decoderPrefix btd ->
  0 < Bitextract.NumFields (decoderExploder btd) ->
  Z.of_nat (length (fields bt)) = Bitextract.NumFields (decoderExploder btd) ->
  Z.of_nat (length (fields bt)) <= MaxInt ->
  Forall valued (fields bt) ->
  exists u,
    URI bt = Some u /\
    (strlen u <= MaxInt ->
     Fields btd u = Some (fmtField <$> fields bt, None)).
Proof.
  intros Hp Hn Hl Hmax Hv.
  exists (uriPrefix bt +:+ ":"
          +:+ String.concat "." (fmtField <$> fields bt)).
  split. { unfold URI. by rewrite String_concat. }
  rewrite Hp. intros Hlen. apply Fields_ok; try done.
  - by rewrite length_fmap.
  - apply Forall_fmap. eapply Forall_impl; [exact Hv|].
    apply fmtField_numeric.
Qed.

(** X25 ([Fields]).  On a URI whose length is a Go [int], and for a decoder
    with at least one field, [Fields] does not panic, and it returns fields
    and no error exactly when the URI is the decoder's prefix, a colon, and
    as many non-empty runs of digits as the decoder has fields, joined by
    periods; the fields it returns are those runs. *)
Theorem Fields_accepts_iff btd uri fs :
  strlen uri <= MaxInt ->
  0 < Bitextract.NumFields (decoderExploder btd) ->
  is_Some (Fields btd uri) /\
  (Fields btd uri = Some (fs, None) <->
   uri = decoderPrefix btd +:+ ":" +:+ String.concat "." fs /\
   Z.of_nat (length fs) = Bitextract.NumFields (decoderExploder btd) /\
   Forall numeric fs).
Proof.
  intros Hlen Hn. split; [by apply Fields_total|]. split.
  - by apply Fields_inv.
  - intros (Hu & Hl & Hnum). subst uri. by apply Fields_ok.
Qed.

Lemma Fields_accepts_iff_witness :
  let btd := mkDecoder "tag:test.com,2019-01-01"
               {| bitLength := 96; expByteLen := 12;
                  extractors := builtFields 0 [8; 48; 40] |} in
  Fields btd "tag:test.com,2019-01-01:15.12.5330"
  = Some (["15"; "12"; "5330"], None).
Proof.
  intros btd.
  apply (proj2 (Fields_accepts_iff btd "tag:test.com,2019-01-01:15.12.5330"
                  ["15"; "12"; "5330"] ltac:(by vm_compute)
                  ltac:(by vm_compute))).
  split; [done|]. split; [done|].
  repeat constructor; try done;
    cbn; repeat constructor; unfold isDigit; lia.
Defined.

(** X26 ([Fields]).  A URI that carries more numeric fields than the decoder
    has is rejected: [SplitN] leaves the surplus in the last part, which
    then holds a period, and [Fields] reports that part, the one of index
    [NumFields() - 1], as invalid. *)
Theorem Fields_surplus_rejected btd fs :
  strlen (decoderPrefix btd +:+ ":" +:+ String.concat "." fs) <= MaxInt ->
  0 < Bitextract.NumFields (decoderExploder btd) ->
  Bitextract.NumFields (decoderExploder btd) < Z.of_nat (length fs) ->
  Forall numeric fs ->
  Fields btd (decoderPrefix btd +:+ ":" +:+ String.concat "." fs)
  = Some ([], Some (ErrInvalidField
                      (Bitextract.NumFields (decoderExploder btd) - 1))).
Proof.
  intros Hlen Hn Hmore Hnum. rewrite Fields_prefixed by done. cbv zeta.
  rewrite SplitN_pos by done. pose proof (concat_strlen fs Hnum) as Hc.
  rewrite Z.min_l by lia.
  remember (Z.to_nat (Bitextract.NumFields (decoderExploder btd) - 1))
    as k eqn:Hk.
  assert (exists init tl, fs = init ++ tl /\ length init = k /\
                          (2 <= length tl)%nat) as (init & tl & -> & Hlk & Hld).
  { exists (take k fs), (drop k fs). rewrite take_drop, length_take, length_drop.
    split; [done|]. lia. }
  apply Forall_app in Hnum as [Hinit Htl].
  assert (genSplit_loop 46 k (String.concat "." (init ++ tl))
          = init ++ [String.concat "." tl]) as ->.
  { rewrite <- Hlk. apply genSplit_join_rest.
    - intros He. rewrite He in Hld. cbn in Hld. lia.
    - eapply Forall_impl; [exact Hinit|apply numeric_nodot]. }
  rewrite length_app, Hlk. cbn [length].
  destruct (Z.ltb_spec (Z.of_nat (k + 1))
              (Bitextract.NumFields (decoderExploder btd))); [lia|].
  rewrite firstInvalid_app; [|done|].
  - rewrite Hlk.
    replace (0 + Z.of_nat k)
      with (Bitextract.NumFields (decoderExploder btd) - 1) by lia.
    done.
  - destruct tl as [|f [|g tl]]; [cbn in Hld; lia..|].
    apply concat_not_numeric.
Qed.

Lemma Fields_surplus_rejected_witness :
  let btd := mkDecoder "tag:test.com,2019-01-01"
               {| bitLength := 96; expByteLen := 12;
                  extractors := builtFields 0 [8; 48; 40] |} in
  Fields btd "tag:test.com,2019-01-01:15.12.5330.7"
  = Some ([], Some (ErrInvalidField 2)).
Proof.
  intros btd.
  apply (Fields_surplus_rejected btd ["15"; "12"; "5330"; "7"]
           ltac:(by vm_compute) ltac:(by vm_compute) ltac:(by vm_compute)).
  repeat constructor; try done;
    cbn; repeat constructor; unfold isDigit; lia.
Defined.

(** X27 ([Field]).  On a URI that [Fields] accepts, [Field] returns the
    field of an index below the number of fields and the error for an index
    above it; for the index equal to the number of fields, which the test
    [idx > len(fields)] lets through, and for a negative index, it
    panics. *)
Theorem Field_index btd fs idx :
  strlen (decoderPrefix btd +:+ ":" +:+ String.concat "." fs) <= MaxInt ->
  0 < Bitextract.NumFields (decoderExploder btd) ->
  Z.of_nat (length fs) = Bitextract.NumFields (decoderExploder btd) ->
  Forall numeric fs ->
  Field btd (decoderPrefix btd +:+ ":" +:+ String.concat "." fs) idx
  = if idx >? Z.of_nat (length fs)
    then Some (EmptyString, Some (ErrNotEnough idx))
    else if (idx <? 0) || (idx =? Z.of_nat (length fs)) then None
    else (fun f => (f, None)) <$> fs !! Z.to_nat idx.
Proof.
  intros Hlen Hn Hl Hnum. unfold Field. rewrite Fields_ok by done.
  cbn [mbind option_bind fst snd].
  destruct (Z.gtb_spec idx (Z.of_nat (length fs))) as [|Hle]; [done|].
  unfold index. destruct (Z.ltb_spec idx 0) as [|H0]; [done|].
  cbn [orb]. destruct (Z.eqb_spec idx (Z.of_nat (length fs))) as [->|Hne].
  - rewrite Nat2Z.id, lookup_ge_None_2 by lia. done.
  - by destruct (fs !! Z.to_nat idx).
Qed.

Lemma Field_index_witness :
  let btd := mkDecoder "tag:test.com,2019-01-01"
               {| bitLength := 96; expByteLen := 12;
                  extractors := builtFields 0 [8; 48; 40] |} in
  Field btd "tag:test.com,2019-01-01:15.12.5330" 3 = None.
Proof.
  intros btd.
  apply (Field_index btd ["15"; "12"; "5330"] 3
           ltac:(by vm_compute) ltac:(by vm_compute) ltac:(by vm_compute)).
  repeat constructor; try done;
    cbn; repeat constructor; unfold isDigit; lia.
Defined.

(** X28 ([Decode], [URI], [Fields]).  The URI of a tag that carries the
    decoder's prefix and the fields decoded for the decoder's widths is
    accepted by [Fields], which gives back the decimal form of every field,
    a non-empty run of digits. *)
Theorem Fields_of_decoded_URI btd widths data :
  Forall (fun w => 0 <= w) widths ->
  0 < Z.of_nat (length widths) <= MaxInt ->
  Bitextract.NumFields (decoderExploder btd) = Z.of_nat (length widths) ->
  exists u,
    URI (mkBitTag (decoderPrefix btd) (decodedTagFields widths data))
    = Some u /\
    Forall numeric (fmtField <$> decodedTagFields widths data) /\
    (strlen u <= MaxInt ->
     Fields btd u
     = Some (fmtField <$> decodedTagFields widths data, None)).
Proof.
  intros Hw Hn Hl.
  pose proof (decodedTagFields_valued widths data Hw) as Hv.
  assert (length (decodedTagFields widths data) = length widths) as Hlen
    by (unfold decodedTagFields; by rewrite length_imap).
  destruct (Fields_URI btd
              (mkBitTag (decoderPrefix btd) (decodedTagFields widths data)))
    as (u & Hu & Hf); cbn [uriPrefix fields]; try done; try lia.
  exists u. split; [done|]. split; [|done].
  apply Forall_fmap. eapply Forall_impl; [exact Hv|apply fmtField_numeric].
Qed.

Lemma Fields_of_decoded_URI_witness :
  let btd := mkDecoder "tag:test.com,2019-01-01"
               {| bitLength := 96; expByteLen := 12;
                  extractors := builtFields 0 [8; 48; 40] |} in
  let data := [15; 0; 0; 0; 0; 0; 12; 0; 0; 0; 20; 210] in
  exists u,
    URI (mkBitTag (decoderPrefix btd) (decodedTagFields [8; 48; 40] data))
    = Some u /\
    Forall numeric (fmtField <$> decodedTagFields [8; 48; 40] data) /\
    (strlen u <= MaxInt ->
     Fields btd u
     = Some (fmtField <$> decodedTagFields [8; 48; 40] data, None)).
Proof.
  intros btd data. apply (Fields_of_decoded_URI btd [8; 48; 40] data).
  - repeat constructor; lia.
  - by vm_compute.
  - by vm_compute.
Defined.

End FieldsURI.

Section UriFacts.
Import GoInt Mem Bitextract Epc.

(** The bytes [URI] prints for an SGTIN in range. *)
Lemma URI_bytes s :
  rangesOK s ->
  bytesOf (URI s)
  = bytesOf SGTINPureURIPrefix ++ [58]
    ++ digits (12 - Z.to_nat (partition s)) (companyPrefix s) ++ [46]
    ++ digits 1 (indicator s)
    ++ digits (Z.to_nat (partition s)) (itemRef s) ++ [46]
    ++ bytesOf (gs1Escaper_Replace (serial s)).
Proof.
  intros (Hind & _ & Hp & Hir & Hcp & _).
  remember (Z.to_nat (partition s)) as k eqn:Ek.
  assert (partition s = Z.of_nat k) as Hpk by lia.
  assert (k <= 6)%nat as Hk6 by lia.
  rewrite Hpk in Hir, Hcp.
  replace (12 - Z.of_nat k) with (Z.of_nat (12 - k)) in Hcp by lia.
  unfold URI. rewrite Hpk, sub_id by zdm.
  replace (12 - Z.of_nat k) with (Z.of_nat (12 - k)) by lia.
  destruct (Z.eqb_spec (Z.of_nat k) 0) as [Hk0|Hk0].
  - assert (k = 0%nat) as -> by lia.
    rewrite !bytesOf_app, fmtD_digit by lia.
    rewrite fmt0StarD_digits by (done || lia). done.
  - rewrite !bytesOf_app, fmtD_digit by lia.
    rewrite !fmt0StarD_digits by (done || lia). done.
Qed.

Lemma isDigit_safe l :
  Forall isDigit l -> Forall (fun x => x ∉ gs1Unsafe) l.
Proof.
  intros H. eapply Forall_impl; [exact H|].
  unfold isDigit, gs1Unsafe. intros x Hx Hin.
  repeat (apply elem_of_cons in Hin as [Hin|Hin]; [lia|]).
  by apply elem_of_nil in Hin.
Qed.

(** X29 ([URI]).  For an SGTIN whose fields are in range, [URI] prints the
    prefix, a colon, the company prefix on 12 - partition digits, a period,
    the indicator digit followed by the item reference on partition digits,
    a period, and the escaped serial: 13 digits in all before the serial,
    and nowhere a null byte or one of the reserved characters that the
    escaper replaces, the percent sign apart. *)
Theorem URI_digits s :
  rangesOK s ->
  bytesOf (URI s)
  = bytesOf SGTINPureURIPrefix ++ [58]
    ++ digits (12 - Z.to_nat (partition s)) (companyPrefix s) ++ [46]
    ++ digits 1 (indicator s)
    ++ digits (Z.to_nat (partition s)) (itemRef s) ++ [46]
    ++ bytesOf (EscapeGS1 (serial s)) /\
  (length (digits (12 - Z.to_nat (partition s)) (companyPrefix s))
   + length (digits 1 (indicator s)
             ++ digits (Z.to_nat (partition s)) (itemRef s)) = 13)%nat /\
  Forall (fun x => x ∉ gs1Unsafe) (bytesOf (URI s)).
Proof.
  intros Hok. pose proof (URI_bytes s Hok) as Hb.
  destruct Hok as (_ & _ & Hp & _).
  split; [done|]. split.
  { rewrite length_app, !length_digits. lia. }
  rewrite Hb, !Forall_app.
  split; [|split; [|split; [|split; [|split; [|split; [|split]]]]]].
  - apply (bool_decide_unpack _). by vm_compute.
  - apply (bool_decide_unpack _). by vm_compute.
  - apply isDigit_safe, digits_isDigit.
  - apply (bool_decide_unpack _). by vm_compute.
  - apply isDigit_safe, digits_isDigit.
  - apply isDigit_safe, digits_isDigit.
  - apply (bool_decide_unpack _). by vm_compute.
  - apply escape_safe.
Qed.

Lemma URI_digits_witness :
  let s := mkSGTIN 1 5 614141 8 12345 "6789" in
  bytesOf (URI s)
  = bytesOf SGTINPureURIPrefix ++ [58]
    ++ digits (12 - Z.to_nat (partition s)) (companyPrefix s) ++ [46]
    ++ digits 1 (indicator s)
    ++ digits (Z.to_nat (partition s)) (itemRef s) ++ [46]
    ++ bytesOf (EscapeGS1 (serial s)) /\
  (length (digits (12 - Z.to_nat (partition s)) (companyPrefix s))
   + length (digits 1 (indicator s)
             ++ digits (Z.to_nat (partition s)) (itemRef s)) = 13)%nat /\
  Forall (fun x => x ∉ gs1Unsafe) (bytesOf (URI s)).
Proof.
  intros s. apply (URI_digits s). unfold rangesOK. by vm_compute.
Defined.

End UriFacts.

Section Serial96Facts.
Import GoInt Mem Bitextract Epc.

Lemma bytesOf_inj a : forall b, bytesOf a = bytesOf b -> a = b.
Proof.
  induction a as [|c a IH]; intros [|d b] H; try done.
  cbn [bytesOf] in H. injection H as Hc Hab. f_equal; [|by apply IH].
  rewrite <- (codeChar_charCode c), <- (codeChar_charCode d). by rewrite Hc.
Qed.

Lemma decimalValue_cons c l :
  decimalValue (c :: l) = foldl (fun acc x => acc * 10 + (x - 48)) (c - 48) l.
Proof. done. Qed.

Lemma foldl_digits_ge l : forall n,
  0 <= n -> Forall isDigit l ->
  n <= foldl (fun acc x => acc * 10 + (x - 48)) n l.
Proof.
  induction l as [|c l IH]; intros n Hn Hl; [cbn; lia|].
  apply Forall_cons in Hl as [Hc Hl]. unfold isDigit in Hc. cbn [foldl].
  specialize (IH (n * 10 + (c - 48)) ltac:(lia) Hl). lia.
Qed.

(** The loop of [ParseUint] for a largest value below the cutoff: it
    returns a number exactly for digits that spell a number up to the
    largest value. *)
Lemma ParseUint_loop_inl maxVal l : forall n v,
  0 <= maxVal < 2 ^ 60 -> 0 <= n <= maxVal ->
  ParseUint_loop maxVal l n = inl v
  <-> Forall isDigit l /\
      v = foldl (fun acc x => acc * 10 + (x - 48)) n l /\ v <= maxVal.
Proof.
  induction l as [|c l IH]; intros n v Hmax Hn.
  { cbn [ParseUint_loop foldl]. split.
    - intros [= <-]. split; [constructor|]. split; [done|lia].
    - intros (_ & -> & _). done. }
  cbn [ParseUint_loop foldl]. rewrite Forall_cons.
  destruct (Z.leb_spec 48 c) as [H48|H48];
    [destruct (Z.leb_spec c 57) as [H57|H57]|]; cbn [andb].
  2,3: split; [done|]; intros ((Hc & _) & _); unfold isDigit in Hc; lia.
  change (2 ^ 60) with 1152921504606846976 in Hmax.
  change ((2 ^ 64 - 1) / 10 + 1) with 1844674407370955162.
  change (2 ^ 64) with 18446744073709551616.
  destruct (Z.geb_spec n 1844674407370955162) as [|_]; [lia|].
  cbv zeta. rewrite (Z.mod_small (n * 10)) by lia.
  rewrite (Z.mod_small (n * 10 + (c - 48))) by lia.
  destruct (Z.ltb_spec (n * 10 + (c - 48)) (n * 10)) as [|_]; [lia|].
  destruct (Z.gtb_spec (n * 10 + (c - 48)) maxVal) as [Hbig|Hfit];
    cbn [orb].
  - split; [done|]. intros ((_ & Hl) & -> & Hv).
    pose proof (foldl_digits_ge l (n * 10 + (c - 48)) ltac:(lia) Hl). lia.
  - rewrite IH by (done || lia). unfold isDigit. intuition lia.
Qed.

Lemma ParseUint_inl s v :
  ParseUint s 38 = inl v
  <-> s <> EmptyString /\ Forall isDigit (bytesOf s) /\
      v = decimalValue (bytesOf s) /\ v < 2 ^ 38.
Proof.
  unfold ParseUint. destruct s as [|c s].
  { cbn. split; [done|]. by intros [? _]. }
  cbn [bytesOf].
  rewrite (ParseUint_loop_inl (2 ^ 38 - 1) (charCode c :: bytesOf s) 0 v)
    by (change (2 ^ 38) with 274877906944;
        change (2 ^ 60) with 1152921504606846976; lia).
  unfold decimalValue. intuition (done || lia).
Qed.

Lemma digits_decimalValue l :
  Forall isDigit l ->
  digits (length l) (decimalValue l) = l /\
  0 <= decimalValue l < 10 ^ Z.of_nat (length l).
Proof.
  induction l as [|c l IH] using rev_ind; intros Hl.
  { unfold decimalValue. cbn. split; [done|lia]. }
  apply Forall_app in Hl as [Hl Hc]. apply Forall_inv in Hc.
  unfold isDigit in Hc. destruct (IH Hl) as [Hd Hr].
  rewrite decimalValue_snoc, length_app. cbn [length].
  rewrite Nat.add_1_r. cbn [digits].
  replace ((decimalValue l * 10 + (c - 48)) / 10) with (decimalValue l)
    by zdm.
  replace ((decimalValue l * 10 + (c - 48)) mod 10) with (c - 48) by zdm.
  rewrite Hd. split; [f_equal; f_equal; lia|].
  rewrite Nat2Z.inj_succ, Z.pow_succ_r by lia. lia.
Qed.

Lemma decimalValue_zeros z l :
  decimalValue (replicate z 48 ++ l) = decimalValue l.
Proof.
  unfold decimalValue. rewrite foldl_app. f_equal.
  induction z as [|z IH]; [done|]. cbn [replicate foldl].
  change (0 * 10 + (48 - 48)) with 0. done.
Qed.

Lemma decimalValue_fmtD n :
  0 <= n -> decimalValue (bytesOf (fmtD n)) = n.
Proof.
  intros Hn.
  assert (n < 10 ^ Z.of_nat (S (Z.to_nat n))) as Hlt.
  { pose proof (Z.pow_gt_lin_r 10 (Z.of_nat (S (Z.to_nat n)))). lia. }
  destruct (fmtD_digits (S (Z.to_nat n)) n) as (z & Hz & Hb & Ht);
    [lia|lia|].
  rewrite Hb, <- (decimalValue_zeros z), <- Ht, take_drop.
  apply decimalValue_digits. lia.
Qed.

(** The printer writes no leading zero. *)
Lemma pretty_N_go_head (x : N) : forall s,
  (0 < x)%N ->
  exists c rest, pretty_N_go x s = String c rest /\ charCode c <> 48.
Proof.
  induction (N.lt_wf_0 x) as [x _ IH]. intros s Hx.
  rewrite pretty_N_go_step by done.
  destruct (decide (x `div` 10 = 0)%N) as [H0|H0].
  - rewrite H0, pretty_N_go_0. eexists _, _. split; [done|].
    assert (x < 10)%N as Hlt by (apply N.div_small_iff in H0; lia).
    rewrite charCode_pretty_N_char by (apply N.mod_lt; lia).
    rewrite N.mod_small by done. lia.
  - assert (0 < x `div` 10)%N as Hq by (by apply N.neq_0_lt_0).
    apply IH; [|done]. apply N.div_lt; lia.
Qed.

Lemma fmtD_head n :
  0 < n -> exists c rest, fmtD n = String c rest /\ charCode c <> 48.
Proof.
  intros Hn. unfold fmtD. destruct n as [|q|q]; [lia| |lia].
  change (pretty (Z.pos q)) with (pretty_N_go (N.pos q) "").
  apply pretty_N_go_head. lia.
Qed.

Lemma CanSGTIN96_nil s :
  CanSGTIN96 s = None
  <-> exists n, 0 <= n < 2 ^ 38 /\ serial s = fmtD n.
Proof.
  unfold CanSGTIN96. split.
  - destruct (bytesOf (serial s)) as [|c0 t] eqn:Hb; [done|].
    destruct (ParseUint (serial s) 38) as [v|e] eqn:Hp; [|done].
    apply ParseUint_inl in Hp as (Hne & Hd & Hv & Hlt).
    intros Hz. destruct (digits_decimalValue _ Hd) as [Hdig Hr].
    rewrite <- Hv in Hdig, Hr. exists v. split; [lia|].
    apply bytesOf_inj.
    assert (1 <= length (bytesOf (serial s)))%nat as Hlen
      by (rewrite Hb; cbn; lia).
    destruct (fmtD_digits (length (bytesOf (serial s))) v Hlen Hr)
      as (z & Hzk & Hfb & Ht).
    rewrite Hdig in Hfb, Ht. destruct z as [|z]; [by rewrite Hfb|].
    exfalso. rewrite Hb in Ht. cbn [take replicate] in Ht.
    injection Ht as -> _. cbn [Z.eqb Pos.eqb andb] in Hz.
    destruct (String.eqb_spec (serial s) "0") as [He|He]; [|done].
    rewrite He in Hzk. cbn in Hzk. lia.
  - intros (n & Hn & Hs).
    pose proof (fmtD_numeric n ltac:(lia)) as [Hne Hd].
    pose proof (decimalValue_fmtD n ltac:(lia)) as Hv.
    rewrite <- Hs in Hne, Hd, Hv.
    destruct (bytesOf (serial s)) as [|c0 t] eqn:Hb.
    { destruct (serial s); done. }
    assert (ParseUint (serial s) 38 = inl n) as ->.
    { apply ParseUint_inl. rewrite Hb. split; [done|]. split; [done|].
      split; [done|lia]. }
    destruct (Z.eqb_spec c0 48) as [->|Hc0]; [|done]. cbn [andb].
    destruct (decide (n = 0)) as [->|Hn0].
    + rewrite Hs. done.
    + destruct (fmtD_head n ltac:(lia)) as (c & rest & Hf & Hc).
      rewrite Hs, Hf in Hb. cbn [bytesOf] in Hb. injection Hb as Hb _. lia.
Qed.

(** X30 ([CanSGTIN96]).  The function returns nil exactly when the serial
    is the decimal form, as [%d] prints it, of a number below 2^38: digits
    only, at least one, no leading zero but for the serial 0.  The serial
    [DecodeSGTIN] gives an SGTIN-96 tag, the decimal form of its last 38
    bits, is therefore always accepted. *)
Theorem CanSGTIN96_canonical s :
  (CanSGTIN96 s = None
   <-> exists n, 0 <= n < 2 ^ 38 /\ serial s = fmtD n) /\
  (forall b, CanSGTIN96 (decodedFields b (fmtD (bitsValue b 58 38))) = None).
Proof.
  split; [apply CanSGTIN96_nil|]. intros b. apply CanSGTIN96_nil.
  exists (bitsValue b 58 38). split; [|done].
  apply bitsValue_range. lia.
Qed.

(** TestSGTIN_CanSGTIN96: the serials of the repository's test, and the
    first number that does not fit 38 bits. *)
Example CanSGTIN96_vectors :
  (fun sr => CanSGTIN96 (mkSGTIN 0 0 0 0 0 sr))
    <$> ["0"; "1"; "10"; "274877906943"; ""; "A1"; "00"; "000"; " 0"; "01";
         "274877906944"]
  = [None; None; None; None; Some ErrSerial96Empty;
     Some (ErrSerial96Numeric ErrSyntax); Some ErrSerial96LeadingZero;
     Some ErrSerial96LeadingZero; Some (ErrSerial96Numeric ErrSyntax);
     Some ErrSerial96LeadingZero; Some (ErrSerial96Numeric ErrRange)].
Proof. vm_compute. reflexivity. Qed.

End Serial96Facts.
